(** * lacunas-tc: the documentation-coverage helper, embedded and verified

    The repository has three Python programs:
    - [extract_data_from_markdown.py] splits a consolidated Markdown file
      into document records (module [Extract]);
    - [generate-embedings.py] annotates each record with an embedding,
      retrying the external call (module [Embed]);
    - [app.py] ranks the corpus against a query and asks a generative
      model for a coverage report (module [App]).

    Python strings are sequences of Unicode code points, so [str] is a list
    of code points ([N]).  The [re] patterns of the source are transcribed
    into a small regular-expression syntax whose matcher follows the
    backtracking order of Python's engine (module [Re]).  The external
    services (embedding, generation, cosine distance, number formatting,
    the Unicode case tables) are parameters of the functions that use
    them.

    Part I holds the programs and the vocabulary of the statements, Part II
    the properties. *)

From Stdlib Require Import List NArith ZArith QArith Bool Arith Lia.
From Stdlib Require Import Sorted Permutation.
From Stdlib Require String Ascii.
Import ListNotations String.StringSyntax.
Local Close Scope Q_scope.

Set Implicit Arguments.

(* ================================================================= *)
(** * Part I: definitions *)
(* ================================================================= *)

(** ** Python strings *)

Module PyStr.

Definition char := N.
Definition str := list char.

(** Source literals are written as UTF-8 text and decoded to code
    points. *)
Fixpoint utf8_go (need : nat) (acc : N) (bs : list N) : str :=
  match bs with
  | [] => []
  | b :: bs' =>
      match need with
      | S n =>
          let acc' := (acc * 64 + b mod 64)%N in
          match n with
          | O => acc' :: utf8_go 0 0%N bs'
          | S _ => utf8_go n acc' bs'
          end
      | O =>
          if (b <? 128)%N then b :: utf8_go 0 0%N bs'
          else if (b <? 224)%N then utf8_go 1 (b mod 32)%N bs'
          else if (b <? 240)%N then utf8_go 2 (b mod 16)%N bs'
          else utf8_go 3 (b mod 8)%N bs'
      end
  end.

Definition lit (s : String.string) : str :=
  utf8_go 0 0%N (map Ascii.N_of_ascii (String.list_ascii_of_string s)).

Arguments lit s%_string_scope.

Definition NL : char := 10%N.
Definition DQUOTE : char := 34%N.
Definition SQUOTE : char := 39%N.
Definition HYPHEN : char := 45%N.

Definition eqb_char (a b : char) : bool := N.eqb a b.

Fixpoint eqb_str (a b : str) : bool :=
  match a, b with
  | [], [] => true
  | x :: a', y :: b' => eqb_char x y && eqb_str a' b'
  | _, _ => false
  end.

(** [str.isspace] for one character, which is also what [\s] matches in
    a [str] pattern. *)
Definition isspace (c : char) : bool :=
  ((9 <=? c) && (c <=? 13) || (28 <=? c) && (c <=? 32)
   || (c =? 133) || (c =? 160) || (c =? 5760)
   || (8192 <=? c) && (c <=? 8202)
   || (c =? 8232) || (c =? 8233) || (c =? 8239) || (c =? 8287)
   || (c =? 12288))%N.

Fixpoint dropwhile (p : char -> bool) (s : str) : str :=
  match s with
  | [] => []
  | c :: s' => if p c then dropwhile p s' else s
  end.

(** [s.strip(chars)], the set of characters given as a predicate. *)
Definition strip_by (p : char -> bool) (s : str) : str :=
  rev (dropwhile p (rev (dropwhile p s))).

(** [s.strip()] *)
Definition strip (s : str) : str := strip_by isspace s.

(** [s.startswith(p)] *)
Fixpoint startswith (p s : str) : bool :=
  match p, s with
  | [], _ => true
  | a :: p', b :: s' => eqb_char a b && startswith p' s'
  | _ :: _, [] => false
  end.

(** [s.replace(old, new, 1)]: the first occurrence only. *)
Fixpoint replace_first (old new s : str) : str :=
  if startswith old s then new ++ skipn (length old) s
  else match s with
       | [] => []
       | c :: s' => c :: replace_first old new s'
       end.

(** [s.replace(old, new)] for a non-empty [old]: every occurrence, left
    to right, without overlap.  [skip] counts the characters of the
    occurrence being skipped. *)
Fixpoint replace_from (old new : str) (skip : nat) (s : str) : str :=
  match s with
  | [] => []
  | c :: s' =>
      match skip with
      | S n => replace_from old new n s'
      | O =>
          if startswith old s
          then new ++ replace_from old new (pred (length old)) s'
          else c :: replace_from old new 0 s'
      end
  end.

Definition replace (old new s : str) : str := replace_from old new 0 s.

(** [s.split(sep, 1)]: at most one cut, at the first occurrence. *)
Fixpoint split_once_from (sep : str) (before_rev s : str) : list str :=
  if startswith sep s then [rev before_rev; skipn (length sep) s]
  else match s with
       | [] => [rev before_rev]
       | c :: s' => split_once_from sep (c :: before_rev) s'
       end.

Definition split_once (sep s : str) : list str := split_once_from sep [] s.

(** The lines of a text, cut at every line feed. *)
Fixpoint lines (s : str) : list str :=
  match s with
  | [] => [[]]
  | c :: s' =>
      if eqb_char c NL then [] :: lines s'
      else match lines s' with
           | l :: ls => (c :: l) :: ls
           | [] => [[c]]
           end
  end.

(** [os.path.basename] on a POSIX path: what follows the last slash. *)
Fixpoint basename_from (cur_rev s : str) : str :=
  match s with
  | [] => rev cur_rev
  | c :: s' =>
      if eqb_char c 47%N then basename_from [] s'
      else basename_from (c :: cur_rev) s'
  end.

Definition basename (s : str) : str := basename_from [] s.

(** [s.lower()].  ASCII letters are shifted; the case mapping of any other
    character comes from the Unicode tables, which may look at the
    characters around it, so it is a parameter [tbl] receiving the reversed
    text before the character, the character, and the text after it. *)
Definition lower_ascii (c : char) : char :=
  if ((65 <=? c) && (c <=? 90))%N then (c + 32)%N else c.

Fixpoint lower_from (tbl : str -> char -> str -> str)
         (before_rev s : str) : str :=
  match s with
  | [] => []
  | c :: s' =>
      (if (c <? 128)%N then [lower_ascii c] else tbl before_rev c s')
        ++ lower_from tbl (c :: before_rev) s'
  end.

Definition lower (tbl : str -> char -> str -> str) (s : str) : str :=
  lower_from tbl [] s.

(** Python truthiness of a string. *)
Definition truthy (s : str) : bool :=
  match s with [] => false | _ :: _ => true end.

End PyStr.

(** ** Regular expressions with Python's backtracking order *)

Module Re.
Import PyStr.

(** Every quantifier of the source patterns applies to a one-character
    item, so repetition is over a character predicate. *)
Inductive regex : Type :=
| Lit (l : str)                                (* literal text *)
| Set_ (p : char -> bool)                      (* one character in a set *)
| Rep (p : char -> bool) (min : nat) (greedy : bool)
                                               (* p{min,} or p{min,}? *)
| Seq (r1 r2 : regex)
| Alt (r1 r2 : regex)                          (* r1|r2, r1 tried first *)
| Group (n : nat) (r : regex)                  (* capturing group n *)
| Ahead (r : regex)                            (* (?=r) *)
| Bol                                          (* ^ under re.MULTILINE *)
| EndZ.                                        (* \Z *)

(** A matcher state: the character just before the current position, the
    text matched so far (reversed), the text still ahead, the groups
    captured so far. *)
Record mstate : Type := MState {
  prev : option char;
  acc : str;
  rest : str;
  caps : list (nat * str)
}.

Definition dot_all (_ : char) : bool := true.          (* . with DOTALL *)
Definition dot (c : char) : bool := negb (eqb_char c NL). (* . *)
Definition one (a : char) (c : char) : bool := eqb_char a c.
Definition one_of (l : str) (c : char) : bool := existsb (eqb_char c) l.

Definition at_bol (p : option char) : bool :=
  match p with
  | None => true
  | Some c => eqb_char c NL
  end.

Fixpoint eat (l : str) (st : mstate) : option mstate :=
  match l with
  | [] => Some st
  | a :: l' =>
      match rest st with
      | c :: s' =>
          if eqb_char a c
          then eat l' (MState (Some c) (c :: acc st) s' (caps st))
          else None
      | [] => None
      end
  end.

Definition orelse {A} (x y : option A) : option A :=
  match x with Some _ => x | None => y end.

Section Repetition.
Context {A : Type} (p : char -> bool) (k : mstate -> option A)
        (cs : list (nat * str)).

Fixpoint rep_greedy (min : nat) (pv : option char) (ac s : str)
  : option A :=
  let stop :=
    match min with O => k (MState pv ac s cs) | S _ => None end in
  match s with
  | c :: s' =>
      if p c
      then orelse (rep_greedy (pred min) (Some c) (c :: ac) s') stop
      else stop
  | [] => stop
  end.

Fixpoint rep_lazy (min : nat) (pv : option char) (ac s : str)
  : option A :=
  let more (_ : unit) :=
    match s with
    | c :: s' =>
        if p c then rep_lazy (pred min) (Some c) (c :: ac) s' else None
    | [] => None
    end in
  match min with
  | O => orelse (k (MState pv ac s cs)) (more tt)
  | S _ => more tt
  end.
End Repetition.

Fixpoint exec {A : Type} (r : regex) (st : mstate)
         (k : mstate -> option A) : option A :=
  match r with
  | Lit l => match eat l st with Some st' => k st' | None => None end
  | Set_ p =>
      match rest st with
      | c :: s' =>
          if p c then k (MState (Some c) (c :: acc st) s' (caps st))
          else None
      | [] => None
      end
  | Rep p min greedy =>
      if greedy
      then rep_greedy p k (caps st) min (prev st) (acc st) (rest st)
      else rep_lazy p k (caps st) min (prev st) (acc st) (rest st)
  | Seq r1 r2 => exec r1 st (fun st' => exec r2 st' k)
  | Alt r1 r2 => orelse (exec r1 st k) (exec r2 st k)
  | Group n r =>
      exec r (MState (prev st) [] (rest st) (caps st))
           (fun st' =>
              k (MState (prev st') (acc st' ++ acc st) (rest st')
                        ((n, rev (acc st')) :: caps st')))
  | Ahead r =>
      match exec r st (fun _ => Some tt) with
      | Some _ => k st
      | None => None
      end
  | Bol => if at_bol (prev st) then k st else None
  | EndZ => match rest st with [] => k st | _ :: _ => None end
  end.

(** A match anchored at the current position. *)
Definition match_at (r : regex) (pv : option char) (s : str)
  : option mstate :=
  exec r (MState pv [] s []) (fun st => Some st).

(** [re.search]: the first position, left to right, where the pattern
    matches; the result also carries the text skipped before it. *)
Fixpoint search_from (r : regex) (pv : option char) (s : str)
  : option (str * mstate) :=
  match match_at r pv s with
  | Some st => Some ([], st)
  | None =>
      match s with
      | [] => None
      | c :: s' =>
          match search_from r (Some c) s' with
          | Some (sk, st) => Some (c :: sk, st)
          | None => None
          end
      end
  end.

Definition search (r : regex) (s : str) : option (str * mstate) :=
  search_from r None s.

(** Whether a search found a match. *)
Definition found {A} (x : option A) : bool :=
  match x with Some _ => true | None => false end.

(** [m.group(n)] *)
Fixpoint group_in (n : nat) (cs : list (nat * str)) : option str :=
  match cs with
  | [] => None
  | (m, t) :: cs' => if Nat.eqb n m then Some t else group_in n cs'
  end.

Definition group (n : nat) (st : mstate) : str :=
  match group_in n (caps st) with Some t => t | None => [] end.

(** [re.sub(r, repl, s)] for a replacement without group references.
    Matches are taken left to right without overlap; after an empty match
    one character is copied. *)
Fixpoint sub_fuel (fuel : nat) (r : regex) (repl : str)
         (pv : option char) (s : str) : str :=
  match fuel with
  | O => s
  | S fuel' =>
      match search_from r pv s with
      | None => s
      | Some (sk, st) =>
          sk ++ repl ++
             match acc st, rest st with
             | [], c :: s' => c :: sub_fuel fuel' r repl (Some c) s'
             | [], [] => []
             | _ :: _, s' => sub_fuel fuel' r repl (prev st) s'
             end
      end
  end.

Definition sub (r : regex) (repl s : str) : str :=
  sub_fuel (S (length s)) r repl None s.

(** [re.finditer(r, s)]: the successive matches. *)
Fixpoint finditer_fuel (fuel : nat) (r : regex)
         (pv : option char) (s : str) : list mstate :=
  match fuel with
  | O => []
  | S fuel' =>
      match search_from r pv s with
      | None => []
      | Some (_, st) =>
          st ::
             match acc st, rest st with
             | [], c :: s' => finditer_fuel fuel' r (Some c) s'
             | [], [] => []
             | _ :: _, s' => finditer_fuel fuel' r (prev st) s'
             end
      end
  end.

Definition finditer (r : regex) (s : str) : list mstate :=
  finditer_fuel (S (length s)) r None s.

End Re.

(** ** extract_data_from_markdown.py

    The functions are taken from the text of the input file to the list
    of records; console output ([print]) is left out. *)

Module Extract.
Import PyStr Re.

Definition SPACE : str := Eval vm_compute in lit " ".
Definition MARKER : str := Eval vm_compute in lit ":::".
Definition DOT_MD : str := Eval vm_compute in lit ".md".
Definition HASHES : str := Eval vm_compute in lit "##".
Definition METADATA_START : str := Eval vm_compute in lit "Metadata_Start".
Definition METADATA_END : str := Eval vm_compute in lit "Metadata_End".
Definition TITLE_KEY : str := Eval vm_compute in lit "title:".
Definition SLUG_KEY : str := Eval vm_compute in lit "slug:".
Definition ARQUIVO : str := Eval vm_compute in lit "## Arquivo: ".
Definition NEXT_ARQUIVO : str := Eval vm_compute in NL :: lit "## Arquivo:".

(** The patterns of the source are quoted with a capturing group written
    between angle brackets (the source has parentheses).

    <##\s*Metadata_Start.*?##\s*Metadata_End> with re.DOTALL. *)
Definition metadata_block_re : regex :=
  Group 1
    (Seq (Lit HASHES)
    (Seq (Rep isspace 0 true)
    (Seq (Lit METADATA_START)
    (Seq (Rep dot_all 0 false)
    (Seq (Lit HASHES)
    (Seq (Rep isspace 0 true)
         (Lit METADATA_END))))))).

(** ##\s*title:\s*<.*> *)
Definition title_re : regex :=
  Seq (Lit HASHES)
  (Seq (Rep isspace 0 true)
  (Seq (Lit TITLE_KEY)
  (Seq (Rep isspace 0 true)
       (Group 1 (Rep dot 0 true))))).

(** ##\s*slug:\s*<.*> *)
Definition slug_re : regex :=
  Seq (Lit HASHES)
  (Seq (Rep isspace 0 true)
  (Seq (Lit SLUG_KEY)
  (Seq (Rep isspace 0 true)
       (Group 1 (Rep dot 0 true))))).

(** ^[#*`\-] with re.MULTILINE: one of the four characters number sign,
    asterisk, backtick, hyphen at the start of a line. *)
Definition is_markup (c : char) : bool :=
  ((c =? 35) || (c =? 42) || (c =? 96) || (c =? 45))%N.

Definition markup_re : regex := Seq Bol (Set_ is_markup).

Record metadata : Type := Metadata {
  md_title : option str;
  md_slug : option str
}.

Definition extract_metadata_and_clean_content (full_doc_content : str)
  : metadata * str :=
  match search metadata_block_re full_doc_content with
  | Some (_, m) =>
      let metadata_block := group 1 m in
      let title :=
        match search title_re metadata_block with
        | Some (_, t) => Some (strip (group 1 t))
        | None => None
        end in
      let slug :=
        match search slug_re metadata_block with
        | Some (_, t) => Some (strip (group 1 t))
        | None => None
        end in
      let content_without_metadata :=
        strip (replace_first metadata_block [] full_doc_content) in
      let content :=
        if startswith MARKER content_without_metadata then
          match split_once MARKER content_without_metadata with
          | part0 :: part1 :: _ =>
              let potential_content := strip part1 in
              if (100 <? length potential_content)%nat
                 || match search markup_re potential_content with
                    | Some _ => true
                    | None => false
                    end
              then potential_content
              else strip part0
          | _ => content_without_metadata
          end
        else content_without_metadata in
      (Metadata title slug, content)
  | None => (Metadata None None, full_doc_content)
  end.

(** ## Arquivo: <.*?\.md>\s*\n*-{3,}\s*\n*<.*?>(?=\n## Arquivo:|\Z)
    with re.DOTALL. *)
Definition doc_pattern : regex :=
  Seq (Lit ARQUIVO)
  (Seq (Group 1 (Seq (Rep dot_all 0 false) (Lit DOT_MD)))
  (Seq (Rep isspace 0 true)
  (Seq (Rep (one NL) 0 true)
  (Seq (Rep (one HYPHEN) 3 true)
  (Seq (Rep isspace 0 true)
  (Seq (Rep (one NL) 0 true)
  (Seq (Group 2 (Rep dot_all 0 false))
       (Ahead (Alt (Lit NEXT_ARQUIVO) EndZ))))))))).

(** [^a-z0-9]+ *)
Definition is_slug_alnum (c : char) : bool :=
  ((97 <=? c) && (c <=? 122) || (48 <=? c) && (c <=? 57))%N.

Definition slug_junk_re : regex :=
  Rep (fun c => negb (is_slug_alnum c)) 1 true.

Definition is_hyphen (c : char) : bool := eqb_char c HYPHEN.

Definition remove_md (s : str) : str := replace DOT_MD [] s.

(** A document record as written to the intermediate JSON file. *)
Record raw_doc : Type := RawDoc {
  title : str;
  slug : str;
  content : str;
  filepath : str
}.

Section WithUnicode.
(** The Unicode lower-casing table used by [str.lower]. *)
Variable tbl : str -> char -> str -> str.

(** re.sub of [^a-z0-9]+ by a hyphen in src.lower(), then strip of
    hyphens. *)
Definition slugify (src : str) : str :=
  strip_by is_hyphen (sub slug_junk_re [HYPHEN] (lower tbl src)).

(** [x] when it is a non-empty text, the fallback [d] when it is
    [None] or empty: the test [if not x]. *)
Definition or_fallback (x : option str) (d : str) : str :=
  match x with
  | Some t => if truthy t then t else d
  | None => d
  end.

(** What one iteration of the loop over the matches does: [None] when
    the document is skipped. *)
Definition process_match (m : mstate) : option raw_doc :=
  let file_path_relative := strip (group 1 m) in
  let raw_doc_content := strip (group 2 m) in
  if negb (truthy raw_doc_content) then None
  else
    let '(metadata, cleaned_content) :=
      extract_metadata_and_clean_content raw_doc_content in
    let doc_title :=
      or_fallback (md_title metadata)
        (strip (replace [95%N] SPACE
                  (replace [HYPHEN] SPACE
                     (remove_md (basename file_path_relative))))) in
    let doc_slug :=
      or_fallback (md_slug metadata)
        (let temp_slug_source :=
           if truthy doc_title then doc_title
           else remove_md (basename file_path_relative) in
         slugify temp_slug_source) in
    if negb (truthy cleaned_content) then None
    else Some (RawDoc doc_title doc_slug cleaned_content
                      file_path_relative).

Fixpoint collect (ms : list mstate) : list raw_doc :=
  match ms with
  | [] => []
  | m :: ms' =>
      match process_match m with
      | Some d => d :: collect ms'
      | None => collect ms'
      end
  end.

(** The list [extracted_docs] built from the text of the file. *)
Definition extracted_docs (full_content : str) : list raw_doc :=
  collect (finditer doc_pattern full_content).

(** The function on the text of an existing input file: [Some docs] is
    the list handed to [json.dump], [None] the early [return False]
    when nothing was extracted. *)
Definition extract_data_from_markdown (full_content : str)
  : option (list raw_doc) :=
  match extracted_docs full_content with
  | [] => None
  | docs => Some docs
  end.
End WithUnicode.

End Extract.

(** ** Python values shared by the two other programs *)

Module Py.
Import PyStr.

(** The class of an exception, as far as the except clauses of the
    programs and the web framework tell classes apart: [ValueError] stands
    for that class and its subclasses, [HTTPException] for werkzeug's class
    with its status code (400 for the BadRequest of an unparseable body),
    [OtherError] for every other class (OverflowError for one). *)
Inductive exn_class : Type :=
| TypeError
| AttributeError
| ValueError
| HTTPException (status : nat)
| OtherError.

(** An exception: its class and the text of [str(e)]. *)
Record exn : Type := Exn { exn_kind : exn_class; exn_msg : str }.

(** [isinstance(e, ValueError)], the test of [except ValueError]. *)
Definition is_value_error (e : exn) : bool :=
  match exn_kind e with
  | ValueError => true
  | _ => false
  end.

(** A JSON value as [json.loads] returns it; an object is the resulting
    [dict], one entry per key.  A number is an [int], or a [float] when its
    literal has a fraction or an exponent; a float is kept as its
    literal. *)
#[local] Unset Elimination Schemes.
Inductive json : Type :=
| JNull
| JBool (b : bool)
| JNum (z : Z)
| JFloat (literal : str)
| JStr (s : str)
| JArr (l : list json)
| JObj (l : list (str * json)).
#[local] Set Elimination Schemes.

(** [type(v).__name__] *)
Definition type_name (v : json) : str :=
  Eval vm_compute in
  match v with
  | JNull => lit "NoneType"
  | JBool _ => lit "bool"
  | JNum _ => lit "int"
  | JFloat _ => lit "float"
  | JStr _ => lit "str"
  | JArr _ => lit "list"
  | JObj _ => lit "dict"
  end.

Definition NO_ATTRIBUTE : str :=
  Eval vm_compute in lit "' object has no attribute '".

(** The AttributeError of [v.attr] for a value of a type that has no such
    attribute: its text names the type and the attribute. *)
Definition no_attribute (v : json) (attr : str) : exn :=
  Exn AttributeError
      ([SQUOTE] ++ type_name v ++ NO_ATTRIBUTE ++ attr ++ [SQUOTE]).

Fixpoint dict_get (k : str) (l : list (str * json)) : option json :=
  match l with
  | [] => None
  | (k', v) :: l' => if eqb_str k k' then Some v else dict_get k l'
  end.

(** [list.sort(key=..., reverse=...)]: a stable sort that compares keys
    with [<] only.  With [reverse=True] the list is reversed, sorted and
    reversed again, so that elements with equal keys keep their order.

    The result of a stable sort is fixed by the keys when [<] is a strict
    weak order on them, and it is computed here by insertion.  When [<] is
    not such an order (a nan among floating-point keys compares false with
    every key), CPython's merge sort still returns a permutation of the
    list, but not necessarily this one: statements about the order of a
    sorted list carry the strict weak order as a hypothesis. *)
Section Sort.
Context {A K : Type} (key : A -> K) (lt : K -> K -> bool).

Fixpoint insert_sorted (x : A) (l : list A) : list A :=
  match l with
  | [] => [x]
  | y :: l' =>
      if lt (key y) (key x) then y :: insert_sorted x l' else x :: l
  end.

Fixpoint sort_asc (l : list A) : list A :=
  match l with
  | [] => []
  | x :: l' => insert_sorted x (sort_asc l')
  end.

Definition list_sort (reverse : bool) (l : list A) : list A :=
  if reverse then rev (sort_asc (rev l)) else sort_asc l.

(** Vocabulary: [a] may stand before [b] in ascending, respectively
    descending, order of keys; the key of [a] ties with [s] when neither is
    below the other. *)
Definition asc (a b : A) : Prop := lt (key b) (key a) = false.
Definition desc (a b : A) : Prop := lt (key a) (key b) = false.
Definition ties (s : K) (a : A) : bool :=
  negb (lt s (key a)) && negb (lt (key a) s).
End Sort.

(** The slice [l[:k]] for a Python integer [k]. *)
Definition slice_to {A} (k : Z) (l : list A) : list A :=
  if (0 <=? k)%Z then firstn (Z.to_nat k) l
  else firstn (length l - Z.to_nat (- k)) l.

(** A persisted document record: the four fields of the extraction plus
    the embedding, a list of numbers or null. *)
Record doc (num : Type) : Type := Doc {
  title : str;
  slug : str;
  content : str;
  filepath : str;
  embedding : option (list num)
}.

End Py.

(** ** generate-embedings.py

    Console output ([print]) is left out; the calls to the embedding
    service and the pauses are recorded. *)

Module Embed.
Import PyStr Re Py.

Definition LBRACKET : str := Eval vm_compute in lit "[".
Definition RBRACKET_LPAREN : str := Eval vm_compute in lit "](".
Definition RPAREN : str := Eval vm_compute in lit ")".
Definition STARS : str := Eval vm_compute in lit "**".
Definition UNDERSCORES : str := Eval vm_compute in lit "__".
Definition STAR : str := Eval vm_compute in lit "*".
Definition UNDERSCORE : str := Eval vm_compute in lit "_".
Definition BULLETS : str := Eval vm_compute in lit "-+*".
Definition GT : str := Eval vm_compute in lit ">".
Definition PIPE : str := Eval vm_compute in lit "|".

(** The pattern of the first substitution, under re.MULTILINE, is an
    alternation of ten items, tried in this order:
    \[.*?\]\(.*?\)  \*\*  __  \*  _  #+  `+  ^\s*[-+*]\s*  ^>\s*
    \|.*?-+\s*\| *)
Definition markdown_re : regex :=
  Alt (Seq (Lit LBRACKET) (Seq (Rep dot 0 false) (Seq (Lit RBRACKET_LPAREN)
         (Seq (Rep dot 0 false) (Lit RPAREN)))))
 (Alt (Lit STARS)
 (Alt (Lit UNDERSCORES)
 (Alt (Lit STAR)
 (Alt (Lit UNDERSCORE)
 (Alt (Rep (one 35%N) 1 true)
 (Alt (Rep (one 96%N) 1 true)
 (Alt (Seq Bol (Seq (Rep isspace 0 true)
         (Seq (Set_ (one_of BULLETS)) (Rep isspace 0 true))))
 (Alt (Seq Bol (Seq (Lit GT) (Rep isspace 0 true)))
      (Seq (Lit PIPE) (Seq (Rep dot 0 false)
         (Seq (Rep (one HYPHEN) 1 true)
         (Seq (Rep isspace 0 true) (Lit PIPE))))))))))))).

(** \s+ and \n+ *)
Definition spaces_re : regex := Rep isspace 1 true.
Definition newlines_re : regex := Rep (one NL) 1 true.

Definition SPACE : str := Eval vm_compute in lit " ".

Definition clean_text_for_embedding (text : str) : str :=
  let text := sub markdown_re [] text in
  let text := strip (sub spaces_re SPACE text) in
  let text := strip (sub newlines_re SPACE text) in
  text.

(** What the program does to the outside world, in order. *)
Inductive event : Type :=
| Called (text : str)        (* genai.embed_content *)
| Slept (seconds : nat).     (* time.sleep *)

Definition world := list event.

Definition is_call (e : event) : bool :=
  match e with Called _ => true | Slept _ => false end.

Definition calls (w : world) : nat := length (filter is_call w).

(** Computations that act on the world. *)
Definition M (A : Type) : Type := world -> A * world.

Definition ret {A} (a : A) : M A := fun w => (a, w).

Definition bind {A B} (m : M A) (f : A -> M B) : M B :=
  fun w => let (a, w') := m w in f a w'.

Notation "x <- m ;; k" := (bind m (fun x => k))
  (at level 61, m at next level, right associativity).
Notation "m ;;; k" := (bind m (fun _ => k))
  (at level 61, right associativity).

Definition sleep (seconds : nat) : M unit :=
  fun w => (tt, w ++ [Slept seconds]).

Section WithService.
Variable num : Type.

(** The embedding service: the answer to the n-th call of the run, a
    vector or the exception it raised (also when the answer has no
    embedding entry). *)
Variable embed_content : nat -> str -> exn + list num.

Definition call_embed (text : str) : M (exn + list num) :=
  fun w => (embed_content (calls w) text, w ++ [Called text]).

(** The body of [for attempt in range(retries)], followed by the
    [return None] after the loop. *)
Fixpoint retry_loop (retries : nat) (attempts : list nat)
         (text_content : str) : M (option (list num)) :=
  match attempts with
  | [] => ret None
  | attempt :: more =>
      r <- call_embed text_content ;;
      match r with
      | inr v => ret (Some v)
      | inl _ =>
          if attempt <? retries - 1
          then sleep (2 ^ attempt) ;;;
               retry_loop retries more text_content
          else ret None
      end
  end.

Definition generate_embedding_with_retry (text_content : str)
  : M (option (list num)) :=
  let retries := 3 in
  retry_loop retries (seq 0 retries) text_content.

Definition set_embedding (d : Extract.raw_doc) (e : option (list num))
  : doc num :=
  Doc (Extract.title d) (Extract.slug d) (Extract.content d)
      (Extract.filepath d) e.

Definition DOT_SPACE : str := Eval vm_compute in lit ". ".

(** One iteration of the loop over [raw_docs]; [processed_docs] is the
    list being built. *)
Definition loop_body (processed_docs : list (doc num))
           (doc_data : Extract.raw_doc) : M (list (doc num)) :=
  let doc_title := Extract.title doc_data in
  let doc_content := Extract.content doc_data in
  let embedding_text_raw :=
    doc_title ++ DOT_SPACE ++ firstn 1024 doc_content in
  let embedding_text := clean_text_for_embedding embedding_text_raw in
  if negb (truthy (strip embedding_text))
  then ret (processed_docs ++ [set_embedding doc_data None])
  else
    doc_embedding <- generate_embedding_with_retry embedding_text ;;
    match doc_embedding with
    | Some v => ret (processed_docs ++ [set_embedding doc_data (Some v)])
    | None => ret (processed_docs ++ [set_embedding doc_data None])
    end.

Fixpoint docs_loop (processed_docs : list (doc num))
         (raw_docs : list Extract.raw_doc) : M (list (doc num)) :=
  match raw_docs with
  | [] => ret processed_docs
  | doc_data :: more =>
      processed_docs' <- loop_body processed_docs doc_data ;;
      docs_loop processed_docs' more
  end.

(** The function on the decoded content of an existing input file:
    [Some docs] is the list handed to [json.dump], [None] the
    [return False] when the list is empty. *)
Definition generate_embeddings_for_docs
           (raw_docs : list Extract.raw_doc)
  : M (option (list (doc num))) :=
  processed_docs <- docs_loop [] raw_docs ;;
  match processed_docs with
  | [] => ret None
  | _ :: _ => ret (Some processed_docs)
  end.
End WithService.

End Embed.

(** ** app.py *)

Module App.
Import PyStr Py.

Inductive level : Type := INFO | WARNING | ERROR.

(** What a request does to the outside world, in order. *)
Inductive event : Type :=
| Logged (lv : level) (msg : str)
| EmbedCalled (text : str)                        (* genai.embed_content *)
| GenerateCalled (prompt : str) (temperature : Q). (* generate_content *)

(** Computations that may raise and that leave a trace of events. *)
Definition M (A : Type) : Type := list event -> (exn + A) * list event.

Definition ret {A} (a : A) : M A := fun tr => (inr a, tr).

Definition raise {A} (e : exn) : M A := fun tr => (inl e, tr).

Definition bind {A B} (m : M A) (f : A -> M B) : M B :=
  fun tr =>
    match m tr with
    | (inr a, tr') => f a tr'
    | (inl e, tr') => (inl e, tr')
    end.

(** try: m / except Exception as e: h e *)
Definition try_except {A} (m : M A) (h : exn -> M A) : M A :=
  fun tr =>
    match m tr with
    | (inr a, tr') => (inr a, tr')
    | (inl e, tr') => h e tr'
    end.

Notation "x <- m ;; k" := (bind m (fun x => k))
  (at level 61, m at next level, right associativity).
Notation "m ;;; k" := (bind m (fun _ => k))
  (at level 61, right associativity).

Definition log (lv : level) (msg : str) : M unit :=
  fun tr => (inr tt, tr ++ [Logged lv msg]).

Definition lift {A} (r : exn + A) : M A :=
  match r with inl e => raise e | inr a => ret a end.

(** ** The texts of the source *)

Definition INDENT : str := Eval vm_compute in lit "        ".
Definition NA : str := Eval vm_compute in lit "N/A".
Definition QUERY_KEY : str := Eval vm_compute in lit "query".
Definition ERROR_KEY : str := Eval vm_compute in lit "error".
Definition RESPONSE_TEXT_KEY : str := Eval vm_compute in lit "response_text".
Definition RELEVANT_DOCS_INFO_KEY : str :=
  Eval vm_compute in lit "relevant_docs_info".
Definition TITLE_KEY : str := Eval vm_compute in lit "title".
Definition SLUG_KEY : str := Eval vm_compute in lit "slug".
Definition RELEVANCE_KEY : str := Eval vm_compute in lit "relevance".
Definition UNSIZED : str := Eval vm_compute in lit "len() of unsized object".
Definition GET : str := Eval vm_compute in lit "get".
Definition STRIP : str := Eval vm_compute in lit "strip".

Definition NOT_LOADED : str :=
  Eval vm_compute in lit "A documentação não foi carregada. Por favor, verifique a inicialização da aplicação.".

(** The f-strings of the source, cut at their placeholders. *)
Definition NOT_FOUND : str :=
  Eval vm_compute in lit "Não foi possível encontrar informações claras na documentação sobre '".
Definition NOT_FOUND_TOPICS : str :=
  Eval vm_compute in
  lit "'. " ++ [NL; NL]
    ++ lit "**Possíveis tópicos para cobrir esta lacuna:**" ++ [NL].
Definition NOT_FOUND_FAILED : str :=
  Eval vm_compute in lit "'. Erro ao gerar sugestões.".
Definition PARTIAL : str :=
  Eval vm_compute in lit "A documentação existente já aborda o tópico '".
Definition PARTIAL_IMPROVE : str :=
  Eval vm_compute in
  lit "' em parte. Para uma cobertura mais abrangente, considere as seguintes melhorias:" ++ [NL; NL].
Definition PARTIAL_FAILED : str :=
  Eval vm_compute in lit "' em parte. Erro ao analisar melhorias.".

Definition CTX_TITLE : str := Eval vm_compute in lit "Título: ".
Definition CTX_SLUG : str := Eval vm_compute in NL :: lit "Slug: ".
Definition CTX_PATH : str :=
  Eval vm_compute in NL :: lit "Caminho do Arquivo: ".
Definition CTX_CONTENT : str := Eval vm_compute in NL :: lit "Conteúdo: ".

Definition LOG_EMBED_1 : str :=
  Eval vm_compute in lit "Erro ao gerar embedding para o texto (primeiros 50 caracteres: '".
Definition LOG_EMBED_2 : str := Eval vm_compute in lit "'): ".
Definition LOG_SIM_1 : str :=
  Eval vm_compute in lit "Erro ao calcular similaridade para documento '".
Definition LOG_SIM_2 : str := Eval vm_compute in lit "': ".
Definition LOG_SIM_3 : str :=
  Eval vm_compute in lit ". Verifique as dimensões dos embeddings.".
Definition LOG_SKIP_1 : str := Eval vm_compute in lit "Documento '".
Definition LOG_SKIP_2 : str :=
  Eval vm_compute in lit "' com embedding inválido ou incompatível. Pulando.".
Definition LOG_SUGGEST_1 : str :=
  Eval vm_compute in lit "Gerando sugestões de cobertura para: '".
Definition LOG_SUGGEST_2 : str :=
  Eval vm_compute in lit "' (nenhum doc relevante)".
Definition LOG_SUGGEST_FAILED : str :=
  Eval vm_compute in lit "Erro ao gerar sugestões de cobertura: ".
Definition LOG_REFINE_1 : str :=
  Eval vm_compute in lit "Gerando análise de cobertura com contexto para: '".
Definition LOG_REFINE_2 : str := Eval vm_compute in lit "'".
Definition LOG_REFINE_FAILED : str :=
  Eval vm_compute in lit "Erro ao gerar análise de cobertura com contexto: ".
Definition LOG_REQUEST_1 : str :=
  Eval vm_compute in lit "Recebida solicitação de análise de cobertura para: '".
Definition LOG_REQUEST_2 : str := Eval vm_compute in lit "...'".
Definition LOG_ROUTE : str :=
  Eval vm_compute in lit "Erro na rota /analyze_coverage: ".

Definition MSG_NO_QUERY : str :=
  Eval vm_compute in lit "Nenhuma informação/tópico fornecido para análise de cobertura.".
Definition MSG_NO_EMBEDDING : str :=
  Eval vm_compute in lit "Não foi possível gerar o embedding para a consulta.".
Definition MSG_INTERNAL : str :=
  Eval vm_compute in lit "Erro interno ao analisar cobertura: ".

Definition SUGGEST_1 : str :=
  Eval vm_compute in lit "A documentação atual não contém informações diretas sobre o tópico: ".
Definition SUGGEST_2 : str :=
  Eval vm_compute in lit "Com base no seu conhecimento geral sobre documentação de produtos de segurança da informação,".
Definition SUGGEST_3 : str :=
  Eval vm_compute in lit "por favor, sugira **5 possíveis tópicos de documentos ou seções que poderiam ser criadas** para cobrir este assunto.".
Definition SUGGEST_4 : str :=
  Eval vm_compute in lit "Formate as sugestões como uma lista numerada simples.".
Definition SUGGEST_5 : str :=
  Eval vm_compute in lit "**Sugestões:**".
Definition REFINE_1 : str :=
  Eval vm_compute in lit "A pergunta/tópico para análise de cobertura é: ".
Definition REFINE_2 : str :=
  Eval vm_compute in lit "Com base no contexto fornecido da documentação existente abaixo, e no seu conhecimento geral sobre documentação de produtos de segurança da informação,".
Definition REFINE_3 : str :=
  Eval vm_compute in lit "identifique **3 a 5 pontos de melhoria ou expansão** na documentação atual relacionados a este tópico.".
Definition REFINE_4 : str :=
  Eval vm_compute in lit "Formate cada sugestão como um item de lista numerada. Para cada sugestão, inclua um **título sugerido** e um **conteúdo sugerido** em sub-itens com asterisco. Se houver manuais ou documentos mencionados, sugira adicionar links diretos.".
Definition REFINE_5 : str :=
  Eval vm_compute in lit "**Contexto de Documentação Relevante (conteúdo completo dos documentos com título, slug e caminho do arquivo):**".
Definition REFINE_6 : str :=
  Eval vm_compute in lit "**Sugestões de Melhoria de Cobertura para '".
Definition REFINE_7 : str :=
  Eval vm_compute in lit "':**".

Definition prompt_for_suggestions (query : str) : str :=
  [NL] ++ INDENT ++ SUGGEST_1 ++ [DQUOTE] ++ query ++ [DQUOTE; 46%N; NL]
    ++ INDENT ++ SUGGEST_2 ++ [NL]
    ++ INDENT ++ SUGGEST_3 ++ [NL]
    ++ INDENT ++ SUGGEST_4 ++ [NL; NL]
    ++ INDENT ++ SUGGEST_5 ++ [NL]
    ++ INDENT.

Definition prompt_for_refinement (query context_str : str) : str :=
  [NL] ++ INDENT ++ REFINE_1 ++ [DQUOTE] ++ query ++ [DQUOTE; 46%N; NL]
    ++ INDENT ++ REFINE_2 ++ [NL]
    ++ INDENT ++ REFINE_3 ++ [NL]
    ++ INDENT ++ REFINE_4 ++ [NL; NL]
    ++ INDENT ++ REFINE_5 ++ [NL]
    ++ INDENT ++ context_str ++ [NL; NL]
    ++ INDENT ++ REFINE_6 ++ query ++ REFINE_7 ++ [NL]
    ++ INDENT.

(** ** Data *)

Record doc_info : Type := DocInfo {
  info_title : str;
  info_slug : str;
  info_relevance : str
}.

(** The dictionary returned by the analyzer. *)
Record coverage_result : Type := CoverageResult {
  response_text : str;
  relevant_docs_info : list doc_info
}.

Definition json_of_info (i : doc_info) : json :=
  JObj [(TITLE_KEY, JStr (info_title i)); (SLUG_KEY, JStr (info_slug i));
        (RELEVANCE_KEY, JStr (info_relevance i))].

Definition json_of_result (r : coverage_result) : json :=
  JObj [(RESPONSE_TEXT_KEY, JStr (response_text r));
        (RELEVANT_DOCS_INFO_KEY,
         JArr (map json_of_info (relevant_docs_info r)))].

(** A view function's return value: the JSON body and the status. *)
Record response : Type := Response { body : json; status : nat }.

Definition query_embedding_text (e : exn) (text : str) : str :=
  LOG_EMBED_1 ++ firstn 50 text ++ LOG_EMBED_2 ++ exn_msg e.

Section WithServices.
(** Numbers of an embedding and similarity scores are floating-point
    values; only the operations the program applies to them appear. *)
Variables num score : Type.

(** [1 - cosine(u, v)] from scipy: a score, or the exception it
    raised. *)
Variable cosine_similarity : list num -> list num -> exn + score.

(** [a < b] on scores, as the sort compares keys. *)
Variable lt : score -> score -> bool.

(** The format [(sim * 100):.2f] followed by a percent sign. *)
Variable percent : score -> str.

(** The two external services: an answer or the exception raised. *)
Variable embed_content : str -> exn + list num.
Variable generate_content : str -> Q -> exn + str.

Definition call_embed_content (text : str) : M (exn + list num) :=
  fun tr => (inr (embed_content text), tr ++ [EmbedCalled text]).

Definition call_generate_content (prompt : str) (temperature : Q)
  : M (exn + str) :=
  fun tr => (inr (generate_content prompt temperature),
             tr ++ [GenerateCalled prompt temperature]).

Definition generate_embedding (text : str) : M (option (list num)) :=
  r <- call_embed_content text ;;
  match r with
  | inr v => ret (Some v)
  | inl e => log ERROR (query_embedding_text e text) ;;; ret None
  end.

(** [np.array(x)] for the value of the embedding key: a one-dimensional
    array for a list, a zero-dimensional object array for [None]. *)
Inductive ndarray : Type :=
| Unsized
| Vector (v : list num).

Definition np_array (x : option (list num)) : ndarray :=
  match x with
  | None => Unsized
  | Some v => Vector v
  end.

(** [len(a)] *)
Definition np_len (a : ndarray) : exn + nat :=
  match a with
  | Unsized => inl (Exn TypeError UNSIZED)
  | Vector v => inr (length v)
  end.

Definition np_items (a : ndarray) : list num :=
  match a with
  | Unsized => []
  | Vector v => v
  end.

Definition ranked : Type := score * doc num.

(** One iteration of the loop over the corpus.  The test
    [doc_embedding is not None] is true of every array.  The except clause
    around the cosine catches a ValueError only: any other exception leaves
    the loop. *)
Definition scan_body (query_embedding : list num)
           (similarities : list ranked) (doc_info : doc num)
  : M (list ranked) :=
  let doc_embedding := np_array (embedding doc_info) in
  n <- lift (np_len doc_embedding) ;;
  if (0 <? n) && (length query_embedding =? n)
  then
    match cosine_similarity query_embedding (np_items doc_embedding) with
    | inr similarity => ret (similarities ++ [(similarity, doc_info)])
    | inl e =>
        if is_value_error e
        then
          log WARNING (LOG_SIM_1 ++ title doc_info ++ LOG_SIM_2 ++ exn_msg e
                         ++ LOG_SIM_3) ;;;
          ret similarities
        else raise e
    end
  else
    log WARNING (LOG_SKIP_1 ++ title doc_info ++ LOG_SKIP_2) ;;;
    ret similarities.

Fixpoint scan (query_embedding : list num) (similarities : list ranked)
         (docs : list (doc num)) : M (list ranked) :=
  match docs with
  | [] => ret similarities
  | doc_info :: more =>
      similarities' <- scan_body query_embedding similarities doc_info ;;
      scan query_embedding similarities' more
  end.

Definition DEFAULT_TOP_K : Z := 5.

(** [top_k] is [None] when the caller leaves the argument out. *)
Definition get_relevant_documents (PROCESSED_DOCS : list (doc num))
           (query_embedding : list num) (top_k : option Z)
  : M (list ranked) :=
  let top_k := match top_k with Some k => k | None => DEFAULT_TOP_K end in
  similarities <- scan query_embedding [] PROCESSED_DOCS ;;
  let similarities := list_sort fst lt true similarities in
  ret (slice_to top_k similarities).

Definition context_entry (d : doc num) : str :=
  CTX_TITLE ++ title d ++ CTX_SLUG ++ slug d ++ CTX_PATH ++ filepath d
    ++ CTX_CONTENT ++ content d ++ [NL; NL].

(** The loop of the match mode: the context text and the list of
    document descriptions, both grown at each step. *)
Fixpoint build_context (context_str : str) (infos : list doc_info)
         (matches : list ranked) : str * list doc_info :=
  match matches with
  | [] => (context_str, infos)
  | (sim, d) :: more =>
      let similarity_percent := percent sim in
      build_context (context_str ++ context_entry d)
        (infos ++ [DocInfo (title d) (slug d) similarity_percent])
        more
  end.

Definition analyze_coverage_with_context (PROCESSED_DOCS : list (doc num))
           (query : str) (relevant_docs_with_similarity : list ranked)
  : M coverage_result :=
  match PROCESSED_DOCS with
  | [] => ret (CoverageResult NOT_LOADED [])
  | _ :: _ =>
      match relevant_docs_with_similarity with
      | [] =>
          log INFO (LOG_SUGGEST_1 ++ query ++ LOG_SUGGEST_2) ;;;
          r <- call_generate_content (prompt_for_suggestions query)
                 (7 # 10) ;;
          match r with
          | inr text =>
              ret (CoverageResult
                     (NOT_FOUND ++ query ++ NOT_FOUND_TOPICS ++ text) [])
          | inl e =>
              log ERROR (LOG_SUGGEST_FAILED ++ exn_msg e) ;;;
              ret (CoverageResult
                     (NOT_FOUND ++ query ++ NOT_FOUND_FAILED) [])
          end
      | _ :: _ =>
          let '(context_str, relevant_docs_info) :=
            build_context [] [] relevant_docs_with_similarity in
          log INFO (LOG_REFINE_1 ++ query ++ LOG_REFINE_2) ;;;
          r <- call_generate_content
                 (prompt_for_refinement query context_str) (4 # 10) ;;
          match r with
          | inr text =>
              ret (CoverageResult
                     (PARTIAL ++ query ++ PARTIAL_IMPROVE ++ text)
                     relevant_docs_info)
          | inl e =>
              log ERROR (LOG_REFINE_FAILED ++ exn_msg e) ;;;
              ret (CoverageResult
                     (PARTIAL ++ query ++ PARTIAL_FAILED) [])
          end
      end
  end.

(** [data.get("query", "").strip()] on the value that
    [request.get_json()] returned. *)
Definition query_of (data : json) : exn + str :=
  match data with
  | JObj d =>
      match dict_get QUERY_KEY d with
      | None => inr (strip [])
      | Some (JStr s) => inr (strip s)
      | Some v => inl (no_attribute v STRIP)
      end
  | _ => inl (no_attribute data GET)
  end.

(** The body of a request, and what [request.get_json()] makes of it: the
    decoded value, or, for a body that is not JSON, werkzeug's BadRequest,
    an [HTTPException] with status 400 (its text is left open). *)
Inductive request_body : Type :=
| Json (data : json)
| NotJson (description : str).

Definition get_json (b : request_body) : exn + json :=
  match b with
  | Json data => inr data
  | NotJson description => inl (Exn (HTTPException 400) description)
  end.

(** The view function.  [request_json] is what [request.get_json()]
    does for the request: it returns the decoded body or raises. *)
Definition handle_analyze_coverage (PROCESSED_DOCS : list (doc num))
           (request_json : exn + json) : M response :=
  data <- lift request_json ;;
  query <- lift (query_of data) ;;
  if negb (truthy query)
  then ret (Response (JObj [(ERROR_KEY, JStr MSG_NO_QUERY)]) 400)
  else
    log INFO (LOG_REQUEST_1 ++ firstn 70 query ++ LOG_REQUEST_2) ;;;
    try_except
      (query_embedding <- generate_embedding query ;;
       match query_embedding with
       | None =>
           ret (Response (JObj [(ERROR_KEY, JStr MSG_NO_EMBEDDING)]) 500)
       | Some query_embedding =>
           relevant_docs_with_similarity <-
             get_relevant_documents PROCESSED_DOCS query_embedding
               (Some 5%Z) ;;
           coverage_result <-
             analyze_coverage_with_context PROCESSED_DOCS query
               relevant_docs_with_similarity ;;
           ret (Response (json_of_result coverage_result) 200)
       end)
      (fun e =>
         log ERROR (LOG_ROUTE ++ exn_msg e) ;;;
         ret (Response
                (JObj [(ERROR_KEY, JStr (MSG_INTERNAL ++ exn_msg e));
                       (RESPONSE_TEXT_KEY, JStr []);
                       (RELEVANT_DOCS_INFO_KEY, JArr [])])
                500)).

(** What the client receives from the route /analyze_coverage: the
    response that the view function returned or, when an exception left the
    view function, the error response that Flask makes of it, with the
    status of an [HTTPException] and status 500 for any other exception.
    Log records written by Flask itself are not part of the trace. *)
Inductive reply : Type :=
| Returned (r : response)
| ErrorResponse (status : nat).


Definition error_response (e : exn) : reply :=
  match exn_kind e with
  | HTTPException st => ErrorResponse st
  | _ => ErrorResponse 500
  end.

Definition analyze_coverage_route (PROCESSED_DOCS : list (doc num))
           (request_json : exn + json)
  : list event -> reply * list event :=
  fun tr =>
    match handle_analyze_coverage PROCESSED_DOCS request_json tr with
    | (inr r, tr') => (Returned r, tr')
    | (inl e, tr') => (error_response e, tr')
    end.
End WithServices.

End App.

(** ** Vocabulary for statements about app.py *)

Module AppSpec.
Import PyStr Py App.

(** The two failure notes of the analyzer, by mode. *)
Definition degraded_text {num score} (query : str)
           (matches : list (ranked num score)) : str :=
  match matches with
  | [] => NOT_FOUND ++ query ++ NOT_FOUND_FAILED
  | _ :: _ => PARTIAL ++ query ++ PARTIAL_FAILED
  end.

(** What the two answers of each mode have in common after the query. *)
Definition NOT_FOUND_CLOSE : str := Eval vm_compute in lit "'. ".
Definition PARTIAL_CLOSE : str := Eval vm_compute in lit "' em parte. ".

Definition request_logged (query : str) : event :=
  Logged INFO (LOG_REQUEST_1 ++ firstn 70 query ++ LOG_REQUEST_2).

Definition mode_logged {num score} (query : str)
           (matches : list (ranked num score)) : event :=
  match matches with
  | [] => Logged INFO (LOG_SUGGEST_1 ++ query ++ LOG_SUGGEST_2)
  | _ :: _ => Logged INFO (LOG_REFINE_1 ++ query ++ LOG_REFINE_2)
  end.

Definition failure_logged {num score} (e : exn)
           (matches : list (ranked num score)) : event :=
  match matches with
  | [] => Logged ERROR (LOG_SUGGEST_FAILED ++ exn_msg e)
  | _ :: _ => Logged ERROR (LOG_REFINE_FAILED ++ exn_msg e)
  end.

Definition temperature_of {num score} (matches : list (ranked num score))
  : Q :=
  match matches with
  | [] => 7 # 10
  | _ :: _ => 4 # 10
  end.

(** The prompt each mode sends to the model. *)
Definition prompt_of {num score} (percent : score -> str) (query : str)
           (matches : list (ranked num score)) : str :=
  match matches with
  | [] => prompt_for_suggestions query
  | _ :: _ =>
      prompt_for_refinement query (fst (build_context percent [] [] matches))
  end.

(** A response that looks successful while carrying no document
    description: status 200, a response text, an empty list. *)
Definition degraded_success (r : response) : Prop :=
  status r = 200
  /\ exists text, body r = json_of_result (CoverageResult text []).


(** An embedding that passes the test of the search for a query. *)
Definition usable {num} (query_embedding : list num) (d : doc num) : bool :=
  match embedding d with
  | Some v => (0 <? length v) && (length query_embedding =? length v)
  | None => false
  end.

Section Candidates.
Variables num score : Type.
Variable cosine_similarity : list num -> list num -> exn + score.

(** The exception with which a record stops the scan, if it does: the
    TypeError of [len] when its embedding is null; when its embedding
    passes the test, what the cosine computation raises, unless that is a
    ValueError. *)
Definition stop_exn (q : list num) (d : doc num) : option exn :=
  match embedding d with
  | Some v =>
      if usable q d
      then match cosine_similarity q v with
           | inr _ => None
           | inl e => if is_value_error e then None else Some e
           end
      else None
  | None => Some (Exn TypeError UNSIZED)
  end.

(** On this corpus and query the cosine computation raises nothing but
    ValueError. *)
Definition only_value_errors (q : list num) (docs : list (doc num)) : Prop :=
  forall d v e,
    In d docs -> embedding d = Some v -> cosine_similarity q v = inl e ->
    exn_kind e = ValueError.

(** What the scan makes of one record that does not stop it: a ranked
    match, or a warning. *)
Definition candidate (q : list num) (d : doc num)
  : list (ranked num score) :=
  match embedding d with
  | Some v =>
      if usable q d
      then match cosine_similarity q v with
           | inr s => [(s, d)]
           | inl _ => []
           end
      else []
  | None => []
  end.

Definition warning (q : list num) (d : doc num) : list event :=
  match embedding d with
  | Some v =>
      if usable q d
      then match cosine_similarity q v with
           | inr _ => []
           | inl e =>
               if is_value_error e
               then [Logged WARNING
                       (LOG_SIM_1 ++ title d ++ LOG_SIM_2 ++ exn_msg e
                          ++ LOG_SIM_3)]
               else []
           end
      else [Logged WARNING (LOG_SKIP_1 ++ title d ++ LOG_SKIP_2)]
  | None => []
  end.

(** The candidate set, in corpus order, and the warnings of a scan. *)
Definition candidates (q : list num) (docs : list (doc num))
  : list (ranked num score) :=
  flat_map (candidate q) docs.

Definition warnings (q : list num) (docs : list (doc num)) : list event :=
  flat_map (warning q) docs.
End Candidates.

(** The value of [top_k] in force. *)
Definition effective_k (top_k : option Z) : Z :=
  match top_k with
  | Some k => k
  | None => DEFAULT_TOP_K
  end.

End AppSpec.

(** ** Vocabulary for statements about extract_data_from_markdown.py *)

Module ExtractSpec.
Import PyStr Re Extract.

(** A character that the slug pattern replaces. *)
Definition is_junk (c : char) : bool := negb (is_slug_alnum c).

(** Replacing every run of non-alphanumeric characters with one hyphen,
    written directly; [in_run] tells that the previous character was part
    of a run. *)
Fixpoint squeeze (in_run : bool) (s : str) : str :=
  match s with
  | [] => []
  | c :: s' =>
      if is_junk c
      then if in_run then squeeze true s' else HYPHEN :: squeeze true s'
      else c :: squeeze false s'
  end.

(** The slug as the specification words it: lower-case, replace the runs,
    trim the hyphens. *)
Definition slug_by_words (tbl : str -> char -> str -> str) (s : str) : str :=
  strip_by is_hyphen (squeeze false (lower tbl s)).

(** The characters of a slug, and a text in which no two replaced
    characters are adjacent ([after_junk]: nor is the first one). *)
Definition slug_char (c : char) : bool := is_slug_alnum c || is_hyphen c.

Fixpoint tidy (after_junk : bool) (s : str) : bool :=
  match s with
  | [] => true
  | c :: s' =>
      if is_junk c then negb after_junk && tidy true s' else tidy false s'
  end.

(** A text that does not begin with a character of the set [p]. *)
Definition starts_clean (p : char -> bool) (s : str) : Prop :=
  match s with
  | c :: _ => p c = false
  | [] => True
  end.

(** A line that begins with one of the four structural characters. *)
Definition starts_with_markup (line : str) : bool :=
  match line with
  | c :: _ => is_markup c
  | [] => false
  end.

Definition has_markup_line (s : str) : bool :=
  existsb starts_with_markup (lines s).

(** The text that remains after the removal of the metadata block; the
    text itself when it has no such block. *)
Definition without_metadata (full_doc_content : str) : str :=
  match search metadata_block_re full_doc_content with
  | Some (_, m) => strip (replace_first (group 1 m) [] full_doc_content)
  | None => full_doc_content
  end.

Definition has_metadata (full_doc_content : str) : bool :=
  match search metadata_block_re full_doc_content with
  | Some _ => true
  | None => false
  end.

(** The content that the function returns. *)
Definition cleaned (full_doc_content : str) : str :=
  snd (extract_metadata_and_clean_content full_doc_content).

(** The heuristic of the annotation marker as the claim words it, on the
    text [tail] that follows the marker. *)
Definition keeps_tail (tail : str) : bool :=
  (100 <? length tail) || has_markup_line tail.

End ExtractSpec.

(** ** Vocabulary for statements about generate-embedings.py *)

Module EmbedSpec.
Import PyStr Py Embed.

(** The text sent to the embedding service for a record. *)
Definition embedding_text (d : Extract.raw_doc) : str :=
  clean_text_for_embedding
    (Extract.title d ++ DOT_SPACE ++ firstn 1024 (Extract.content d)).

(** A processed record without its embedding. *)
Definition forget {num} (d : doc num) : Extract.raw_doc :=
  Extract.RawDoc (title d) (slug d) (content d) (filepath d).

(** The n-th call of the run fails on this text. *)
Definition fails {num} (embed_content : nat -> str -> exn + list num)
           (n : nat) (text : str) : Prop :=
  exists e, embed_content n text = inl e.

(** The events of three failed attempts. *)
Definition three_attempts (text : str) : list event :=
  [Called text; Slept 1; Called text; Slept 2; Called text].

(** The text of a record has something to embed. *)
Definition has_text (d : Extract.raw_doc) : bool :=
  truthy (strip (embedding_text d)).

(** The run of the pipeline as the claims word it.  [processed n raw_docs
    out evs]: from the n-th call of the run on, the records [raw_docs]
    give the records [out], one for one and in order, each with its four
    fields unchanged and an embedding added, and the events [evs]:
    - a record without text to embed is skipped with a null embedding and
      no call;
    - a record whose i-th attempt (i < 3) is the first to succeed gets the
      vector of that attempt, after i + 1 calls with the pauses of 1 and 2
      seconds between them;
    - a record whose three attempts fail gets a null embedding, after the
      three calls and the two pauses;
    and in each case the remaining records are processed next. *)
Inductive processed {num} (embed_content : nat -> str -> exn + list num)
  : nat -> list Extract.raw_doc -> list (doc num) -> list event -> Prop :=
| processed_none n :
    processed embed_content n [] [] []
| processed_skip n d o more out evs :
    has_text d = false ->
    forget o = d -> embedding o = None ->
    processed embed_content n more out evs ->
    processed embed_content n (d :: more) (o :: out) evs
| processed_vector n d o more out evs i v :
    has_text d = true ->
    i < 3 ->
    (forall j, j < i -> fails embed_content (n + j) (embedding_text d)) ->
    embed_content (n + i) (embedding_text d) = inr v ->
    forget o = d -> embedding o = Some v ->
    processed embed_content (n + i + 1) more out evs ->
    processed embed_content n (d :: more) (o :: out)
              (firstn (2 * i + 1) (three_attempts (embedding_text d)) ++ evs)
| processed_null n d o more out evs :
    has_text d = true ->
    (forall j, j < 3 -> fails embed_content (n + j) (embedding_text d)) ->
    forget o = d -> embedding o = None ->
    processed embed_content (n + 3) more out evs ->
    processed embed_content n (d :: more) (o :: out)
              (three_attempts (embedding_text d) ++ evs).

End EmbedSpec.

(** ** Concrete inputs and services used in examples *)

Module Samples.
Import PyStr Py.

(** The consolidated Markdown of the extraction scenario. *)
Definition scenario_markdown : str :=
  lit "## Arquivo: a.md" ++ [NL] ++ lit "---" ++ [NL]
    ++ lit "## Metadata_Start" ++ [NL]
    ++ lit "## title: A" ++ [NL]
    ++ lit "## slug: a" ++ [NL]
    ++ lit "## Metadata_End" ++ [NL]
    ++ lit "Body A".

Definition scenario_record : Extract.raw_doc :=
  Extract.RawDoc (lit "A") (lit "a") (lit "Body A") (lit "a.md").

(** Embeddings and scores over the integers. *)
Definition dot_product (u v : list Z) : exn + Z :=
  inr (fold_left Z.add (map (fun p => fst p * snd p)%Z (combine u v)) 0%Z).

Definition no_percent (_ : Z) : str := [].

Definition failure : exn := Exn OtherError (lit "service unavailable").

Definition embed_ok (_ : str) : exn + list Z := inr [1%Z; 0%Z].
Definition embed_down (_ : str) : exn + list Z := inl failure.
Definition generate_ok (_ : str) (_ : Q) : exn + str := inr (lit "1. x").
Definition generate_down (_ : str) (_ : Q) : exn + str := inl failure.

Definition doc_of (t : str) (e : option (list Z)) : doc Z :=
  Doc t t t t e.

Definition doc_null : doc Z := doc_of (lit "n") None.
Definition doc_a : doc Z := doc_of (lit "a") (Some [1%Z; 0%Z]).
Definition doc_b : doc Z := doc_of (lit "b") (Some [2%Z; 0%Z]).
Definition doc_c : doc Z := doc_of (lit "c") (Some [1%Z; 5%Z]).
Definition doc_short : doc Z := doc_of (lit "s") (Some [1%Z]).

Definition query_x : json := JObj [(App.QUERY_KEY, JStr (lit "x"))].

(** An embedding service for the batch that always fails, and one that
    fails twice and then answers. *)
Definition batch_down (_ : nat) (_ : str) : exn + list Z := inl failure.
Definition batch_third (n : nat) (_ : str) : exn + list Z :=
  if n <? 2 then inl failure else inr [1%Z].

(** Two document bodies that begin, after the metadata if any, with the
    annotation marker followed by a space and a heading. *)
Definition marker_body : str := lit "::: # Title".

Definition metadata_marker_body : str :=
  lit "## Metadata_Start" ++ [NL] ++ lit "## Metadata_End" ++ [NL]
    ++ lit "::: # T".

Definition raw_a : Extract.raw_doc :=
  Extract.RawDoc (lit "A") (lit "a") (lit "Body A") (lit "a.md").
Definition raw_b : Extract.raw_doc :=
  Extract.RawDoc (lit "B") (lit "b") (lit "Body B") (lit "b.md").
(** A record whose title and content together read as one Markdown link,
    so that nothing is left of the text to embed. *)
Definition raw_blank : Extract.raw_doc :=
  Extract.RawDoc (lit "[") (lit "c") (lit "](x)") (lit "c.md").

End Samples.


(** ** Vocabulary for further statements about generate-embedings.py *)

Module EmbedCost.
Import PyStr Py Embed.

(** The seconds a run has spent in [time.sleep]. *)
Fixpoint slept (w : world) : nat :=
  match w with
  | [] => 0
  | Slept n :: w' => n + slept w'
  | Called _ :: w' => slept w'
  end.

(** A record whose embedding, when it has one, is an answer that the
    service gave for the text derived from that record. *)
Definition from_service {num} (embed_content : nat -> str -> exn + list num)
           (d : doc num) : Prop :=
  forall v,
    embedding d = Some v ->
    exists n, embed_content n (EmbedSpec.embedding_text (EmbedSpec.forget d))
              = inr v.

(** Replacing every run of characters of the set [p] by [repl], written
    directly; [in_run] tells that the previous character was in a run. *)
Fixpoint collapse (p : char -> bool) (repl : str) (in_run : bool) (s : str)
  : str :=
  match s with
  | [] => []
  | c :: s' =>
      if p c
      then if in_run then collapse p repl true s'
           else repl ++ collapse p repl true s'
      else c :: collapse p repl false s'
  end.

(** A text whose only white space is the plain space, never twice in a
    row ([after_space]: nor at the start). *)
Fixpoint single_spaced (after_space : bool) (s : str) : bool :=
  match s with
  | [] => true
  | c :: s' =>
      if isspace c
      then (c =? 32)%N && negb after_space && single_spaced true s'
      else single_spaced false s'
  end.

End EmbedCost.

(** ** Vocabulary for texts and matches *)

Module Text.
Import PyStr Re.

(** The text [x] occurs in [s]. *)
Definition occurs (x s : str) : Prop :=
  exists pre post, s = pre ++ x ++ post.

(** No white space at either end. *)
Definition trimmed (s : str) : Prop :=
  ExtractSpec.starts_clean isspace s
  /\ ExtractSpec.starts_clean isspace (rev s).

(** The character before the position reached after reading [run]. *)
Fixpoint prev_after (pv : option char) (run : str) : option char :=
  match run with
  | [] => pv
  | c :: run' => prev_after (Some c) run'
  end.

(** What a pattern means for a pair of states, stated apart from the
    matcher: [reach r st st'] when [r] can take the state [st] to the state
    [st'], reading the text in between and recording its groups. *)
Fixpoint reach (r : regex) (st st' : mstate) : Prop :=
  match r with
  | Lit l =>
      rest st = l ++ rest st' /\ acc st' = rev l ++ acc st
      /\ caps st' = caps st /\ prev st' = prev_after (prev st) l
  | Set_ p =>
      exists c,
        p c = true /\ rest st = c :: rest st' /\ acc st' = c :: acc st
        /\ caps st' = caps st /\ prev st' = Some c
  | Rep p min _ =>
      exists run,
        forallb p run = true /\ min <= length run
        /\ rest st = run ++ rest st' /\ acc st' = rev run ++ acc st
        /\ caps st' = caps st /\ prev st' = prev_after (prev st) run
  | Seq r1 r2 => exists mid, reach r1 st mid /\ reach r2 mid st'
  | Alt r1 r2 => reach r1 st st' \/ reach r2 st st'
  | Group n r =>
      exists inner,
        reach r (MState (prev st) [] (rest st) (caps st)) inner
        /\ st' = MState (prev inner) (acc inner ++ acc st) (rest inner)
                        ((n, rev (acc inner)) :: caps inner)
  | Ahead r => st' = st /\ exists ahead, reach r st ahead
  | Bol => st' = st /\ at_bol (prev st) = true
  | EndZ => st' = st /\ rest st = []
  end.

End Text.

(** ** app.py: loading the corpus *)

Module AppLoad.
Import PyStr Py App.

(** The decimal digits of [str(n)]. *)
Fixpoint digits (u : Decimal.uint) : str :=
  match u with
  | Decimal.Nil => []
  | Decimal.D0 u' => 48%N :: digits u'
  | Decimal.D1 u' => 49%N :: digits u'
  | Decimal.D2 u' => 50%N :: digits u'
  | Decimal.D3 u' => 51%N :: digits u'
  | Decimal.D4 u' => 52%N :: digits u'
  | Decimal.D5 u' => 53%N :: digits u'
  | Decimal.D6 u' => 54%N :: digits u'
  | Decimal.D7 u' => 55%N :: digits u'
  | Decimal.D8 u' => 56%N :: digits u'
  | Decimal.D9 u' => 57%N :: digits u'
  end.

Definition str_of_nat (n : nat) : str := digits (Nat.to_uint n).

Definition LOADED_1 : str := Eval vm_compute in lit "Carregados ".
Definition LOADED_2 : str :=
  Eval vm_compute in lit " documentos indexados da documentação.".
Definition LOG_NOT_FOUND : str :=
  Eval vm_compute in lit "Arquivo 'processed_docs.json' não encontrado. Por favor, execute 'generate_embeddings.py' primeiro.".
Definition LOG_DECODE : str :=
  Eval vm_compute in lit "Erro ao decodificar JSON do arquivo de documentação: ".
Definition LOG_UNEXPECTED : str :=
  Eval vm_compute in lit "Erro inesperado ao carregar documentação: ".

Definition NO_LEN_1 : str := Eval vm_compute in lit "object of type '".
Definition NO_LEN_2 : str := Eval vm_compute in lit "' has no len()".

(** A value that [json.load] returns, as far as the program looks at it:
    a list of records, or another value, given by the name of its type and
    by its length when it has one (an object, a string and a list of other
    things have one; a number, a boolean and null have none). *)
Inductive loaded (num : Type) : Type :=
| Records (docs : list (doc num))
| Other (type_name : str) (size : option nat).

Arguments Other {num} type_name size.

(** [len(x)] *)
Definition len {num} (x : loaded num) : exn + nat :=
  match x with
  | Records docs => inr (length docs)
  | Other _ (Some n) => inr n
  | Other t None => inl (Exn TypeError (NO_LEN_1 ++ t ++ NO_LEN_2))
  end.

(** What opening and decoding [processed_docs.json] does: it raises
    [FileNotFoundError], [json.JSONDecodeError] or another exception, or it
    yields the decoded value. *)
Inductive file_read (num : Type) : Type :=
| FileNotFound
| DecodeError (e : exn)
| ReadError (e : exn)
| Decoded (x : loaded num).

Arguments FileNotFound {num}.
Arguments DecodeError {num} e.
Arguments ReadError {num} e.

(** The function returns its boolean and the value of the global
    [PROCESSED_DOCS] after the call.  The global is assigned as soon as the
    file is decoded; the length is taken afterwards, for the log record,
    and the TypeError of a value without length is caught by the last
    except clause. *)
Definition load_documentation {num} (file : file_read num)
           (PROCESSED_DOCS : loaded num) : M (bool * loaded num) :=
  match file with
  | Decoded x =>
      let PROCESSED_DOCS := x in
      match len PROCESSED_DOCS with
      | inr n =>
          log INFO (LOADED_1 ++ str_of_nat n ++ LOADED_2) ;;;
          ret (true, PROCESSED_DOCS)
      | inl e =>
          log ERROR (LOG_UNEXPECTED ++ exn_msg e) ;;;
          ret (false, PROCESSED_DOCS)
      end
  | FileNotFound =>
      log ERROR LOG_NOT_FOUND ;;; ret (false, PROCESSED_DOCS)
  | DecodeError e =>
      log ERROR (LOG_DECODE ++ exn_msg e) ;;; ret (false, PROCESSED_DOCS)
  | ReadError e =>
      log ERROR (LOG_UNEXPECTED ++ exn_msg e) ;;; ret (false, PROCESSED_DOCS)
  end.

(** The value of the global before the start-up block runs. *)
Definition INITIAL_DOCS {num} : loaded num := Records [].


End AppLoad.

(** ** Vocabulary for further statements about app.py *)

Module AppMore.
Import PyStr Py App.

Definition is_log (e : event) : bool :=
  match e with Logged _ _ => true | _ => false end.

Definition is_embed_call (e : event) : bool :=
  match e with EmbedCalled _ => true | _ => false end.

Definition is_generate_call (e : event) : bool :=
  match e with GenerateCalled _ _ => true | _ => false end.

Definition embed_calls (tr : list event) : nat :=
  length (filter is_embed_call tr).

Definition generate_calls (tr : list event) : nat :=
  length (filter is_generate_call tr).

(** The description of a ranked match in [relevant_docs_info]. *)
Definition info_of {num score} (percent : score -> str)
           (m : ranked num score) : doc_info :=
  DocInfo (title (snd m)) (slug (snd m)) (percent (fst m)).

End AppMore.

(** ** Vocabulary for metadata blocks *)

Module MetadataSpec.
Import PyStr Re Extract.

Definition START_LINE : str := Eval vm_compute in lit "## Metadata_Start".
Definition END_LINE : str := Eval vm_compute in lit "## Metadata_End".
Definition TITLE_LINE : str := Eval vm_compute in lit "## title: ".
Definition SLUG_LINE : str := Eval vm_compute in lit "## slug: ".

(** A metadata block with two lines between its markers. *)
Definition block (line1 line2 : str) : str :=
  START_LINE ++ NL :: line1 ++ NL :: line2 ++ NL :: END_LINE.

(** A value written on one line: it begins with a character that is not
    white space and has neither number sign nor line feed. *)
Definition plain_char (c : char) : bool :=
  negb (c =? 35)%N && negb (c =? 10)%N.

Definition is_value (v : str) : bool :=
  match v with
  | c :: _ => negb (isspace c)
  | [] => false
  end && forallb plain_char v.

(** The end of the block pattern: ##\s*Metadata_End. *)
Definition end_re : regex :=
  Seq (Lit HASHES) (Seq (Rep isspace 0 true) (Lit METADATA_END)).

(** The pattern does not match at any position of the segment [seg] of
    the text [seg ++ X]. *)
Fixpoint no_match_in (r : regex) (pv : option char) (seg X : str) : Prop :=
  match seg with
  | [] => True
  | c :: seg' =>
      match_at r pv (seg ++ X) = None /\ no_match_in r (Some c) seg' X
  end.

(** The continuation [k] fails at every position of the segment [seg]. *)
Fixpoint fails_in {A} (k : mstate -> option A) (cs : list (nat * str))
         (pv : option char) (ac seg X : str) : Prop :=
  match seg with
  | [] => True
  | c :: seg' =>
      k (MState pv ac (seg ++ X) cs) = None
      /\ fails_in k cs (Some c) (c :: ac) seg' X
  end.

End MetadataSpec.
(* ================================================================= *)
(** * Part II: properties *)
(* ================================================================= *)

(** ** The splitter on the scenario of the specification *)

Module ExtractScenario.
Import PyStr Extract.

(** C5: on the consolidated Markdown of the scenario (one heading line
    for a.md, a separator, a metadata block with title A and slug a, then
    the body), the splitter emits exactly one record, with title A, slug
    a, content Body A and filepath a.md, whatever the Unicode lower-casing
    table. *)
Theorem scenario_one_record :
  forall tbl,
    extracted_docs tbl Samples.scenario_markdown = [Samples.scenario_record]
    /\ extract_data_from_markdown tbl Samples.scenario_markdown
       = Some [Samples.scenario_record].
Proof.
  intro tbl. split; vm_compute; reflexivity.
Qed.

End ExtractScenario.

(** ** The similarity search and the request handler *)

Module AppFacts.
Import PyStr Py App AppSpec.

Section WithServices.
Variables num score : Type.
Variable cosine_similarity : list num -> list num -> exn + score.
Variable lt : score -> score -> bool.
Variable percent : score -> str.
Variable embed_content : str -> exn + list num.
Variable generate_content : str -> Q -> exn + str.

#[local] Abbreviation scan_body := (scan_body cosine_similarity).
#[local] Abbreviation scan := (scan cosine_similarity).
#[local] Abbreviation get_relevant_documents :=
  (get_relevant_documents cosine_similarity lt).
#[local] Abbreviation stop_exn := (stop_exn cosine_similarity).
#[local] Abbreviation candidate := (candidate cosine_similarity).
#[local] Abbreviation candidates := (candidates cosine_similarity).
#[local] Abbreviation warning := (warning cosine_similarity).
#[local] Abbreviation warnings := (warnings cosine_similarity).

(** *** What stops the scan *)

Lemma scan_body_null :
  forall q sims d tr,
    embedding d = None ->
    scan_body q sims d tr = (inl (Exn TypeError UNSIZED), tr).
Proof.
  intros q sims d tr H. unfold App.scan_body. rewrite H. reflexivity.
Qed.

(** One iteration, by what the record is: it stops the scan with an
    exception, or it adds a match or a warning. *)
Lemma scan_body_result :
  forall q sims d tr,
    scan_body q sims d tr
    = match stop_exn q d with
      | Some e => (inl e, tr)
      | None => (inr (sims ++ candidate q d), tr ++ warning q d)
      end.
Proof.
  intros q sims d tr.
  unfold App.scan_body, AppSpec.stop_exn, AppSpec.candidate,
    AppSpec.warning, usable.
  destruct (embedding d) as [v|]; [|reflexivity].
  cbv [np_array np_len np_items lift bind ret log raise].
  destruct ((0 <? length v) && (length q =? length v)).
  - destruct (cosine_similarity q v) as [e|s].
    + destruct (is_value_error e); [|reflexivity].
      rewrite app_nil_r. reflexivity.
    + rewrite app_nil_r. reflexivity.
  - rewrite app_nil_r. reflexivity.
Qed.

(** A scan that no record stops. *)
Lemma scan_through :
  forall docs q sims tr,
    (forall d, In d docs -> stop_exn q d = None) ->
    scan q sims docs tr
    = (inr (sims ++ candidates q docs), tr ++ warnings q docs).
Proof.
  induction docs as [|d docs IH]; intros q sims tr H.
  - simpl. rewrite !app_nil_r. reflexivity.
  - cbn [App.scan]. unfold bind at 1.
    rewrite scan_body_result, (H d) by (left; reflexivity).
    rewrite IH by (intros d' Hd'; apply H; right; exact Hd').
    unfold AppSpec.candidates, AppSpec.warnings. cbn [flat_map].
    rewrite !app_assoc. reflexivity.
Qed.

(** A scan stops at the first record that stops it, with the exception of
    that record, after the warnings of the records before it. *)
Lemma scan_stopped :
  forall pre q sims tr d post e,
    (forall d', In d' pre -> stop_exn q d' = None) ->
    stop_exn q d = Some e ->
    scan q sims (pre ++ d :: post) tr = (inl e, tr ++ warnings q pre).
Proof.
  induction pre as [|d0 pre IH]; intros q sims tr d post e Hpre Hd.
  - cbn [app App.scan]. unfold bind at 1.
    rewrite scan_body_result, Hd. rewrite app_nil_r. reflexivity.
  - cbn [app App.scan]. unfold bind at 1.
    rewrite scan_body_result, (Hpre d0) by (left; reflexivity).
    rewrite (IH q _ _ d post e) by
      (try (intros d' Hd'; apply Hpre; right; exact Hd'); exact Hd).
    unfold AppSpec.warnings. cbn [flat_map].
    rewrite app_assoc. reflexivity.
Qed.

(** The first record that stops the scan, when there is one. *)
Lemma first_stop :
  forall q docs d,
    In d docs -> stop_exn q d <> None ->
    exists pre d0 post e,
      docs = pre ++ d0 :: post
      /\ (forall d', In d' pre -> stop_exn q d' = None)
      /\ stop_exn q d0 = Some e.
Proof.
  intros q. induction docs as [|d0 docs IH]; intros d Hin Hd; [destruct Hin|].
  destruct (stop_exn q d0) as [e|] eqn:E0.
  - exists [], d0, docs, e. split; [reflexivity|]. split; [intros ? []|exact E0].
  - destruct Hin as [->|Hin]; [congruence|].
    destruct (IH d Hin Hd) as (pre & d1 & post & e & -> & Hpre & Hd1).
    exists (d0 :: pre), d1, post, e. split; [reflexivity|].
    split; [|exact Hd1].
    intros d' [<-|Hd']; [exact E0|apply Hpre; exact Hd'].
Qed.

(** Where the cosine computation raises nothing but ValueError, only a
    null embedding stops the scan. *)
Lemma stop_is_null :
  forall q docs d e,
    only_value_errors cosine_similarity q docs ->
    In d docs -> stop_exn q d = Some e ->
    embedding d = None /\ e = Exn TypeError UNSIZED.
Proof.
  intros q docs d e Hv Hin. unfold AppSpec.stop_exn.
  destruct (embedding d) as [v|] eqn:E; [|intros [= <-]; auto].
  destruct (usable q d); [|discriminate].
  destruct (cosine_similarity q v) as [e0|s] eqn:C; [|discriminate].
  pose proof (Hv d v e0 Hin E C) as K.
  unfold is_value_error. rewrite K. discriminate.
Qed.

Lemma null_stops :
  forall q d, embedding d = None -> stop_exn q d <> None.
Proof.
  intros q d H. unfold AppSpec.stop_exn. rewrite H. discriminate.
Qed.

(** C1 (the code departs from it): whenever the corpus holds a record
    whose embedding is null, the search does not skip that record with a
    warning: it raises, for every query vector and every k.  The exception
    is the TypeError of [len] on an unsized array, unless the cosine
    computation has raised, on an earlier record, an exception that is not
    a ValueError. *)
Theorem search_raises_on_null_embedding :
  forall docs q k tr d,
    In d docs -> embedding d = None ->
    (exists e tr', get_relevant_documents docs q k tr = (inl e, tr'))
    /\ (only_value_errors cosine_similarity q docs ->
        fst (get_relevant_documents docs q k tr)
        = inl (Exn TypeError UNSIZED)).
Proof.
  intros docs q k tr d Hin Hnull.
  destruct (@first_stop q docs d Hin (@null_stops q d Hnull))
    as (pre & d0 & post & e & Hdocs & Hpre & Hd0).
  assert (S : scan q [] docs tr = (inl e, tr ++ warnings q pre))
    by (rewrite Hdocs; apply scan_stopped; assumption).
  unfold App.get_relevant_documents, bind. rewrite S. split.
  - eauto.
  - intro Hv.
    assert (Hin0 : In d0 docs)
      by (rewrite Hdocs; apply in_or_app; right; left; reflexivity).
    destruct (@stop_is_null q docs d0 e Hv Hin0 Hd0) as [_ ->]. reflexivity.
Qed.

End WithServices.

(** The failing input of C1: a corpus of one record whose embedding is
    null, queried with a two-dimensional vector. *)
Lemma search_raises_on_null_embedding_witness :
  fst (App.get_relevant_documents Samples.dot_product Z.ltb
         [Samples.doc_null] [1%Z; 0%Z] None [])
  = inl (Exn TypeError UNSIZED).
Proof.
  refine (proj2 (@search_raises_on_null_embedding Z Z Samples.dot_product
                   Z.ltb [Samples.doc_null] [1%Z; 0%Z] None []
                   Samples.doc_null _ _) _).
  - simpl. left. reflexivity.
  - reflexivity.
  - intros d v e _ _ H. discriminate H.
Defined.

End AppFacts.


(** ** Blank text *)

Module StripFacts.
Import PyStr.



Lemma startswith_app :
  forall p s, startswith p s = true -> s = p ++ skipn (length p) s.
Proof.
  induction p as [|a p IH]; intros [|b s] H; simpl in *;
    try reflexivity; try discriminate.
  apply andb_true_iff in H as [Hab Hs].
  apply N.eqb_eq in Hab. subst b. f_equal. auto.
Qed.

Lemma startswith_self_app :
  forall p s, startswith p (p ++ s) = true.
Proof.
  induction p as [|a p IH]; intro s; simpl; [reflexivity|].
  unfold eqb_char. rewrite N.eqb_refl. simpl. apply IH.
Qed.

End StripFacts.

(** ** The analyzer and the view function *)

Module HandlerFacts.
Import PyStr Py App AppSpec.

Section WithServices.
Variables num score : Type.
Variable cosine_similarity : list num -> list num -> exn + score.
Variable lt : score -> score -> bool.
Variable percent : score -> str.
Variable embed_content : str -> exn + list num.
Variable generate_content : str -> Q -> exn + str.

#[local] Abbreviation get_relevant_documents :=
  (get_relevant_documents cosine_similarity lt).
#[local] Abbreviation analyze :=
  (analyze_coverage_with_context percent generate_content).
#[local] Abbreviation handle :=
  (handle_analyze_coverage cosine_similarity lt percent embed_content
                           generate_content).
#[local] Abbreviation route :=
  (analyze_coverage_route cosine_similarity lt percent embed_content
                          generate_content).
#[local] Abbreviation prompt_of := (prompt_of percent).

Ltac run :=
  cbv [App.analyze_coverage_with_context App.handle_analyze_coverage
       App.generate_embedding call_embed_content call_generate_content
       bind ret lift raise log try_except].

(** With a loaded corpus, a failure of the model is turned into the
    failure note of the mode, with no document description. *)
Lemma analyze_model_failure :
  forall (d : doc num) ds query (matches : list (ranked num score)) e tr,
    generate_content (prompt_of query matches) (temperature_of matches)
    = inl e ->
    analyze (d :: ds) query matches tr
    = (inr (CoverageResult (degraded_text query matches) []),
       ((tr ++ [mode_logged query matches])
          ++ [GenerateCalled (prompt_of query matches)
                             (temperature_of matches)])
         ++ [failure_logged e matches]).
Proof.
  intros d ds query [|[s m] ms] e tr H; run.
  - simpl in H. rewrite H. reflexivity.
  - revert H. unfold prompt_of, temperature_of.
    destruct (build_context _ _ _ _) as [ctx infos].
    cbn [fst]. intro H. rewrite H. reflexivity.
Qed.


(** With a loaded corpus, an answer of the model is returned after the
    opening of the mode. *)
Lemma analyze_model_answer :
  forall (d : doc num) ds query (matches : list (ranked num score)) text tr,
    generate_content (prompt_of query matches) (temperature_of matches)
    = inr text ->
    analyze (d :: ds) query matches tr
    = (inr (CoverageResult
              (match matches with
               | [] => NOT_FOUND ++ query ++ NOT_FOUND_TOPICS ++ text
               | _ :: _ => PARTIAL ++ query ++ PARTIAL_IMPROVE ++ text
               end)
              (match matches with
               | [] => []
               | _ :: _ => snd (build_context percent [] [] matches)
               end)),
       (tr ++ [mode_logged query matches])
         ++ [GenerateCalled (prompt_of query matches)
                            (temperature_of matches)]).
Proof.
  intros d ds query [|[s m] ms] text tr H; run.
  - simpl in H. rewrite H. reflexivity.
  - revert H. unfold AppSpec.prompt_of, temperature_of.
    destruct (build_context _ _ _ _) as [ctx infos].
    cbn [fst snd]. intro H. rewrite H. reflexivity.
Qed.

Lemma analyze_not_loaded :
  forall query (matches : list (ranked num score)) tr,
    analyze [] query matches tr = (inr (CoverageResult NOT_LOADED []), tr).
Proof. reflexivity. Qed.

(** C4 (amended): with a loaded (non-empty) corpus, an empty sequence of
    ranked matches selects the no-match mode: the model is asked for topic
    suggestions at temperature 0.7, the response text begins with the fixed
    not-found message around the query, and relevant_docs_info is empty; a
    non-empty sequence selects the match mode, whatever the corpus holds.
    With an empty corpus the analyzer answers the fixed not-loaded message
    with an empty relevant_docs_info, without asking the model. *)
Theorem mode_selection :
  forall query tr,
    (forall matches : list (ranked num score),
        analyze [] query matches tr
        = (inr (CoverageResult NOT_LOADED []), tr))
    /\ (forall (d : doc num) ds,
           exists text tr',
             analyze (d :: ds) query [] tr
             = (inr (CoverageResult
                       (NOT_FOUND ++ query ++ NOT_FOUND_CLOSE ++ text) []),
                tr')
             /\ In (GenerateCalled (prompt_for_suggestions query) (7 # 10))
                   tr')
    /\ (forall (d : doc num) ds m ms,
           exists text infos tr',
             analyze (d :: ds) query (m :: ms) tr
             = (inr (CoverageResult
                       (PARTIAL ++ query ++ PARTIAL_CLOSE ++ text) infos),
                tr')
             /\ In (GenerateCalled (prompt_of query (m :: ms)) (4 # 10))
                   tr').
Proof.
  intros query tr. split; [|split].
  - intro matches. apply analyze_not_loaded.
  - intros d ds.
    pose (none := @nil (ranked num score)).
    destruct (generate_content (prompt_of query none) (temperature_of none))
      as [e|text] eqn:G.
    + pose proof (analyze_model_failure d ds query none tr G) as R.
      exists (skipn 3 NOT_FOUND_FAILED). eexists. split.
      * exact R.
      * apply in_or_app. left. apply in_or_app. right. left. reflexivity.
    + pose proof (analyze_model_answer d ds query none tr G) as R.
      exists (skipn 3 NOT_FOUND_TOPICS ++ text). eexists. split.
      * exact R.
      * apply in_or_app. right. left. reflexivity.
  - intros d ds m ms.
    destruct (generate_content (prompt_of query (m :: ms))
                (temperature_of (m :: ms))) as [e|text] eqn:G.
    + rewrite (analyze_model_failure d ds query (m :: ms) tr G).
      exists (skipn 12 PARTIAL_FAILED). do 2 eexists. split.
      * reflexivity.
      * apply in_or_app. left. apply in_or_app. right. left. reflexivity.
    + rewrite (analyze_model_answer d ds query (m :: ms) tr G).
      exists (skipn 12 PARTIAL_IMPROVE ++ text). do 2 eexists. split.
      * reflexivity.
      * apply in_or_app. right. left. reflexivity.
Qed.

(** *** The view function *)



Lemma handle_embed_failure :
  forall docs data query e tr,
    query_of data = inr query -> truthy query = true ->
    embed_content query = inl e ->
    handle docs (inr data) tr
    = (inr (Response (JObj [(ERROR_KEY, JStr MSG_NO_EMBEDDING)]) 500),
       ((tr ++ [request_logged query]) ++ [EmbedCalled query])
         ++ [Logged ERROR (query_embedding_text e query)]).
Proof.
  intros docs data query e tr Hq Ht He. run.
  rewrite Hq, Ht. cbn [negb]. rewrite He. reflexivity.
Qed.

Lemma handle_model_failure :
  forall (d : doc num) ds data query qe matches e tr tr2,
    query_of data = inr query -> truthy query = true ->
    embed_content query = inr qe ->
    get_relevant_documents (d :: ds) qe (Some 5%Z)
      ((tr ++ [request_logged query]) ++ [EmbedCalled query])
    = (inr matches, tr2) ->
    generate_content (prompt_of query matches) (temperature_of matches)
    = inl e ->
    handle (d :: ds) (inr data) tr
    = (inr (Response
              (json_of_result
                 (CoverageResult (degraded_text query matches) [])) 200),
       ((tr2 ++ [mode_logged query matches])
          ++ [GenerateCalled (prompt_of query matches)
                             (temperature_of matches)])
         ++ [failure_logged e matches]).
Proof.
  intros d ds data query qe matches e tr tr2 Hq Ht He Hs Hg.
  unfold App.handle_analyze_coverage, App.generate_embedding,
    call_embed_content.
  cbv [lift bind ret log try_except].
  rewrite Hq, Ht. cbn [negb]. rewrite He.
  unfold request_logged in Hs. rewrite Hs.
  rewrite (analyze_model_failure d ds query matches tr2 Hg).
  reflexivity.
Qed.

(** C2 (amended): for a request with a non-blank query, a failure of the
    generative model, in either analyzer mode, is caught once and becomes a
    response that looks successful (status 200) with the failure note of
    the mode and an empty relevant_docs_info; a failure to embed the query
    is caught once as well, but the caller receives an error object with
    status 500, not a successful-looking response.  Neither failure leaves
    the handler as an exception. *)
Theorem external_failures :
  forall docs data query tr,
    query_of data = inr query -> truthy query = true ->
    (forall e,
        embed_content query = inl e ->
        handle docs (inr data) tr
        = (inr (Response (JObj [(ERROR_KEY, JStr MSG_NO_EMBEDDING)]) 500),
           ((tr ++ [request_logged query]) ++ [EmbedCalled query])
             ++ [Logged ERROR (query_embedding_text e query)]))
    /\ (forall d ds matches e tr1,
           docs = d :: ds ->
           generate_content (prompt_of query matches)
                            (temperature_of matches) = inl e ->
           analyze docs query matches tr1
           = (inr (CoverageResult (degraded_text query matches) []),
              ((tr1 ++ [mode_logged query matches])
                 ++ [GenerateCalled (prompt_of query matches)
                                    (temperature_of matches)])
                ++ [failure_logged e matches]))
    /\ (forall d ds qe matches e tr2,
           docs = d :: ds ->
           embed_content query = inr qe ->
           get_relevant_documents docs qe (Some 5%Z)
             ((tr ++ [request_logged query]) ++ [EmbedCalled query])
           = (inr matches, tr2) ->
           generate_content (prompt_of query matches)
                            (temperature_of matches) = inl e ->
           exists r tr3,
             handle docs (inr data) tr = (inr r, tr3)
             /\ degraded_success r).
Proof.
  intros docs data query tr Hq Ht. split; [|split].
  - intros e He. apply handle_embed_failure; assumption.
  - intros d ds matches e tr1 -> Hg. apply analyze_model_failure. exact Hg.
  - intros d ds qe matches e tr2 -> He Hs Hg.
    rewrite (handle_model_failure d ds data tr Hq Ht He Hs Hg).
    do 2 eexists. split; [reflexivity|].
    split; [reflexivity|]. eexists. reflexivity.
Qed.

End WithServices.



(** C2 as stated fails when the query cannot be embedded: the caller gets
    status 500 and an error object, which is not a successful-looking
    response with an empty relevant_docs_info. *)
Lemma embed_failure_is_hard_error :
  exists r tr',
    handle_analyze_coverage Samples.dot_product Z.ltb Samples.no_percent
      Samples.embed_down Samples.generate_ok [Samples.doc_a]
      (inr Samples.query_x) []
    = (inr r, tr')
    /\ status r = 500
    /\ ~ degraded_success r.
Proof.
  do 2 eexists. split; [reflexivity|]. split; [reflexivity|].
  intros [H _]. discriminate H.
Qed.

Lemma external_failures_witness :
  exists tr',
    handle_analyze_coverage Samples.dot_product Z.ltb Samples.no_percent
      Samples.embed_down Samples.generate_ok [Samples.doc_a]
      (inr Samples.query_x) []
    = (inr (Response (JObj [(ERROR_KEY, JStr MSG_NO_EMBEDDING)]) 500), tr').
Proof.
  eexists.
  apply (proj1 (@external_failures Z Z Samples.dot_product Z.ltb
                  Samples.no_percent Samples.embed_down Samples.generate_ok
                  [Samples.doc_a] Samples.query_x (lit "x") []
                  eq_refl eq_refl)
           Samples.failure).
  reflexivity.
Defined.

(** C4 as stated fails on an empty corpus: the response text is the
    not-loaded message, which does not begin with the not-found message. *)
Lemma empty_corpus_not_loaded :
  exists r tr',
    analyze_coverage_with_context Samples.no_percent Samples.generate_ok
      (@nil (doc Z)) (lit "x") [] []
    = (inr r, tr')
    /\ startswith NOT_FOUND (response_text r) = false.
Proof.
  do 2 eexists. split; reflexivity.
Qed.

End HandlerFacts.

(** ** The embedding pipeline *)

Module EmbedFacts.
Import PyStr Py Embed EmbedSpec.

Lemma calls_app :
  forall w evs, calls (w ++ evs) = calls w + calls evs.
Proof.
  intros w evs. unfold calls. rewrite filter_app, length_app. reflexivity.
Qed.

Lemma calls_called :
  forall w text, calls (w ++ [Called text]) = S (calls w).
Proof.
  intros. rewrite calls_app. change (calls [Called text]) with 1. lia.
Qed.

Lemma calls_slept :
  forall w n, calls (w ++ [Slept n]) = calls w.
Proof.
  intros. rewrite calls_app. change (calls [Slept n]) with 0. lia.
Qed.

Section WithService.
Variable num : Type.
Variable embed_content : nat -> str -> exn + list num.

#[local] Abbreviation retry := (generate_embedding_with_retry embed_content).
#[local] Abbreviation loop_body := (loop_body embed_content).
#[local] Abbreviation docs_loop := (docs_loop embed_content).
#[local] Abbreviation fails := (fails embed_content).

Ltac step :=
  cbv [generate_embedding_with_retry retry_loop seq bind call_embed sleep ret
       Nat.ltb Nat.leb Nat.sub Nat.pow Nat.mul Nat.add].

(** Three failures in a row: two pauses of 1 and 2 seconds, then null. *)
Lemma retry_exhausted :
  forall text w,
    fails (calls w) text -> fails (S (calls w)) text ->
    fails (S (S (calls w))) text ->
    retry text w = (None, w ++ three_attempts text).
Proof.
  intros text w [e0 H0] [e1 H1] [e2 H2]. step.
  rewrite H0. rewrite calls_slept, calls_called, H1.
  rewrite calls_slept, calls_called, calls_slept, calls_called, H2.
  unfold three_attempts. repeat rewrite <- app_assoc. reflexivity.
Qed.

(** Whatever the service answers, one call of the function makes at most
    three calls and only appends to the trace. *)
Lemma retry_bounded :
  forall text w,
    exists evs, snd (retry text w) = w ++ evs /\ calls evs <= 3.
Proof.
  intros text w. step.
  destruct (embed_content (calls w) text) as [e0|v0].
  2:{ exists [Called text]. split; [reflexivity|unfold calls; simpl; lia]. }
  destruct (embed_content _ text) as [e1|v1].
  2:{ exists [Called text; Slept 1; Called text].
      split; [repeat rewrite <- app_assoc; reflexivity|unfold calls; simpl; lia]. }
  destruct (embed_content _ text) as [e2|v2].
  - exists (three_attempts text).
    split; [repeat rewrite <- app_assoc; reflexivity|unfold calls; simpl; lia].
  - exists (three_attempts text).
    split; [repeat rewrite <- app_assoc; reflexivity|unfold calls; simpl; lia].
Qed.

(** Each iteration appends exactly one record: the input record with an
    embedding. *)
Lemma loop_body_appends :
  forall acc d w,
    exists e, fst (loop_body acc d w) = acc ++ [set_embedding d e].
Proof.
  intros acc d w. unfold Embed.loop_body.
  destruct (negb (truthy (strip _))).
  - exists None. reflexivity.
  - unfold bind.
    destruct (generate_embedding_with_retry embed_content _ w) as [[v|] w'];
      eexists; reflexivity.
Qed.

Lemma forget_set_embedding :
  forall d (e : option (list num)), forget (set_embedding d e) = d.
Proof. intros [t s c f] e. reflexivity. Qed.

Lemma docs_loop_frame :
  forall raw_docs acc w,
    map forget (fst (docs_loop acc raw_docs w))
    = map forget acc ++ raw_docs.
Proof.
  induction raw_docs as [|d more IH]; intros acc w.
  - simpl. rewrite app_nil_r. reflexivity.
  - cbn [Embed.docs_loop]. unfold bind at 1.
    destruct (loop_body_appends acc d w) as [e He].
    destruct (loop_body acc d w) as [acc' w'] eqn:Hb.
    cbn [fst] in He. subst acc'.
    rewrite IH, map_app. cbn [map]. rewrite forget_set_embedding.
    rewrite <- app_assoc. reflexivity.
Qed.

(** *** The run of the loop, record by record *)

(** One call of the function: the first attempt that succeeds among
    three, or three failures. *)
Lemma retry_cases :
  forall text w,
    (exists i v,
        i < 3
        /\ (forall j, j < i -> fails (calls w + j) text)
        /\ embed_content (calls w + i) text = inr v
        /\ retry text w
           = (Some v, w ++ firstn (2 * i + 1) (three_attempts text)))
    \/ ((forall j, j < 3 -> fails (calls w + j) text)
        /\ retry text w = (None, w ++ three_attempts text)).
Proof.
  intros text w.
  destruct (embed_content (calls w) text) as [e0|v0] eqn:E0.
  2:{ left. exists 0, v0. split; [lia|]. split; [intros j Hj; lia|].
      rewrite Nat.add_0_r. split; [exact E0|].
      step. rewrite E0. reflexivity. }
  destruct (embed_content (S (calls w)) text) as [e1|v1] eqn:E1.
  2:{ left. exists 1, v1. split; [lia|]. split.
      - intros j Hj. assert (j = 0) as -> by lia.
        rewrite Nat.add_0_r. exists e0. exact E0.
      - rewrite Nat.add_1_r. split; [exact E1|].
        step. rewrite E0, calls_slept, calls_called, E1.
        repeat rewrite <- app_assoc. reflexivity. }
  destruct (embed_content (S (S (calls w))) text) as [e2|v2] eqn:E2.
  - right. split.
    + intros j Hj. destruct j as [|[|[|j]]]; [| | |lia].
      * rewrite Nat.add_0_r. exists e0. exact E0.
      * rewrite Nat.add_1_r. exists e1. exact E1.
      * replace (calls w + 2) with (S (S (calls w))) by lia.
        exists e2. exact E2.
    + apply retry_exhausted; [exists e0|exists e1|exists e2]; assumption.
  - left. exists 2, v2. split; [lia|]. split.
    + intros j Hj. destruct j as [|[|j]]; [| |lia].
      * rewrite Nat.add_0_r. exists e0. exact E0.
      * rewrite Nat.add_1_r. exists e1. exact E1.
    + replace (calls w + 2) with (S (S (calls w))) by lia.
      split; [exact E2|].
      step. rewrite E0, calls_slept, calls_called, E1.
      rewrite calls_slept, calls_called, calls_slept, calls_called, E2.
      unfold three_attempts. repeat rewrite <- app_assoc. reflexivity.
Qed.

Lemma calls_attempts :
  forall text i,
    i < 3 -> calls (firstn (2 * i + 1) (three_attempts text)) = i + 1.
Proof.
  intros text i Hi. destruct i as [|[|[|i]]]; [reflexivity..|lia].
Qed.

(** The loop does to the records what the claims say of them. *)
Lemma docs_loop_processed :
  forall raw_docs acc w,
    exists out evs,
      docs_loop acc raw_docs w = (acc ++ out, w ++ evs)
      /\ processed embed_content (calls w) raw_docs out evs.
Proof.
  induction raw_docs as [|d more IH]; intros acc w.
  - exists [], []. rewrite !app_nil_r. split; [reflexivity|constructor].
  - cbn [Embed.docs_loop]. unfold bind at 1. unfold Embed.loop_body.
    fold (embedding_text d). fold (has_text d).
    destruct (has_text d) eqn:Ht; cbn [negb].
    + unfold bind at 1.
      destruct (retry_cases (embedding_text d) w)
        as [(i & v & Hi & Hf & Hv & Hr)|[Hf Hr]]; rewrite Hr.
      * destruct (IH (acc ++ [set_embedding d (Some v)])
                    (w ++ firstn (2 * i + 1)
                            (three_attempts (embedding_text d))))
          as (out & evs & Hl & Hp).
        cbn [ret]. rewrite Hl.
        exists (set_embedding d (Some v) :: out).
        exists (firstn (2 * i + 1) (three_attempts (embedding_text d))
                  ++ evs).
        split; [rewrite <- !app_assoc; reflexivity|].
        rewrite calls_app, calls_attempts in Hp by exact Hi.
        rewrite Nat.add_assoc in Hp.
        apply processed_vector with (v := v);
          try assumption; apply forget_set_embedding || reflexivity.
      * destruct (IH (acc ++ [set_embedding d None])
                    (w ++ three_attempts (embedding_text d)))
          as (out & evs & Hl & Hp).
        cbn [ret]. rewrite Hl.
        exists (set_embedding d None :: out).
        exists (three_attempts (embedding_text d) ++ evs).
        split; [rewrite <- !app_assoc; reflexivity|].
        rewrite calls_app in Hp.
        change (calls (three_attempts (embedding_text d))) with 3 in Hp.
        apply processed_null;
          try assumption; apply forget_set_embedding || reflexivity.
    + destruct (IH (acc ++ [set_embedding d None]) w)
        as (out & evs & Hl & Hp).
      cbn [ret]. rewrite Hl.
      exists (set_embedding d None :: out), evs.
      split; [rewrite <- !app_assoc; reflexivity|].
      apply processed_skip;
        try assumption; apply forget_set_embedding || reflexivity.
Qed.

(** C10: the list built by the pipeline has exactly one record per input
    record, in the same order, and each output record is its input record
    with an embedding field added (title, slug, content and filepath are
    unchanged); that list is what the function hands to [json.dump], except
    that for an empty input nothing is written.  The embedding added is the
    vector of the first attempt that succeeds among the three made for the
    text of the record, null when the three attempts fail, and null,
    without any attempt, when the record has no text to embed. *)
Theorem pipeline_frame :
  forall raw_docs w,
    map forget (fst (docs_loop [] raw_docs w)) = raw_docs
    /\ length (fst (docs_loop [] raw_docs w)) = length raw_docs
    /\ fst (generate_embeddings_for_docs embed_content raw_docs w)
       = match raw_docs with
         | [] => None
         | _ :: _ => Some (fst (docs_loop [] raw_docs w))
         end
    /\ exists evs,
         snd (docs_loop [] raw_docs w) = w ++ evs
         /\ processed embed_content (calls w) raw_docs
              (fst (docs_loop [] raw_docs w)) evs.
Proof.
  intros raw_docs w.
  pose proof (docs_loop_frame raw_docs [] w) as F. cbn [map app] in F.
  split; [exact F|]. split; [|split].
  - rewrite <- F at 2. rewrite length_map. reflexivity.
  - unfold Embed.generate_embeddings_for_docs, bind.
    destruct (docs_loop [] raw_docs w) as [out w'] eqn:E. cbn [fst] in *.
    destruct out as [|o out]; destruct raw_docs; try discriminate;
      reflexivity.
  - destruct (docs_loop_processed raw_docs [] w) as (out & evs & Hl & Hp).
    rewrite Hl. cbn [fst snd app]. exists evs. split; [reflexivity|exact Hp].
Qed.

(** C8: when the three attempts made for a text fail, the function has
    called the service three times, paused 1 second after the first failure
    and 2 seconds after the second, and returns null without raising; in no
    case does it call the service more than three times; and a record whose
    attempts all fail is appended with a null embedding, after which the
    loop goes on with the remaining records: each of them is processed in
    its turn, and the function hands the whole list on. *)
Theorem retry_exhausted_then_continue :
  forall text w,
    (fails (calls w) text -> fails (S (calls w)) text ->
     fails (S (S (calls w))) text ->
     retry text w = (None, w ++ three_attempts text))
    /\ (exists evs, snd (retry text w) = w ++ evs /\ calls evs <= 3)
    /\ (forall acc d more,
           embedding_text d = text -> truthy (strip text) = true ->
           fails (calls w) text -> fails (S (calls w)) text ->
           fails (S (S (calls w))) text ->
           docs_loop acc (d :: more) w
           = docs_loop (acc ++ [set_embedding d None]) more
               (w ++ three_attempts text)
           /\ exists o out evs,
                docs_loop acc (d :: more) w
                = (acc ++ o :: out, w ++ three_attempts text ++ evs)
                /\ forget o = d /\ embedding o = None
                /\ processed embed_content (calls w + 3) more out evs
                /\ (acc = [] ->
                    fst (generate_embeddings_for_docs embed_content
                           (d :: more) w)
                    = Some (o :: out))).
Proof.
  intros text w. split; [|split].
  - apply retry_exhausted.
  - apply retry_bounded.
  - intros acc d more Ht Hs F0 F1 F2.
    assert (Hstep : docs_loop acc (d :: more) w
                    = docs_loop (acc ++ [set_embedding d None]) more
                        (w ++ three_attempts text)).
    { cbn [Embed.docs_loop]. unfold bind at 1. unfold Embed.loop_body.
      fold (embedding_text d). rewrite Ht, Hs. cbn [negb].
      unfold bind at 1. rewrite (retry_exhausted w F0 F1 F2).
      reflexivity. }
    split; [exact Hstep|].
    destruct (docs_loop_processed more (acc ++ [set_embedding d None])
                (w ++ three_attempts text)) as (out & evs & Hl & Hp).
    exists (set_embedding d None), out, evs. rewrite calls_app in Hp.
    change (calls (three_attempts text)) with 3 in Hp.
    split; [|split; [|split; [|split; [exact Hp|]]]].
    + rewrite Hstep, Hl. rewrite <- !app_assoc. reflexivity.
    + apply forget_set_embedding.
    + reflexivity.
    + intros ->. unfold Embed.generate_embeddings_for_docs, bind.
      rewrite Hstep, Hl. reflexivity.
Qed.

End WithService.

(** With a service that is down, a batch of two records makes three
    attempts for the first record, keeps it with a null embedding and goes
    on to the second. *)
Lemma retry_exhausted_then_continue_witness :
  exists o out evs,
    docs_loop Samples.batch_down [] [Samples.raw_a; Samples.raw_b] []
    = ([] ++ o :: out,
       [] ++ three_attempts (embedding_text Samples.raw_a) ++ evs)
    /\ forget o = Samples.raw_a /\ embedding o = None
    /\ processed Samples.batch_down (calls [] + 3) [Samples.raw_b] out evs.
Proof.
  destruct (proj2 (proj2 (@retry_exhausted_then_continue Z Samples.batch_down
                            (embedding_text Samples.raw_a) []))
              [] Samples.raw_a [Samples.raw_b] eq_refl)
    as (_ & o & out & evs & Hl & Hf & He & Hp & _).
  - vm_compute. reflexivity.
  - exists Samples.failure. reflexivity.
  - exists Samples.failure. reflexivity.
  - exists Samples.failure. reflexivity.
  - exists o, out, evs. repeat split; assumption.
Defined.

End EmbedFacts.

(** ** Sorting as [list.sort] does *)

Module SortFacts.
Import Py.

Section Sorting.
Context {A K : Type} (key : A -> K) (lt : K -> K -> bool).

#[local] Abbreviation asc := (asc key lt).
#[local] Abbreviation desc := (desc key lt).
#[local] Abbreviation ties := (ties key lt).

Lemma insert_sorted_perm :
  forall x l, Permutation (x :: l) (insert_sorted key lt x l).
Proof.
  induction l as [|y l IH]; simpl; [reflexivity|].
  destruct (lt (key y) (key x)); [|reflexivity].
  rewrite perm_swap. constructor. exact IH.
Qed.

Lemma sort_asc_perm :
  forall l, Permutation l (sort_asc key lt l).
Proof.
  induction l as [|x l IH]; simpl; [constructor|].
  rewrite <- insert_sorted_perm. constructor. exact IH.
Qed.

Lemma list_sort_perm :
  forall reverse l, Permutation l (list_sort key lt reverse l).
Proof.
  intros [|] l; unfold list_sort.
  - rewrite <- Permutation_rev, <- sort_asc_perm. apply Permutation_rev.
  - apply sort_asc_perm.
Qed.

Section Ordered.
(** The comparison is a strict weak order, as [<] is on numbers. *)
Hypothesis lt_asym : forall a b, lt a b = true -> lt b a = false.
Hypothesis lt_negtrans :
  forall a b c, lt a c = true -> lt a b = true \/ lt b c = true.

Lemma insert_sorted_sorted :
  forall x l,
    StronglySorted asc l -> StronglySorted asc (insert_sorted key lt x l).
Proof.
  induction l as [|y l IH]; intro S; simpl.
  - repeat constructor.
  - apply StronglySorted_inv in S as [Sl Hy].
    destruct (lt (key y) (key x)) eqn:E.
    + constructor; [apply IH; exact Sl|].
      rewrite <- insert_sorted_perm. constructor; [|exact Hy].
      unfold asc. apply lt_asym. exact E.
    + constructor.
      * constructor; assumption.
      * constructor; [exact E|].
        rewrite Forall_forall in *. intros z Hz. unfold asc in *.
        destruct (lt (key z) (key x)) eqn:Ez; [|reflexivity].
        destruct (lt_negtrans (key y) Ez) as [H|H].
        -- rewrite (Hy z Hz) in H. discriminate.
        -- congruence.
Qed.

Lemma sort_asc_sorted :
  forall l, StronglySorted asc (sort_asc key lt l).
Proof.
  induction l as [|x l IH]; simpl; [constructor|].
  apply insert_sorted_sorted. exact IH.
Qed.

(** Elements that tie with a reference key keep their order. *)
Lemma insert_sorted_stable :
  forall s x l,
    filter (ties s) (insert_sorted key lt x l) = filter (ties s) (x :: l).
Proof.
  intros s x. induction l as [|y l IH]; [reflexivity|].
  cbn [insert_sorted]. destruct (lt (key y) (key x)) eqn:E; [|reflexivity].
  cbn [filter] in *. rewrite IH.
  destruct (ties s y) eqn:Ty; [|reflexivity].
  destruct (ties s x) eqn:Tx; [|reflexivity].
  exfalso. unfold Py.ties in Ty, Tx.
  apply andb_true_iff in Ty as [_ Ty], Tx as [Tx _].
  apply negb_true_iff in Ty, Tx.
  destruct (lt_negtrans s E); congruence.
Qed.

Lemma sort_asc_stable :
  forall s l, filter (ties s) (sort_asc key lt l) = filter (ties s) l.
Proof.
  intros s. induction l as [|x l IH]; [reflexivity|].
  cbn [sort_asc]. rewrite insert_sorted_stable. cbn [filter]. rewrite IH.
  reflexivity.
Qed.

Lemma snoc_sorted :
  forall (R : A -> A -> Prop) l x,
    StronglySorted R l -> Forall (fun y => R y x) l ->
    StronglySorted R (l ++ [x]).
Proof.
  intros R l x S. induction S as [|a l S IH Ha]; intro F; simpl.
  - repeat constructor.
  - apply Forall_cons_iff in F as [Fa Fl].
    constructor; [apply IH; exact Fl|].
    apply Forall_app. split; [exact Ha|]. repeat constructor. exact Fa.
Qed.

Lemma rev_sorted :
  forall l, StronglySorted asc l -> StronglySorted desc (rev l).
Proof.
  intros l S. induction S as [|a l S IH Ha]; simpl; [constructor|].
  apply snoc_sorted; [exact IH|].
  apply Forall_rev. exact Ha.
Qed.

(** [list.sort(reverse=True)] leaves the list in descending order of keys,
    with ties in their original order. *)
Lemma list_sort_reverse_sorted :
  forall l, StronglySorted desc (list_sort key lt true l).
Proof.
  intro l. unfold list_sort. apply rev_sorted, sort_asc_sorted.
Qed.

Lemma list_sort_reverse_stable :
  forall s l, filter (ties s) (list_sort key lt true l) = filter (ties s) l.
Proof.
  intros s l. unfold list_sort.
  rewrite filter_rev, sort_asc_stable, filter_rev, rev_involutive.
  reflexivity.
Qed.

End Ordered.

Lemma firstn_sorted :
  forall (R : A -> A -> Prop) n l,
    StronglySorted R l -> StronglySorted R (firstn n l).
Proof.
  intros R n l S. revert n.
  induction S as [|a l S IH Ha]; intros [|n]; simpl; try constructor.
  - apply IH.
  - rewrite Forall_forall in *. intros y Hy. apply Ha.
    rewrite <- (firstn_skipn n l). apply in_or_app. left. exact Hy.
Qed.

Lemma firstn_filter_prefix :
  forall (p : A -> bool) n l,
    filter p l = filter p (firstn n l) ++ filter p (skipn n l).
Proof.
  intros p n l. rewrite <- filter_app, firstn_skipn. reflexivity.
Qed.

End Sorting.
End SortFacts.

(** ** The ranked search *)

Module SearchFacts.
Import PyStr Py App AppSpec.

Section WithSimilarity.
Variables num score : Type.
Variable cosine_similarity : list num -> list num -> exn + score.
Variable lt : score -> score -> bool.

#[local] Abbreviation scan := (scan cosine_similarity).
#[local] Abbreviation get_relevant_documents :=
  (get_relevant_documents cosine_similarity lt).
#[local] Abbreviation stop_exn := (stop_exn cosine_similarity).
#[local] Abbreviation candidate := (candidate cosine_similarity).
#[local] Abbreviation candidates := (candidates cosine_similarity).
#[local] Abbreviation warnings := (warnings cosine_similarity).
#[local] Abbreviation by_score := (@fst score (doc num)).

(** A record with a list that does not pass the test never stops the
    scan; one that does not pass the test can only stop it by a null
    embedding. *)
Lemma unusable_stop :
  forall q d,
    usable q d = false ->
    stop_exn q d
    = match embedding d with
      | Some _ => None
      | None => Some (Exn TypeError UNSIZED)
      end.
Proof.
  intros q d U. unfold AppSpec.stop_exn. rewrite U.
  destruct (embedding d); reflexivity.
Qed.

(** On a corpus of lists where the cosine computation raises nothing but
    ValueError, no record stops the scan. *)
Lemma lists_no_stop :
  forall q docs,
    (forall d, In d docs -> embedding d <> None) ->
    only_value_errors cosine_similarity q docs ->
    forall d, In d docs -> stop_exn q d = None.
Proof.
  intros q docs Hlists Hv d Hin.
  destruct (stop_exn q d) as [e|] eqn:E; [|reflexivity].
  destruct (@AppFacts.stop_is_null num score cosine_similarity q docs d e
              Hv Hin E) as [Hnull _].
  destruct (Hlists d Hin Hnull).
Qed.

Lemma scan_lists :
  forall docs q sims tr,
    (forall d, In d docs -> embedding d <> None) ->
    only_value_errors cosine_similarity q docs ->
    scan q sims docs tr
    = (inr (sims ++ candidates q docs), tr ++ warnings q docs).
Proof.
  intros docs q sims tr Hlists Hv.
  apply AppFacts.scan_through. apply lists_no_stop; assumption.
Qed.

Lemma candidate_usable :
  forall q d r, In r (candidate q d) -> usable q (snd r) = true.
Proof.
  intros q d r. unfold AppSpec.candidate.
  destruct (embedding d) as [v|] eqn:E; [|intros []].
  destruct (usable q d) eqn:U; [|intros []].
  destruct (cosine_similarity q v); [intros []|].
  intros [<-|[]]. exact U.
Qed.

Lemma candidates_usable :
  forall q docs r, In r (candidates q docs) -> usable q (snd r) = true.
Proof.
  intros q docs r H. unfold AppSpec.candidates in H.
  apply in_flat_map in H as (d & _ & Hr).
  eapply candidate_usable; eauto.
Qed.

Lemma candidates_none :
  forall q docs,
    (forall d, In d docs -> usable q d = false) -> candidates q docs = [].
Proof.
  intros q docs H. unfold AppSpec.candidates.
  induction docs as [|d docs IH]; [reflexivity|].
  cbn [flat_map]. rewrite IH by (intros d' Hd'; apply H; right; exact Hd').
  unfold AppSpec.candidate. rewrite (H d) by (left; reflexivity).
  destruct (embedding d); reflexivity.
Qed.

Lemma slice_to_nil :
  forall (A : Type) k, slice_to k (@nil A) = [].
Proof.
  intros A k. unfold slice_to. destruct (0 <=? k)%Z; apply firstn_nil.
Qed.

(** Nothing passes the test and every record has a list: the search
    returns the empty sequence after one warning per record. *)
Lemma search_none_valid :
  forall docs q top_k tr,
    (forall d, In d docs -> usable q d = false) ->
    (forall d, In d docs -> embedding d <> None) ->
    get_relevant_documents docs q top_k tr
    = (inr [], tr ++ warnings q docs).
Proof.
  intros docs q top_k tr Hnone Hlists.
  unfold App.get_relevant_documents, bind.
  rewrite AppFacts.scan_through.
  - rewrite (candidates_none q docs Hnone).
    cbn [app list_sort rev sort_asc ret]. rewrite slice_to_nil.
    reflexivity.
  - intros d Hin. rewrite (unusable_stop q d (Hnone d Hin)).
    destruct (embedding d) eqn:E; [reflexivity|].
    destruct (Hlists d Hin E).
Qed.

(** C3 (the code departs from it): when no record of the corpus passes the
    embedding test, the search returns the empty sequence, after one
    warning per record, only if every record has a list for embedding.  If
    one record has a null embedding the search raises the TypeError of
    [len] on an unsized array instead, for every query vector and every k:
    the empty sequence is then not returned as an ordinary result. *)
Theorem no_valid_record_raises :
  forall docs q top_k tr,
    (forall d, In d docs -> usable q d = false) ->
    ((forall d, In d docs -> embedding d <> None) ->
     get_relevant_documents docs q top_k tr
     = (inr [], tr ++ warnings q docs))
    /\ (forall d,
           In d docs -> embedding d = None ->
           exists tr',
             get_relevant_documents docs q top_k tr
             = (inl (Exn TypeError UNSIZED), tr')).
Proof.
  intros docs q top_k tr Hnone. split.
  - intro Hlists. apply search_none_valid; assumption.
  - intros d Hin Hnull.
    destruct (@AppFacts.first_stop num score cosine_similarity q docs d Hin
                (@AppFacts.null_stops num score cosine_similarity q d Hnull))
      as (pre & d0 & post & e & Hdocs & Hpre & Hd0).
    assert (Hin0 : In d0 docs)
      by (rewrite Hdocs; apply in_or_app; right; left; reflexivity).
    pose proof Hd0 as Hkind.
    rewrite (unusable_stop q d0 (Hnone d0 Hin0)) in Hkind.
    destruct (embedding d0); [discriminate|]. injection Hkind as <-.
    unfold App.get_relevant_documents, bind. rewrite Hdocs.
    rewrite (@AppFacts.scan_stopped num score cosine_similarity pre q []
               tr d0 post (Exn TypeError UNSIZED) Hpre Hd0).
    eauto.
Qed.

(** On a corpus whose records all have a list for embedding and on which
    the cosine computation raises nothing but ValueError, for every query
    vector and every top_k that is not negative (5 when the argument is
    left out), and with similarity scores that [<] orders as numbers (a
    strict weak order), the search returns, as an ordinary result, the
    first top_k elements of a ranking of the candidate set that is in
    descending similarity with ties in corpus order.  So the result has at
    most top_k matches, is in descending similarity, keeps ties in corpus
    order, holds only records that pass the embedding test, and is empty
    when no record passes it. *)
Theorem ranked_search :
  forall docs q top_k tr,
    (forall d, In d docs -> embedding d <> None) ->
    only_value_errors cosine_similarity q docs ->
    (0 <= effective_k top_k)%Z ->
    (forall a b, lt a b = true -> lt b a = false) ->
    (forall a b c, lt a c = true -> lt a b = true \/ lt b c = true) ->
    exists ranking result,
      get_relevant_documents docs q top_k tr
      = (inr result, tr ++ warnings q docs)
      /\ result = firstn (Z.to_nat (effective_k top_k)) ranking
      /\ effective_k None = 5%Z
      /\ Permutation (candidates q docs) ranking
      /\ StronglySorted (desc by_score lt) ranking
      /\ (forall s,
             filter (ties by_score lt s) ranking
             = filter (ties by_score lt s) (candidates q docs))
      /\ (Z.of_nat (length result) <= effective_k top_k)%Z
      /\ StronglySorted (desc by_score lt) result
      /\ (forall s, exists later,
             filter (ties by_score lt s) (candidates q docs)
             = filter (ties by_score lt s) result ++ later)
      /\ Forall (fun r => usable q (snd r) = true) result
      /\ ((forall d, In d docs -> usable q d = false) -> result = []).
Proof.
  intros docs q top_k tr Hlists Hv Hk Hasym Hneg.
  set (k := Z.to_nat (effective_k top_k)).
  exists (list_sort by_score lt true (candidates q docs)).
  exists (firstn k (list_sort by_score lt true (candidates q docs))).
  assert (P : Permutation (candidates q docs)
                (list_sort by_score lt true (candidates q docs)))
    by apply SortFacts.list_sort_perm.
  assert (S : StronglySorted (desc by_score lt)
                (list_sort by_score lt true (candidates q docs)))
    by (apply SortFacts.list_sort_reverse_sorted; assumption).
  assert (T : forall s,
             filter (ties by_score lt s)
               (list_sort by_score lt true (candidates q docs))
             = filter (ties by_score lt s) (candidates q docs))
    by (intro s; apply SortFacts.list_sort_reverse_stable; assumption).
  repeat split; try assumption.
  - unfold App.get_relevant_documents, bind.
    rewrite scan_lists by assumption. cbn [app].
    unfold ret, slice_to. fold (effective_k top_k).
    apply Z.leb_le in Hk. rewrite Hk. reflexivity.
  - pose proof (firstn_le_length k
                  (list_sort by_score lt true (candidates q docs))) as L.
    apply Nat2Z.inj_le in L. unfold k in L at 2.
    rewrite Z2Nat.id in L by exact Hk. exact L.
  - apply SortFacts.firstn_sorted. exact S.
  - intro s. rewrite <- T. eexists. apply SortFacts.firstn_filter_prefix.
  - apply Forall_forall. intros r Hr.
    apply (candidates_usable q docs).
    apply (Permutation_in _ (Permutation_sym P)).
    rewrite <- (firstn_skipn k (list_sort _ _ _ _)).
    apply in_or_app. left. exact Hr.
  - intro Hnone. rewrite (candidates_none q docs Hnone).
    cbn [list_sort rev sort_asc app]. apply firstn_nil.
Qed.

End WithSimilarity.

(** From the request to the answer: over a loaded corpus in which no
    record passes the embedding test (every record has a list, empty or of
    another dimension), a request with a non-blank query is answered with
    status 200, a text that begins with the not-found message around the
    query, and no document description. *)
Lemma request_without_candidates :
  forall num score (cosine_similarity : list num -> list num -> exn + score)
         lt percent embed_content generate_content
         (d : doc num) ds data query qe tr,
    query_of data = inr query -> truthy query = true ->
    embed_content query = inr qe ->
    (forall d', In d' (d :: ds) -> embedding d' <> None) ->
    (forall d', In d' (d :: ds) -> usable qe d' = false) ->
    exists text tr',
      handle_analyze_coverage cosine_similarity lt percent embed_content
        generate_content (d :: ds) (inr data) tr
      = (inr (Response
                (json_of_result
                   (CoverageResult
                      (NOT_FOUND ++ query ++ NOT_FOUND_CLOSE ++ text) []))
                200),
         tr').
Proof.
  intros num score cosine_similarity lt percent embed_content
    generate_content d ds data query qe tr Hq Ht He Hlists Hnone.
  unfold handle_analyze_coverage, generate_embedding, call_embed_content.
  cbv [lift bind ret log try_except].
  rewrite Hq, Ht. cbn [negb]. rewrite He.
  rewrite (@search_none_valid num score cosine_similarity lt (d :: ds) qe
             (Some 5%Z) _ Hnone Hlists).
  set (none := @nil (ranked num score)).
  destruct (generate_content (prompt_of percent query none)
              (temperature_of none)) as [e|text] eqn:G.
  - rewrite (HandlerFacts.analyze_model_failure percent generate_content
               d ds query none _ G).
    exists (skipn 3 NOT_FOUND_FAILED). eexists. reflexivity.
  - rewrite (HandlerFacts.analyze_model_answer percent generate_content
               d ds query none _ G).
    exists (skipn 3 NOT_FOUND_TOPICS ++ text). eexists. reflexivity.
Qed.

Lemma no_valid_record_raises_witness :
  exists tr',
    App.get_relevant_documents Samples.dot_product Z.ltb
      [Samples.doc_short; Samples.doc_null] [1%Z; 0%Z] (Some 5%Z) []
    = (inl (Exn TypeError UNSIZED), tr').
Proof.
  refine (proj2 (@no_valid_record_raises Z Z Samples.dot_product Z.ltb
                   [Samples.doc_short; Samples.doc_null] [1%Z; 0%Z]
                   (Some 5%Z) [] _)
            Samples.doc_null _ _).
  - intros d [<-|[<-|[]]]; reflexivity.
  - right. left. reflexivity.
  - reflexivity.
Defined.

Lemma ranked_search_witness :
  exists ranking result tr',
    App.get_relevant_documents Samples.dot_product Z.ltb
      [Samples.doc_a; Samples.doc_short; Samples.doc_b; Samples.doc_c]
      [1%Z; 0%Z] (Some 2%Z) []
    = (inr result, tr')
    /\ result = firstn 2 ranking
    /\ StronglySorted (desc fst Z.ltb) result.
Proof.
  destruct (@ranked_search Z Z Samples.dot_product Z.ltb
              [Samples.doc_a; Samples.doc_short; Samples.doc_b;
               Samples.doc_c]
              [1%Z; 0%Z] (Some 2%Z) [])
    as (ranking & result & H1 & H2 & _ & _ & _ & _ & _ & H8 & _).
  - intros d [<-|[<-|[<-|[<-|[]]]]]; discriminate.
  - intros d v e _ _ H. discriminate H.
  - vm_compute. discriminate.
  - intros a b H. apply Z.ltb_lt in H. apply Z.ltb_ge. lia.
  - intros a b c H. apply Z.ltb_lt in H.
    destruct (Z.ltb a b) eqn:E; [left; reflexivity|].
    right. apply Z.ltb_ge in E. apply Z.ltb_lt. lia.
  - exists ranking, result. eexists. split; [exact H1|]. split; assumption.
Defined.

End SearchFacts.

(** ** The slug *)

Module SlugFacts.
Import PyStr Re Extract ExtractSpec.

Lemma dropwhile_length :
  forall p s, length (dropwhile p s) <= length s.
Proof.
  induction s as [|c s IH]; simpl; [lia|].
  destruct (p c); simpl; lia.
Qed.

Lemma squeeze_run :
  forall s, squeeze true s = squeeze false (dropwhile is_junk s).
Proof.
  induction s as [|c s IH]; [reflexivity|].
  simpl. destruct (is_junk c) eqn:E; [exact IH|].
  simpl. rewrite E. reflexivity.
Qed.

(** *** The substitution of the slug pattern is [squeeze] *)

Section Greedy.
Variable cs : list (nat * str).

(** After at least one character, the greedy repetition takes the whole
    run and succeeds. *)
Lemma greedy_run :
  forall s pv ac,
    ac <> [] ->
    exists st,
      rep_greedy is_junk (fun st => Some st) cs 0 pv ac s = Some st
      /\ acc st <> [] /\ rest st = dropwhile is_junk s.
Proof.
  induction s as [|c s IH]; intros pv ac Hac.
  - eexists. split; [reflexivity|]. split; [exact Hac|reflexivity].
  - cbn [rep_greedy dropwhile]. destruct (is_junk c) eqn:E.
    + destruct (IH (Some c) (c :: ac)) as (st & Hst & Ha & Hr);
        [discriminate|].
      cbn [pred]. rewrite Hst. exists st. repeat split; assumption.
    + eexists. split; [reflexivity|]. split; [exact Hac|reflexivity].
Qed.
End Greedy.

Lemma match_junk :
  forall c s pv,
    is_junk c = true ->
    exists st,
      match_at slug_junk_re pv (c :: s) = Some st
      /\ acc st <> [] /\ rest st = dropwhile is_junk s.
Proof.
  intros c s pv E. unfold match_at, slug_junk_re.
  change (fun c0 : char => negb (is_slug_alnum c0)) with is_junk.
  cbn [exec prev acc rest caps rep_greedy]. rewrite E.
  destruct (greedy_run [] s (Some c) (ac := [c])) as (st & Hst & Ha & Hr);
    [discriminate|].
  cbn [pred]. rewrite Hst. exists st. repeat split; assumption.
Qed.

Lemma match_not_junk :
  forall c s pv,
    is_junk c = false -> match_at slug_junk_re pv (c :: s) = None.
Proof.
  intros c s pv E. unfold match_at, slug_junk_re.
  change (fun c0 : char => negb (is_slug_alnum c0)) with is_junk.
  cbn [exec prev acc rest caps rep_greedy]. rewrite E.
  reflexivity.
Qed.

Lemma sub_squeeze_step :
  forall n,
    (forall s pv, length s < n ->
                  sub_fuel n slug_junk_re [HYPHEN] pv s = squeeze false s) ->
    forall s pv, length s < S n ->
                 sub_fuel (S n) slug_junk_re [HYPHEN] pv s = squeeze false s.
Proof.
  intros n IHn. induction s as [|c s IH]; intros pv L.
  - reflexivity.
  - cbn [sub_fuel search_from squeeze].
    destruct (is_junk c) eqn:E.
    + destruct (match_junk c s pv E) as (st & Hst & Ha & Hr).
      rewrite Hst. cbn [app].
      destruct (acc st) as [|a ac]; [congruence|].
      rewrite Hr, IHn, squeeze_run; [reflexivity|].
      pose proof (dropwhile_length is_junk s). simpl in L. lia.
    + rewrite (match_not_junk c s pv E).
      assert (L' : length s < S n) by (simpl in L; lia).
      specialize (IH (Some c) L'). cbn [sub_fuel] in IH.
      destruct (search_from slug_junk_re (Some c) s) as [[sk st]|].
      * cbn [app]. f_equal. exact IH.
      * f_equal. exact IH.
Qed.

Lemma sub_fuel_squeeze :
  forall n s pv,
    length s < n -> sub_fuel n slug_junk_re [HYPHEN] pv s = squeeze false s.
Proof.
  induction n as [|n IH]; intros s pv L; [lia|].
  apply sub_squeeze_step; assumption.
Qed.

(** The substitution of the source and the wording of the specification
    agree. *)
Lemma sub_squeeze :
  forall s, sub slug_junk_re [HYPHEN] s = squeeze false s.
Proof.
  intro s. unfold sub. apply sub_fuel_squeeze. lia.
Qed.

Lemma slugify_by_words :
  forall tbl s, slugify tbl s = slug_by_words tbl s.
Proof.
  intros tbl s. unfold slugify, slug_by_words. rewrite sub_squeeze.
  reflexivity.
Qed.

(** *** What [strip] leaves *)

Lemma dropwhile_suffix :
  forall p s, exists pre, s = pre ++ dropwhile p s.
Proof.
  induction s as [|c s [pre IH]]; [exists []; reflexivity|].
  simpl. destruct (p c).
  - exists (c :: pre). simpl. f_equal. exact IH.
  - exists []. reflexivity.
Qed.

Lemma strip_by_infix :
  forall p s, exists pre post, s = pre ++ strip_by p s ++ post.
Proof.
  intros p s. unfold strip_by.
  destruct (dropwhile_suffix p s) as [pre Hpre].
  destruct (dropwhile_suffix p (rev (dropwhile p s))) as [pre2 Hpre2].
  exists pre, (rev pre2).
  rewrite <- rev_app_distr, <- Hpre2, rev_involutive. exact Hpre.
Qed.

Lemma dropwhile_clean :
  forall p s, starts_clean p (dropwhile p s).
Proof.
  induction s as [|c s IH]; simpl; [exact I|].
  destruct (p c) eqn:E; [exact IH|exact E].
Qed.

Lemma dropwhile_id :
  forall p s, starts_clean p s -> dropwhile p s = s.
Proof.
  intros p [|c s] H; simpl in *; [reflexivity|]. rewrite H. reflexivity.
Qed.

Lemma strip_by_clean :
  forall p s,
    starts_clean p (strip_by p s) /\ starts_clean p (rev (strip_by p s)).
Proof.
  intros p s. split.
  - pose proof (dropwhile_clean p s) as Hd. unfold strip_by.
    destruct (dropwhile_suffix p (rev (dropwhile p s))) as [pre2 Hpre2].
    apply (f_equal (@rev char)) in Hpre2.
    rewrite rev_involutive, rev_app_distr in Hpre2.
    destruct (rev (dropwhile p (rev (dropwhile p s)))) as [|c t];
      [exact I|].
    rewrite Hpre2 in Hd. exact Hd.
  - unfold strip_by. rewrite rev_involutive. apply dropwhile_clean.
Qed.

Lemma strip_by_idempotent :
  forall p s, strip_by p (strip_by p s) = strip_by p s.
Proof.
  intros p s. destruct (strip_by_clean p s) as [H1 H2].
  unfold strip_by at 1.
  rewrite (dropwhile_id p _ H1), (dropwhile_id p _ H2).
  apply rev_involutive.
Qed.

(** *** The shape of a slug *)

Lemma squeeze_chars :
  forall s b, Forall (fun c => slug_char c = true) (squeeze b s).
Proof.
  induction s as [|c s IH]; intro b; simpl; [constructor|].
  destruct (is_junk c) eqn:E.
  - destruct b; [apply IH|]. constructor; [reflexivity|apply IH].
  - constructor; [|apply IH].
    unfold slug_char. unfold is_junk in E.
    apply negb_false_iff in E. rewrite E. reflexivity.
Qed.

Lemma squeeze_tidy :
  forall s b, tidy b (squeeze b s) = true.
Proof.
  induction s as [|c s IH]; intro b; simpl; [reflexivity|].
  destruct (is_junk c) eqn:E.
  - destruct b; [apply IH|].
    simpl. change (is_junk HYPHEN) with true. simpl. apply IH.
  - simpl. rewrite E. apply IH.
Qed.

Lemma tidy_weaken :
  forall s b, tidy b s = true -> tidy false s = true.
Proof.
  intros [|c s] b H; simpl in *; [reflexivity|].
  destruct (is_junk c); [|exact H].
  apply andb_true_iff in H as [_ H]. exact H.
Qed.

Lemma tidy_app :
  forall l1 l2 b,
    tidy b (l1 ++ l2) = true -> tidy b l1 = true /\ tidy false l2 = true.
Proof.
  induction l1 as [|c l1 IH]; intros l2 b H.
  - split; [reflexivity|]. eapply tidy_weaken. exact H.
  - simpl in *. destruct (is_junk c).
    + apply andb_true_iff in H as [Hb H].
      destruct (IH l2 true H) as [H1 H2]. rewrite Hb, H1. auto.
    + apply IH. exact H.
Qed.

Lemma junk_slug_char :
  forall c, slug_char c = true -> is_junk c = true -> c = HYPHEN.
Proof.
  intros c Hs Hj. unfold slug_char in Hs. unfold is_junk in Hj.
  apply negb_true_iff in Hj. rewrite Hj in Hs. simpl in Hs.
  apply N.eqb_eq in Hs. exact Hs.
Qed.

(** A text in the shape of a slug is left as it is by the replacement. *)
Lemma squeeze_fix :
  forall s b,
    tidy b s = true -> Forall (fun c => slug_char c = true) s ->
    squeeze b s = s.
Proof.
  induction s as [|c s IH]; intros b T F; [reflexivity|].
  apply Forall_cons_iff in F as [Fc Fs]. simpl in *.
  destruct (is_junk c) eqn:E.
  - apply andb_true_iff in T as [Tb T].
    apply negb_true_iff in Tb. subst b.
    rewrite (junk_slug_char c Fc E). f_equal. apply IH; assumption.
  - f_equal. apply IH; assumption.
Qed.

Lemma slug_char_ascii :
  forall c, slug_char c = true -> (c <? 128)%N = true /\ lower_ascii c = c.
Proof.
  intros c H. unfold slug_char, is_slug_alnum, is_hyphen, eqb_char, HYPHEN
    in H.
  unfold lower_ascii.
  destruct ((65 <=? c)%N && (c <=? 90)%N) eqn:U.
  - exfalso. apply andb_true_iff in U as [U1 U2].
    apply N.leb_le in U1, U2.
    repeat (apply orb_true_iff in H as [H|H]).
    + apply andb_true_iff in H as [H _]. apply N.leb_le in H. lia.
    + apply andb_true_iff in H as [_ H]. apply N.leb_le in H. lia.
    + apply N.eqb_eq in H. lia.
  - split; [|reflexivity]. apply N.ltb_lt.
    repeat (apply orb_true_iff in H as [H|H]).
    + apply andb_true_iff in H as [_ H]. apply N.leb_le in H. lia.
    + apply andb_true_iff in H as [_ H]. apply N.leb_le in H. lia.
    + apply N.eqb_eq in H. lia.
Qed.

(** Lower-casing leaves a text of slug characters as it is, whatever the
    Unicode table. *)
Lemma lower_slug_chars :
  forall tbl s,
    Forall (fun c => slug_char c = true) s -> lower tbl s = s.
Proof.
  intros tbl s F. unfold lower. generalize (@nil char) as seen.
  induction F as [|c s Hc F IH]; intro seen; [reflexivity|].
  cbn [lower_from]. destruct (slug_char_ascii c Hc) as [H1 H2].
  rewrite H1, H2. cbn [app]. f_equal. apply IH.
Qed.

Lemma slug_shape :
  forall tbl s,
    tidy false (slug_by_words tbl s) = true
    /\ Forall (fun c => slug_char c = true) (slug_by_words tbl s).
Proof.
  intros tbl s. unfold slug_by_words.
  set (u := squeeze false (lower tbl s)).
  destruct (strip_by_infix is_hyphen u) as (pre & post & Hu).
  pose proof (squeeze_tidy (lower tbl s) false) as T.
  pose proof (squeeze_chars (lower tbl s) false) as F.
  fold u in T, F. rewrite Hu in T, F. split.
  - apply tidy_app in T as [_ T]. apply tidy_app in T as [T _]. exact T.
  - apply Forall_app in F as [_ F]. apply Forall_app in F as [F _].
    exact F.
Qed.

(** C9: slug generation is idempotent: a slug, that is the result of
    lower-casing a text, replacing every run of non-alphanumeric characters
    with one hyphen and trimming the hyphens at both ends, is left
    unchanged when it is made into a slug again, whatever the Unicode
    lower-casing table; and the expression of the source computes the slug
    as worded. *)
Theorem slugify_idempotent :
  forall tbl s,
    slugify tbl (slugify tbl s) = slugify tbl s
    /\ slugify tbl s = slug_by_words tbl s.
Proof.
  intros tbl s. split; [|apply slugify_by_words].
  rewrite !slugify_by_words.
  destruct (slug_shape tbl s) as [T F].
  unfold slug_by_words at 1.
  rewrite (lower_slug_chars tbl F), (squeeze_fix _ T F).
  unfold slug_by_words. apply strip_by_idempotent.
Qed.

End SlugFacts.

(** ** The annotation marker *)

Module MarkerFacts.
Import PyStr Re Extract ExtractSpec.

Lemma match_markup :
  forall pv s,
    found (match_at markup_re pv s)
    = at_bol pv && starts_with_markup s.
Proof.
  intros pv s. unfold match_at, markup_re. cbn [exec prev rest acc caps].
  destruct (at_bol pv); [|reflexivity].
  destruct s as [|c s]; [reflexivity|].
  cbn [starts_with_markup andb]. destruct (is_markup c); reflexivity.
Qed.

Lemma lines_nonempty : forall s, lines s <> [].
Proof.
  intros [|c s]; simpl; [discriminate|].
  destruct (eqb_char c NL); [discriminate|].
  destruct (lines s); discriminate.
Qed.

(** The pattern is found exactly when a line begins with one of the four
    characters: the first line counts when the search starts at the start
    of a line. *)
Lemma search_markup_from :
  forall s pv,
    found (search_from markup_re pv s)
    = at_bol pv && starts_with_markup (hd [] (lines s))
      || existsb starts_with_markup (tl (lines s)).
Proof.
  induction s as [|c s IH]; intro pv.
  - cbn [search_from]. pose proof (match_markup pv []) as M.
    destruct (match_at markup_re pv []); simpl in *;
      rewrite andb_false_r in *; [discriminate|reflexivity].
  - cbn [search_from]. pose proof (match_markup pv (c :: s)) as M.
    specialize (IH (Some c)). cbn [at_bol] in IH.
    cbn [lines].
    destruct (eqb_char c NL) eqn:E.
    + apply N.eqb_eq in E. subst c.
      change (starts_with_markup (NL :: s)) with false in M.
      rewrite andb_false_r in M.
      destruct (match_at markup_re pv (NL :: s)); [discriminate|].
      cbn [hd tl starts_with_markup]. rewrite andb_false_r. cbn [orb].
      destruct (lines s) as [|l ls] eqn:L; [destruct (lines_nonempty _ L)|].
      cbn [hd tl existsb andb] in *.
      destruct (search_from markup_re (Some NL) s) as [[sk st]|];
        exact IH.
    + destruct (lines s) as [|l ls] eqn:L; [destruct (lines_nonempty _ L)|].
      cbn [hd tl existsb andb orb starts_with_markup] in *.
      destruct (match_at markup_re pv (c :: s)).
      * cbn [found] in *. rewrite <- M. reflexivity.
      * cbn [found] in M. rewrite <- M. cbn [orb].
        destruct (search_from markup_re (Some c) s) as [[sk st]|];
          exact IH.
Qed.

Lemma search_markup :
  forall s, found (search markup_re s) = has_markup_line s.
Proof.
  intro s. unfold search, has_markup_line.
  rewrite search_markup_from. cbn [at_bol andb].
  destruct (lines s) as [|l ls] eqn:L; [destruct (lines_nonempty _ L)|].
  reflexivity.
Qed.

Lemma split_once_at_start :
  forall tail, split_once MARKER (MARKER ++ tail) = [[]; tail].
Proof. intro tail. reflexivity. Qed.

(** C6 (amended): a body in which no metadata block is found is returned
    as it is, marker included.  When a metadata block is found and the text
    that remains after its removal (trimmed of white space) begins with
    three colons, nothing stands before the marker, and with the text that
    follows the marker trimmed of white space at both ends: if that trimmed
    text has more than 100 characters or has a line beginning with one of
    the four structural characters, the content is exactly that trimmed
    text; otherwise the content is the text before the marker, which is
    empty. *)
Theorem marker_heuristic :
  forall full,
    (has_metadata full = false -> cleaned full = full)
    /\ (has_metadata full = true ->
        startswith MARKER (without_metadata full) = true ->
        exists tail,
          without_metadata full = [] ++ MARKER ++ tail
          /\ cleaned full
             = if keeps_tail (strip tail) then strip tail else []).
Proof.
  intro full.
  unfold has_metadata, without_metadata, cleaned,
    extract_metadata_and_clean_content.
  destruct (search metadata_block_re full) as [[sk m]|]; split;
    try discriminate; try reflexivity.
  intros _ Hstart. cbn [snd].
  set (remaining := strip (replace_first (group 1 m) [] full)) in *.
  rewrite Hstart.
  exists (skipn (length MARKER) remaining).
  pose proof (StripFacts.startswith_app _ _ Hstart) as Hrem.
  split; [exact Hrem|].
  rewrite Hrem at 1. rewrite split_once_at_start.
  unfold keeps_tail. rewrite <- search_markup.
  destruct (search markup_re _); reflexivity.
Qed.

Lemma marker_heuristic_witness :
  exists tail,
    without_metadata Samples.metadata_marker_body = [] ++ MARKER ++ tail
    /\ cleaned Samples.metadata_marker_body
       = if keeps_tail (strip tail) then strip tail else [].
Proof.
  apply (proj2 (marker_heuristic Samples.metadata_marker_body)).
  - vm_compute. reflexivity.
  - vm_compute. reflexivity.
Defined.

(** C6 as stated fails in two ways.  A body without metadata block that
    begins with the marker is returned whole: the content is neither the
    text after the marker, trimmed or not, nor the text before it.  And
    after a metadata block, a marker followed by a space and a heading
    yields the heading, although the text that follows the marker, taken as
    it is, has fewer than 100 characters and no line beginning with a
    structural character. *)
Lemma marker_claim_fails :
  (startswith MARKER (without_metadata Samples.marker_body) = true
   /\ cleaned Samples.marker_body = Samples.marker_body
   /\ cleaned Samples.marker_body <> skipn 3 Samples.marker_body
   /\ cleaned Samples.marker_body <> strip (skipn 3 Samples.marker_body)
   /\ cleaned Samples.marker_body <> [])
  /\ (startswith MARKER (without_metadata Samples.metadata_marker_body)
      = true
      /\ keeps_tail (skipn 3 (without_metadata Samples.metadata_marker_body))
         = false
      /\ cleaned Samples.metadata_marker_body <> []).
Proof.
  repeat split; try (vm_compute; reflexivity);
    vm_compute; discriminate.
Qed.

End MarkerFacts.

(** ** Worked examples *)

Module Examples.
Import PyStr Py.

(** Two failures, then an answer: the vector comes back after pauses of 1
    and 2 seconds. *)
Example third_attempt_succeeds :
  Embed.generate_embedding_with_retry Samples.batch_third (lit "t") []
  = (Some [1%Z], EmbedSpec.three_attempts (lit "t")).
Proof. reflexivity. Qed.

(** A record with nothing to embed gets a null embedding without any
    call, and the next record is processed. *)
Example blank_record_skipped :
  Embed.generate_embeddings_for_docs Samples.batch_third
    [Samples.raw_blank; Samples.raw_a] []
  = (Some [Embed.set_embedding Samples.raw_blank None;
           Embed.set_embedding Samples.raw_a (Some [1%Z])],
     EmbedSpec.three_attempts (EmbedSpec.embedding_text Samples.raw_a)).
Proof. vm_compute. reflexivity. Qed.

(** A record of another dimension is skipped with one warning; the others
    are ranked by descending similarity. *)
Example mismatch_skipped_with_warning :
  App.get_relevant_documents Samples.dot_product Z.ltb
    [Samples.doc_a; Samples.doc_short; Samples.doc_b] [1%Z; 0%Z] None []
  = (inr [(2%Z, Samples.doc_b); (1%Z, Samples.doc_a)],
     [App.Logged App.WARNING
        (App.LOG_SKIP_1 ++ title Samples.doc_short ++ App.LOG_SKIP_2)]).
Proof. vm_compute. reflexivity. Qed.

(** Equal similarities stay in corpus order. *)
Example ties_in_corpus_order :
  fst (App.get_relevant_documents Samples.dot_product Z.ltb
         [Samples.doc_a; Samples.doc_b; Samples.doc_c] [1%Z; 0%Z] None [])
  = inr [(2%Z, Samples.doc_b); (1%Z, Samples.doc_a); (1%Z, Samples.doc_c)].
Proof. vm_compute. reflexivity. Qed.

(** A request over a corpus with a null embedding ends in the handler's
    except clause: status 500. *)
Example null_embedding_request :
  exists body tr,
    App.handle_analyze_coverage Samples.dot_product Z.ltb Samples.no_percent
      Samples.embed_ok Samples.generate_ok
      [Samples.doc_a; Samples.doc_null] (inr Samples.query_x) []
    = (inr (App.Response body 500), tr).
Proof. do 2 eexists. vm_compute. reflexivity. Qed.

(** The model is down: the answer still has status 200. *)
Example model_down_request :
  exists body tr,
    App.handle_analyze_coverage Samples.dot_product Z.ltb Samples.no_percent
      Samples.embed_ok Samples.generate_down
      [Samples.doc_a] (inr Samples.query_x) []
    = (inr (App.Response body 200), tr).
Proof. do 2 eexists. vm_compute. reflexivity. Qed.

(** A corpus file that holds the number 5: the global is replaced by the
    number, the length cannot be taken, and the function returns False
    after logging the error. *)
Example number_file_not_loaded :
  AppLoad.load_documentation
    (AppLoad.Decoded (@AppLoad.Other Z (lit "int") None))
    AppLoad.INITIAL_DOCS []
  = (inr (false, AppLoad.Other (lit "int") None),
     [App.Logged App.ERROR
        (AppLoad.LOG_UNEXPECTED
           ++ lit "object of type 'int' has no len()")]).
Proof. vm_compute. reflexivity. Qed.

(** A cosine computation that raises an exception other than ValueError
    on the second record: the search raises it, after no warning. *)
Example overflow_leaves_the_search :
  App.get_relevant_documents
    (fun u v => if (nth 0 v 0 =? 2)%Z
                then inl (Exn OtherError (lit "overflow"))
                else Samples.dot_product u v)
    Z.ltb [Samples.doc_a; Samples.doc_b; Samples.doc_c] [1%Z; 0%Z] None []
  = (inl (Exn OtherError (lit "overflow")), []).
Proof. vm_compute. reflexivity. Qed.

(** An unparseable body is answered with status 400, a body that is a
    list with status 500. *)
Example unparseable_body_rejected :
  App.analyze_coverage_route Samples.dot_product Z.ltb Samples.no_percent
    Samples.embed_ok Samples.generate_ok [Samples.doc_a]
    (App.get_json (App.NotJson (lit "400 Bad Request"))) []
  = (App.ErrorResponse 400, []).
Proof. reflexivity. Qed.

Example list_body_raises :
  App.handle_analyze_coverage Samples.dot_product Z.ltb Samples.no_percent
    Samples.embed_ok Samples.generate_ok [Samples.doc_a]
    (inr (JArr [])) []
  = (inl (Exn AttributeError (lit "'list' object has no attribute 'get'")),
     []).
Proof. vm_compute. reflexivity. Qed.

(** Slugs of a title with capitals, accents and punctuation. *)
Example slug_of_title :
  forall tbl,
    Extract.slugify tbl (lit "  Hello, World -- 2nd_Edition! ")
    = lit "hello-world-2nd-edition".
Proof. intro tbl. vm_compute. reflexivity. Qed.

End Examples.

(** ** More on the embedding pipeline *)

Module EmbedMore.
Import PyStr Py Embed EmbedSpec EmbedCost.

Lemma slept_app :
  forall w evs, slept (w ++ evs) = slept w + slept evs.
Proof.
  induction w as [|[t|n] w IH]; intro evs; simpl; [reflexivity| |];
    rewrite IH; lia.
Qed.

Section WithService.
Variable num : Type.
Variable embed_content : nat -> str -> exn + list num.

#[local] Abbreviation retry := (generate_embedding_with_retry embed_content).
#[local] Abbreviation loop_body := (loop_body embed_content).
#[local] Abbreviation docs_loop := (docs_loop embed_content).
#[local] Abbreviation fails := (fails embed_content).

Ltac step :=
  cbv [generate_embedding_with_retry retry_loop seq bind call_embed sleep ret
       Nat.ltb Nat.leb Nat.sub Nat.pow Nat.mul Nat.add].

Lemma retry_at_first :
  forall text w v,
    embed_content (calls w) text = inr v ->
    retry text w = (Some v, w ++ [Called text]).
Proof. intros text w v Hv. step. rewrite Hv. reflexivity. Qed.

Lemma retry_at_second :
  forall text w v,
    fails (calls w) text ->
    embed_content (S (calls w)) text = inr v ->
    retry text w = (Some v, w ++ [Called text; Slept 1; Called text]).
Proof.
  intros text w v [e0 H0] Hv. step.
  rewrite H0, EmbedFacts.calls_slept, EmbedFacts.calls_called, Hv.
  repeat rewrite <- app_assoc. reflexivity.
Qed.

Lemma retry_at_third :
  forall text w v,
    fails (calls w) text -> fails (S (calls w)) text ->
    embed_content (S (S (calls w))) text = inr v ->
    retry text w = (Some v, w ++ three_attempts text).
Proof.
  intros text w v [e0 H0] [e1 H1] Hv. step.
  rewrite H0, EmbedFacts.calls_slept, EmbedFacts.calls_called, H1.
  rewrite EmbedFacts.calls_slept, EmbedFacts.calls_called,
    EmbedFacts.calls_slept, EmbedFacts.calls_called, Hv.
  unfold three_attempts. repeat rewrite <- app_assoc. reflexivity.
Qed.

(** The function returns the vector of the first attempt that succeeds
    among three: after [i] failures it has made [i + 1] calls, with the
    pauses of 1 and then 2 seconds between them and none after the last
    call. *)
Theorem retry_first_success :
  forall text w i v,
    i < 3 ->
    (forall j, j < i -> fails (calls w + j) text) ->
    embed_content (calls w + i) text = inr v ->
    retry text w = (Some v, w ++ firstn (2 * i + 1) (three_attempts text)).
Proof.
  intros text w i v Hi Hf Hv.
  assert (F0 : 0 < i -> fails (calls w) text).
  { intro L. specialize (Hf 0 L). rewrite Nat.add_0_r in Hf. exact Hf. }
  assert (F1 : 1 < i -> fails (S (calls w)) text).
  { intro L. specialize (Hf 1 L). rewrite Nat.add_1_r in Hf. exact Hf. }
  destruct i as [|[|[|i]]]; [| | |lia].
  - rewrite Nat.add_0_r in Hv. cbn [firstn Nat.mul Nat.add three_attempts].
    apply retry_at_first. exact Hv.
  - rewrite Nat.add_1_r in Hv. cbn [firstn Nat.mul Nat.add three_attempts].
    apply retry_at_second; [apply F0; lia|exact Hv].
  - replace (calls w + 2) with (S (S (calls w))) in Hv by lia.
    cbn [firstn Nat.mul Nat.add three_attempts].
    apply retry_at_third; [apply F0; lia|apply F1; lia|exact Hv].
Qed.

(** What one call of the function costs, and where its answer comes
    from. *)
Lemma retry_cost :
  forall text w,
    exists evs,
      snd (retry text w) = w ++ evs
      /\ calls evs <= 3 /\ slept evs <= 3
      /\ (forall v, fst (retry text w) = Some v ->
                    exists n, embed_content n text = inr v).
Proof.
  intros text w.
  destruct (embed_content (calls w) text) as [e0|v0] eqn:E0.
  2:{ rewrite (@retry_at_first text w v0 E0). cbn [fst snd].
      exists [Called text].
      split; [reflexivity|]. split; [unfold calls; simpl; lia|].
      split; [simpl; lia|]. intros v [= <-]. eauto. }
  assert (F0 : fails (calls w) text) by (exists e0; exact E0).
  destruct (embed_content (S (calls w)) text) as [e1|v1] eqn:E1.
  2:{ rewrite (@retry_at_second text w v1 F0 E1). cbn [fst snd].
      exists [Called text; Slept 1; Called text].
      split; [reflexivity|]. split; [unfold calls; simpl; lia|].
      split; [simpl; lia|]. intros v [= <-]. eauto. }
  assert (F1 : fails (S (calls w)) text) by (exists e1; exact E1).
  destruct (embed_content (S (S (calls w))) text) as [e2|v2] eqn:E2.
  - rewrite (@EmbedFacts.retry_exhausted num embed_content text w);
      [|exact F0|exact F1|exists e2; exact E2].
    exists (three_attempts text). cbn [fst snd].
    split; [reflexivity|]. split; [unfold calls; simpl; lia|].
    split; [simpl; lia|]. discriminate.
  - rewrite (@retry_at_third text w v2 F0 F1 E2). cbn [fst snd].
    exists (three_attempts text).
    split; [reflexivity|]. split; [unfold calls; simpl; lia|].
    split; [simpl; lia|]. intros v [= <-]. eauto.
Qed.

Lemma loop_body_cost :
  forall acc d w,
    exists e evs,
      loop_body acc d w = (acc ++ [set_embedding d e], w ++ evs)
      /\ calls evs <= 3 /\ slept evs <= 3
      /\ (forall v, e = Some v ->
                    exists n, embed_content n (embedding_text d) = inr v).
Proof.
  intros acc d w. unfold Embed.loop_body. fold (embedding_text d).
  destruct (negb (truthy (strip (embedding_text d)))).
  - exists None, []. rewrite app_nil_r.
    split; [reflexivity|]. split; [unfold calls; simpl; lia|].
    split; [simpl; lia|]. discriminate.
  - unfold bind.
    destruct (retry_cost (embedding_text d) w) as (evs & Hw & Hc & Hs & Hv).
    destruct (retry (embedding_text d) w) as [r w'].
    cbn [fst snd] in Hw, Hv. subst w'.
    destruct r as [v|].
    + exists (Some v), evs. split; [reflexivity|].
      split; [exact Hc|]. split; [exact Hs|].
      intros v' [= <-]. apply Hv. reflexivity.
    + exists None, evs. split; [reflexivity|].
      split; [exact Hc|]. split; [exact Hs|]. discriminate.
Qed.

Lemma docs_loop_cost :
  forall raw_docs acc w,
    exists out evs,
      docs_loop acc raw_docs w = (acc ++ out, w ++ evs)
      /\ calls evs <= 3 * length raw_docs
      /\ slept evs <= 3 * length raw_docs
      /\ map forget out = raw_docs
      /\ Forall (from_service embed_content) out.
Proof.
  induction raw_docs as [|d more IH]; intros acc w.
  - exists [], []. rewrite !app_nil_r.
    split; [reflexivity|]. split; [unfold calls; simpl; lia|].
    split; [simpl; lia|]. split; [reflexivity|constructor].
  - cbn [Embed.docs_loop]. unfold bind at 1.
    destruct (loop_body_cost acc d w) as (e & evs & Hb & Hc & Hs & Hv).
    rewrite Hb.
    destruct (IH (acc ++ [set_embedding d e]) (w ++ evs))
      as (out & evs' & Hl & Hc' & Hs' & Hf & Hp).
    rewrite Hl. exists (set_embedding d e :: out), (evs ++ evs').
    split; [rewrite <- !app_assoc; reflexivity|].
    split; [rewrite EmbedFacts.calls_app; simpl; lia|].
    split; [rewrite slept_app; simpl; lia|].
    split.
    + cbn [map]. rewrite EmbedFacts.forget_set_embedding, Hf. reflexivity.
    + constructor; [|exact Hp].
      intros v Hv'. rewrite EmbedFacts.forget_set_embedding.
      apply Hv. destruct d; exact Hv'.
Qed.

(** A run over [n] records calls the service at most [3 * n] times and
    pauses at most [3 * n] seconds in all, whatever the service answers. *)
Theorem pipeline_cost :
  forall raw_docs w,
    exists evs,
      snd (generate_embeddings_for_docs embed_content raw_docs w) = w ++ evs
      /\ calls evs <= 3 * length raw_docs
      /\ slept evs <= 3 * length raw_docs.
Proof.
  intros raw_docs w. unfold Embed.generate_embeddings_for_docs, bind.
  destruct (docs_loop_cost raw_docs [] w) as (out & evs & Hl & Hc & Hs & _).
  rewrite Hl. exists evs.
  split; [|split; assumption].
  destruct ([] ++ out); reflexivity.
Qed.

(** Every embedding that the pipeline writes is an answer of the service
    to the text derived from that same record: a record never gets the
    vector of another text, nor a vector of the program's own making. *)
Theorem pipeline_provenance :
  forall raw_docs w out,
    fst (generate_embeddings_for_docs embed_content raw_docs w) = Some out ->
    Forall (from_service embed_content) out.
Proof.
  intros raw_docs w out. unfold Embed.generate_embeddings_for_docs, bind.
  destruct (docs_loop_cost raw_docs [] w) as (o & evs & Hl & _ & _ & _ & Hp).
  rewrite Hl. cbn [app].
  destruct o as [|d o]; cbn [fst ret]; [discriminate|].
  intros [= <-]. exact Hp.
Qed.

Lemma docs_loop_blank :
  forall raw_docs acc w,
    (forall d, In d raw_docs -> truthy (strip (embedding_text d)) = false) ->
    docs_loop acc raw_docs w
    = (acc ++ map (fun d => set_embedding d None) raw_docs, w).
Proof.
  induction raw_docs as [|d more IH]; intros acc w H.
  - simpl. rewrite app_nil_r. reflexivity.
  - cbn [Embed.docs_loop]. unfold bind at 1. unfold Embed.loop_body.
    fold (embedding_text d). rewrite (H d) by (left; reflexivity).
    cbn [negb ret]. rewrite IH by (intros d' Hd'; apply H; right; exact Hd').
    cbn [map]. rewrite <- app_assoc. reflexivity.
Qed.

(** When nothing is left of the text of any record after cleaning, the
    run makes no call and no pause, and hands every record on with a null
    embedding. *)
Theorem pipeline_blank_texts :
  forall raw_docs w,
    (forall d, In d raw_docs -> truthy (strip (embedding_text d)) = false) ->
    raw_docs <> [] ->
    generate_embeddings_for_docs embed_content raw_docs w
    = (Some (map (fun d => set_embedding d None) raw_docs), w).
Proof.
  intros raw_docs w H Hne. unfold Embed.generate_embeddings_for_docs, bind.
  rewrite (docs_loop_blank raw_docs [] w H). cbn [app].
  destruct raw_docs as [|d more]; [congruence|reflexivity].
Qed.

End WithService.

Lemma retry_first_success_witness :
  generate_embedding_with_retry Samples.batch_third (lit "t") []
  = (Some [1%Z], firstn 5 (three_attempts (lit "t"))).
Proof.
  apply (@retry_first_success Z Samples.batch_third (lit "t") [] 2 [1%Z]).
  - lia.
  - intros j Hj. exists Samples.failure.
    destruct j as [|[|j]]; [reflexivity|reflexivity|lia].
  - reflexivity.
Defined.

Lemma pipeline_provenance_witness :
  Forall (from_service Samples.batch_third)
    [set_embedding Samples.raw_blank None;
     set_embedding Samples.raw_a (Some [1%Z])].
Proof.
  apply (@pipeline_provenance Z Samples.batch_third
           [Samples.raw_blank; Samples.raw_a] []).
  vm_compute. reflexivity.
Defined.

Lemma pipeline_blank_texts_witness :
  generate_embeddings_for_docs Samples.batch_down [Samples.raw_blank] []
  = (Some [set_embedding Samples.raw_blank None], []).
Proof.
  apply (@pipeline_blank_texts Z Samples.batch_down [Samples.raw_blank] []).
  - intros d [<-|[]]. vm_compute. reflexivity.
  - discriminate.
Defined.

End EmbedMore.

(** ** Substitution of a repeated character set *)

Module SubFacts.
Import PyStr Re EmbedCost.

Section OneSet.
Variable p : char -> bool.
Variable repl : str.

Lemma collapse_run :
  forall s, collapse p repl true s = collapse p repl false (dropwhile p s).
Proof.
  induction s as [|c s IH]; [reflexivity|].
  simpl. destruct (p c) eqn:E; [exact IH|].
  simpl. rewrite E. reflexivity.
Qed.

Lemma greedy_takes_run :
  forall cs s pv ac,
    ac <> [] ->
    exists st,
      rep_greedy p (fun st => Some st) cs 0 pv ac s = Some st
      /\ acc st <> [] /\ rest st = dropwhile p s.
Proof.
  intros cs. induction s as [|c s IH]; intros pv ac Hac.
  - eexists. split; [reflexivity|]. split; [exact Hac|reflexivity].
  - cbn [rep_greedy dropwhile]. destruct (p c) eqn:E.
    + destruct (IH (Some c) (c :: ac)) as (st & Hst & Ha & Hr);
        [discriminate|].
      cbn [pred]. rewrite Hst. exists st. repeat split; assumption.
    + eexists. split; [reflexivity|]. split; [exact Hac|reflexivity].
Qed.

Lemma plus_match :
  forall c s pv,
    p c = true ->
    exists st,
      match_at (Rep p 1 true) pv (c :: s) = Some st
      /\ acc st <> [] /\ rest st = dropwhile p s.
Proof.
  intros c s pv E. unfold match_at.
  cbn [exec prev acc rest caps rep_greedy]. rewrite E.
  destruct (greedy_takes_run [] s (Some c) (ac := [c]))
    as (st & Hst & Ha & Hr); [discriminate|].
  cbn [pred]. rewrite Hst. exists st. repeat split; assumption.
Qed.

Lemma plus_no_match :
  forall c s pv, p c = false -> match_at (Rep p 1 true) pv (c :: s) = None.
Proof.
  intros c s pv E. unfold match_at.
  cbn [exec prev acc rest caps rep_greedy]. rewrite E. reflexivity.
Qed.

Lemma sub_collapse_step :
  forall n,
    (forall s pv, length s < n ->
                  sub_fuel n (Rep p 1 true) repl pv s
                  = collapse p repl false s) ->
    forall s pv, length s < S n ->
                 sub_fuel (S n) (Rep p 1 true) repl pv s
                 = collapse p repl false s.
Proof.
  intros n IHn. induction s as [|c s IH]; intros pv L.
  - reflexivity.
  - cbn [sub_fuel search_from collapse].
    destruct (p c) eqn:E.
    + destruct (@plus_match c s pv E) as (st & Hst & Ha & Hr).
      rewrite Hst. cbn [app].
      destruct (acc st) as [|a ac]; [congruence|].
      rewrite Hr, IHn, collapse_run; [reflexivity|].
      pose proof (SlugFacts.dropwhile_length p s). simpl in L. lia.
    + rewrite (@plus_no_match c s pv E).
      assert (L' : length s < S n) by (simpl in L; lia).
      specialize (IH (Some c) L'). cbn [sub_fuel] in IH.
      destruct (search_from (Rep p 1 true) (Some c) s) as [[sk st]|].
      * cbn [app]. f_equal. exact IH.
      * f_equal. exact IH.
Qed.

(** [re.sub] of a pattern that is one character set repeated at least once
    replaces every maximal run of the set. *)
Lemma sub_collapse :
  forall s, sub (Rep p 1 true) repl s = collapse p repl false s.
Proof.
  intro s. unfold sub.
  assert (G : forall n s pv,
             length s < n ->
             sub_fuel n (Rep p 1 true) repl pv s = collapse p repl false s).
  { induction n as [|n IH]; intros s0 pv L; [lia|].
    apply sub_collapse_step; assumption. }
  apply G. lia.
Qed.

(** A text without any character of the set is left as it is. *)
Lemma collapse_none :
  forall s b, Forall (fun c => p c = false) s -> collapse p repl b s = s.
Proof.
  induction s as [|c s IH]; intros b F; [reflexivity|].
  apply Forall_cons_iff in F as [Fc Fs]. simpl. rewrite Fc.
  f_equal. apply IH. exact Fs.
Qed.

End OneSet.
End SubFacts.

(** ** The text sent for embedding *)

Module CleanFacts.
Import PyStr Re Embed EmbedCost ExtractSpec.

Lemma collapse_single_spaced :
  forall s b, single_spaced b (collapse isspace SPACE b s) = true.
Proof.
  induction s as [|c s IH]; intro b; simpl; [reflexivity|].
  destruct (isspace c) eqn:E.
  - destruct b; [apply IH|].
    cbn [SPACE app single_spaced]. change (isspace 32%N) with true.
    cbn [N.eqb Pos.eqb negb andb]. apply IH.
  - simpl. rewrite E. apply IH.
Qed.

Lemma single_spaced_weaken :
  forall s b, single_spaced b s = true -> single_spaced false s = true.
Proof.
  intros [|c s] b H; simpl in *; [reflexivity|].
  destruct (isspace c); [|exact H].
  apply andb_true_iff in H as [H Hs].
  apply andb_true_iff in H as [Hc _].
  rewrite Hc, Hs. reflexivity.
Qed.

Lemma single_spaced_app :
  forall l1 l2 b,
    single_spaced b (l1 ++ l2) = true ->
    single_spaced b l1 = true /\ single_spaced false l2 = true.
Proof.
  induction l1 as [|c l1 IH]; intros l2 b H.
  - split; [reflexivity|]. eapply single_spaced_weaken. exact H.
  - simpl in *. destruct (isspace c).
    + apply andb_true_iff in H as [Hb H].
      destruct (IH l2 true H) as [H1 H2]. rewrite Hb, H1. auto.
    + apply IH. exact H.
Qed.

Lemma single_spaced_no_newline :
  forall s b,
    single_spaced b s = true -> Forall (fun c => one NL c = false) s.
Proof.
  induction s as [|c s IH]; intros b H; [constructor|].
  simpl in H. destruct (isspace c) eqn:E.
  - apply andb_true_iff in H as [H Hs].
    apply andb_true_iff in H as [Hc _].
    apply N.eqb_eq in Hc. subst c.
    constructor; [reflexivity|]. eapply IH. exact Hs.
  - constructor; [|eapply IH; exact H].
    unfold one, eqb_char. destruct (N.eqb_spec NL c) as [<-|]; [|reflexivity].
    discriminate E.
Qed.

(** The cleaned text has no white space but single plain spaces between
    other characters: no line feed or tab, never two spaces in a row, no
    space at either end.  It is what the second substitution and its
    [strip] leave: the third substitution, of line feeds, and the last
    [strip] never change anything. *)
Theorem clean_text_shape :
  forall text,
    clean_text_for_embedding text
    = strip (sub spaces_re SPACE (sub markdown_re [] text))
    /\ single_spaced false (clean_text_for_embedding text) = true
    /\ ~ In NL (clean_text_for_embedding text)
    /\ starts_clean isspace (clean_text_for_embedding text)
    /\ starts_clean isspace (rev (clean_text_for_embedding text)).
Proof.
  intro text. unfold clean_text_for_embedding.
  set (t1 := sub markdown_re [] text).
  set (t2 := strip (sub spaces_re SPACE t1)).
  assert (S2 : single_spaced false t2 = true).
  { unfold t2, spaces_re. rewrite SubFacts.sub_collapse.
    destruct (SlugFacts.strip_by_infix isspace
                (collapse isspace SPACE false t1)) as (pre & post & Hu).
    pose proof (collapse_single_spaced t1 false) as T.
    rewrite Hu in T.
    apply single_spaced_app in T as [_ T].
    apply single_spaced_app in T as [T _]. exact T. }
  assert (N2 : Forall (fun c => one NL c = false) t2)
    by (eapply single_spaced_no_newline; exact S2).
  assert (E3 : strip (sub newlines_re SPACE t2) = t2).
  { unfold newlines_re. rewrite SubFacts.sub_collapse.
    rewrite (@SubFacts.collapse_none (one NL) SPACE t2 false N2).
    unfold t2, strip. apply SlugFacts.strip_by_idempotent. }
  rewrite E3. split; [reflexivity|]. split; [exact S2|]. split.
  - intro Hin. rewrite Forall_forall in N2. specialize (N2 NL Hin).
    discriminate N2.
  - unfold t2, strip. apply SlugFacts.strip_by_clean.
Qed.

End CleanFacts.

(** ** More on the search *)

Module SearchMore.
Import PyStr Py App AppSpec AppMore.

Section WithSimilarity.
Variables num score : Type.
Variable cosine_similarity : list num -> list num -> exn + score.
Variable lt : score -> score -> bool.

#[local] Abbreviation scan := (scan cosine_similarity).
#[local] Abbreviation get_relevant_documents :=
  (get_relevant_documents cosine_similarity lt).
#[local] Abbreviation stop_exn := (stop_exn cosine_similarity).
#[local] Abbreviation candidate := (candidate cosine_similarity).
#[local] Abbreviation candidates := (candidates cosine_similarity).
#[local] Abbreviation warning := (warning cosine_similarity).
#[local] Abbreviation warnings := (warnings cosine_similarity).

Lemma search_through :
  forall docs q top_k tr,
    (forall d, In d docs -> stop_exn q d = None) ->
    get_relevant_documents docs q top_k tr
    = (inr (slice_to (effective_k top_k)
              (list_sort fst lt true (candidates q docs))),
       tr ++ warnings q docs).
Proof.
  intros docs q top_k tr H. unfold App.get_relevant_documents, bind.
  rewrite (@AppFacts.scan_through num score cosine_similarity docs q [] tr H).
  reflexivity.
Qed.

(** A search that raises has met a record that stops the scan. *)
Lemma search_stopped :
  forall docs q top_k tr d,
    In d docs -> stop_exn q d <> None ->
    exists pre d0 post e,
      docs = pre ++ d0 :: post
      /\ (forall d', In d' pre -> stop_exn q d' = None)
      /\ stop_exn q d0 = Some e
      /\ get_relevant_documents docs q top_k tr
         = (inl e, tr ++ warnings q pre).
Proof.
  intros docs q top_k tr d Hin Hd.
  destruct (@AppFacts.first_stop num score cosine_similarity q docs d Hin Hd)
    as (pre & d0 & post & e & Hdocs & Hpre & Hd0).
  exists pre, d0, post, e. repeat split; try assumption.
  unfold App.get_relevant_documents, bind. rewrite Hdocs.
  rewrite (@AppFacts.scan_stopped num score cosine_similarity pre q [] tr
             d0 post e Hpre Hd0).
  reflexivity.
Qed.

Lemma search_returned_through :
  forall docs q top_k tr result tr',
    get_relevant_documents docs q top_k tr = (inr result, tr') ->
    forall d, In d docs -> stop_exn q d = None.
Proof.
  intros docs q top_k tr result tr' H d Hin.
  destruct (stop_exn q d) as [e|] eqn:E; [|reflexivity].
  destruct (@search_stopped docs q top_k tr d Hin)
    as (pre & d0 & post & e0 & _ & _ & _ & Hs); [congruence|].
  rewrite Hs in H. discriminate H.
Qed.

Lemma value_error_kind :
  forall e, is_value_error e = true <-> exn_kind e = ValueError.
Proof.
  intro e. unfold is_value_error.
  destruct (exn_kind e); split; intro H; try reflexivity; discriminate H.
Qed.

(** A record does not stop the scan when it has a list for embedding and,
    if the list passes the test, the cosine computation raises nothing but
    ValueError on it. *)
Lemma stop_exn_none :
  forall q d,
    stop_exn q d = None
    <-> (embedding d <> None
         /\ forall v e,
              embedding d = Some v -> usable q d = true ->
              cosine_similarity q v = inl e -> exn_kind e = ValueError).
Proof.
  intros q d. unfold AppSpec.stop_exn.
  destruct (embedding d) as [v|] eqn:E.
  - destruct (usable q d) eqn:U.
    + destruct (cosine_similarity q v) as [e|s] eqn:C.
      * destruct (is_value_error e) eqn:K.
        -- split; [|reflexivity]. intros _. split; [discriminate|].
           intros v' e' [= <-] _ C'. rewrite C in C'. injection C' as <-.
           apply value_error_kind. exact K.
        -- split; [discriminate|]. intros [_ H].
           pose proof (H v e eq_refl eq_refl C) as K'.
           apply value_error_kind in K'. congruence.
      * split; [|reflexivity]. intros _. split; [discriminate|].
        intros v' e' [= <-] _ C'. congruence.
    + split; [|reflexivity]. intros _. split; [discriminate|].
      intros v' e' _ U'. discriminate U'.
  - split; [discriminate|]. intros [H _]. congruence.
Qed.

Lemma stop_or_not :
  forall q docs,
    (forall d, In d docs -> stop_exn q d = None)
    \/ (exists d, In d docs /\ stop_exn q d <> None).
Proof.
  intros q. induction docs as [|d0 docs IH].
  - left. intros d [].
  - destruct (stop_exn q d0) as [e|] eqn:E.
    + right. exists d0. split; [left; reflexivity|congruence].
    + destruct IH as [IH|(d & Hin & Hd)].
      * left. intros d [<-|Hin]; [exact E|apply IH; exact Hin].
      * right. exists d. split; [right; exact Hin|exact Hd].
Qed.

(** The search returns a result exactly when no record of the corpus stops
    the scan: every record has a list for embedding, and on the lists that
    pass the test the cosine computation raises nothing but ValueError.
    Otherwise it raises the exception of the first record that stops the
    scan, after the warnings of the records before it: the TypeError of
    [len] for a null embedding, or what the cosine computation raised. *)
Theorem search_returns_iff :
  forall docs q top_k tr,
    ((exists result tr',
         get_relevant_documents docs q top_k tr = (inr result, tr'))
     <-> (forall d,
             In d docs ->
             embedding d <> None
             /\ forall v e,
                  embedding d = Some v -> usable q d = true ->
                  cosine_similarity q v = inl e -> exn_kind e = ValueError))
    /\ (forall e tr',
           get_relevant_documents docs q top_k tr = (inl e, tr') ->
           exists pre d post,
             docs = pre ++ d :: post
             /\ (forall d', In d' pre -> stop_exn q d' = None)
             /\ stop_exn q d = Some e
             /\ tr' = tr ++ warnings q pre).
Proof.
  intros docs q top_k tr. split; [split|].
  - intros (result & tr' & H) d Hin. apply stop_exn_none.
    eapply search_returned_through; eauto.
  - intro H. do 2 eexists. apply search_through.
    intros d Hin. apply stop_exn_none. apply H. exact Hin.
  - intros e tr' H.
    destruct (stop_or_not q docs) as [Hnone|(d & Hin & Hd)].
    + rewrite (search_through docs q top_k tr Hnone) in H. discriminate H.
    + destruct (@search_stopped docs q top_k tr d Hin Hd)
        as (pre & d0 & post & e0 & Hdocs & Hpre & Hd0 & Hs).
      rewrite Hs in H. injection H as <- <-.
      exists pre, d0, post. auto.
Qed.

Lemma slice_to_incl :
  forall (A : Type) k (l : list A) x, In x (slice_to k l) -> In x l.
Proof.
  intros A k l x. unfold slice_to.
  destruct (0 <=? k)%Z; intro H;
    match type of H with
    | In _ (firstn ?n _) =>
        rewrite <- (firstn_skipn n l); apply in_or_app; left; exact H
    end.
Qed.

Lemma candidate_origin :
  forall q d s d',
    In (s, d') (candidate q d) ->
    d' = d
    /\ exists v, embedding d = Some v
                 /\ (0 <? length v) && (length q =? length v) = true
                 /\ cosine_similarity q v = inr s.
Proof.
  intros q d s d'. unfold AppSpec.candidate, usable.
  destruct (embedding d) as [v|]; [|intros []].
  destruct ((0 <? length v) && (length q =? length v)) eqn:U; [|intros []].
  destruct (cosine_similarity q v) as [e|s0] eqn:C; [intros []|].
  intros [[= <- <-]|[]]. split; [reflexivity|]. exists v. auto.
Qed.

(** Every match that the search returns is a record of the corpus with its
    own similarity to the query: its embedding is a non-empty list of the
    dimension of the query, and the score is what the cosine computation
    gave for that embedding.  This holds for every top_k. *)
Theorem search_provenance :
  forall docs q top_k tr result tr',
    get_relevant_documents docs q top_k tr = (inr result, tr') ->
    forall s d,
      In (s, d) result ->
      In d docs
      /\ exists v, embedding d = Some v
                   /\ 0 < length v /\ length q = length v
                   /\ cosine_similarity q v = inr s.
Proof.
  intros docs q top_k tr result tr' H s d Hin.
  pose proof (@search_returned_through docs q top_k tr result tr' H)
    as Hthrough.
  rewrite (search_through docs q top_k tr Hthrough) in H.
  injection H as <- _.
  apply slice_to_incl in Hin.
  apply (Permutation_in _
           (Permutation_sym (SortFacts.list_sort_perm fst lt true _))) in Hin.
  unfold AppSpec.candidates in Hin.
  apply in_flat_map in Hin as (d0 & Hd0 & Hc).
  apply candidate_origin in Hc as (-> & v & Hv & Hu & Hs).
  split; [exact Hd0|]. exists v.
  apply andb_true_iff in Hu as [H0 Hq].
  apply Nat.ltb_lt in H0. apply Nat.eqb_eq in Hq. auto.
Qed.

Lemma candidate_or_warning :
  forall q d,
    stop_exn q d = None ->
    length (candidate q d) + length (warning q d) = 1.
Proof.
  intros q d. unfold AppSpec.stop_exn, AppSpec.candidate, AppSpec.warning.
  destruct (embedding d) as [v|]; [|discriminate].
  destruct (usable q d); [|reflexivity].
  destruct (cosine_similarity q v) as [e|s]; [|reflexivity].
  destruct (is_value_error e); [reflexivity|discriminate].
Qed.

Lemma candidates_and_warnings :
  forall q docs,
    (forall d, In d docs -> stop_exn q d = None) ->
    length (candidates q docs) + length (warnings q docs) = length docs.
Proof.
  intros q docs. unfold AppSpec.candidates, AppSpec.warnings.
  induction docs as [|d docs IH]; intro H; [reflexivity|].
  cbn [flat_map length]. rewrite !length_app.
  pose proof (candidate_or_warning q d (H d (or_introl eq_refl))).
  specialize (IH (fun d' Hd' => H d' (or_intror Hd'))). lia.
Qed.

Lemma slice_to_all :
  forall (A : Type) k (l : list A),
    (Z.of_nat (length l) <= k)%Z -> slice_to k l = l.
Proof.
  intros A k l H. unfold slice_to.
  destruct (0 <=? k)%Z eqn:E; [|apply Z.leb_gt in E; lia].
  apply firstn_all2. lia.
Qed.

(** Whenever the search returns, every record of the corpus was either
    taken as a candidate or reported by exactly one warning, in corpus
    order; and with top_k at least the size of the corpus no candidate is
    cut off, so matches and warnings together count the records. *)
Theorem ranked_or_warned :
  forall docs q top_k tr result tr',
    get_relevant_documents docs q top_k tr = (inr result, tr') ->
    tr' = tr ++ warnings q docs
    /\ Forall (fun e => is_log e = true) (warnings q docs)
    /\ length (candidates q docs) + length (warnings q docs) = length docs
    /\ ((Z.of_nat (length docs) <= effective_k top_k)%Z ->
        Permutation (candidates q docs) result
        /\ length result + length (warnings q docs) = length docs).
Proof.
  intros docs q top_k tr result tr' H.
  pose proof (@search_returned_through docs q top_k tr result tr' H)
    as Hlists.
  rewrite (search_through docs q top_k tr Hlists) in H.
  assert (P : Permutation (candidates q docs)
                (list_sort fst lt true (candidates q docs)))
    by apply SortFacts.list_sort_perm.
  set (ranking := list_sort fst lt true (candidates q docs)) in *.
  clearbody ranking. injection H as <- <-.
  pose proof (candidates_and_warnings q docs Hlists) as Hcount.
  split; [reflexivity|]. split; [|split; [exact Hcount|]].
  - apply Forall_forall. intros e He. unfold AppSpec.warnings in He.
    apply in_flat_map in He as (d & _ & He). unfold AppSpec.warning in He.
    destruct (embedding d) as [v|]; [|destruct He].
    destruct (usable q d).
    + destruct (cosine_similarity q v) as [e0|s0]; [|destruct He].
      destruct (is_value_error e0); [|destruct He].
      destruct He as [<-|[]]. reflexivity.
    + destruct He as [<-|[]]. reflexivity.
  - intro Hk. rewrite slice_to_all.
    + split; [exact P|]. rewrite <- (Permutation_length P). exact Hcount.
    + pose proof (Permutation_length P) as L. cbv [ranked] in *. lia.
Qed.

End WithSimilarity.

Lemma search_provenance_witness :
  In Samples.doc_b [Samples.doc_a; Samples.doc_short; Samples.doc_b]
  /\ exists v, embedding Samples.doc_b = Some v
               /\ 0 < length v /\ length [1%Z; 0%Z] = length v
               /\ Samples.dot_product [1%Z; 0%Z] v = inr 2%Z.
Proof.
  apply (@search_provenance Z Z Samples.dot_product Z.ltb
           [Samples.doc_a; Samples.doc_short; Samples.doc_b] [1%Z; 0%Z]
           None []
           [(2%Z, Samples.doc_b); (1%Z, Samples.doc_a)]
           [Logged WARNING
              (LOG_SKIP_1 ++ title Samples.doc_short ++ LOG_SKIP_2)]).
  - vm_compute. reflexivity.
  - left. reflexivity.
Defined.

Lemma ranked_or_warned_witness :
  length (candidates Samples.dot_product [1%Z; 0%Z]
            [Samples.doc_a; Samples.doc_short; Samples.doc_b])
  + length (warnings Samples.dot_product [1%Z; 0%Z]
              [Samples.doc_a; Samples.doc_short; Samples.doc_b])
  = 3.
Proof.
  refine (proj1 (proj2 (proj2
            (@ranked_or_warned Z Z Samples.dot_product Z.ltb
               [Samples.doc_a; Samples.doc_short; Samples.doc_b] [1%Z; 0%Z]
               None []
               [(2%Z, Samples.doc_b); (1%Z, Samples.doc_a)]
               [Logged WARNING
                  (LOG_SKIP_1 ++ title Samples.doc_short ++ LOG_SKIP_2)]
               _)))).
  vm_compute. reflexivity.
Defined.

End SearchMore.

(** ** More on the analyzer and the view function *)

Module HandlerMore.
Import PyStr Py App AppSpec AppMore AppLoad Text.

Lemma logs_no_calls :
  forall evs,
    Forall (fun e => is_log e = true) evs ->
    embed_calls evs = 0 /\ generate_calls evs = 0.
Proof.
  unfold embed_calls, generate_calls.
  induction 1 as [|e evs He _ [IH1 IH2]]; [split; reflexivity|].
  destruct e; try discriminate He. simpl. auto.
Qed.

Lemma embed_calls_app :
  forall a b, embed_calls (a ++ b) = embed_calls a + embed_calls b.
Proof.
  intros. unfold embed_calls. rewrite filter_app, length_app. reflexivity.
Qed.

Lemma generate_calls_app :
  forall a b, generate_calls (a ++ b) = generate_calls a + generate_calls b.
Proof.
  intros. unfold generate_calls. rewrite filter_app, length_app.
  reflexivity.
Qed.

Section WithServices.
Variables num score : Type.
Variable cosine_similarity : list num -> list num -> exn + score.
Variable lt : score -> score -> bool.
Variable percent : score -> str.
Variable embed_content : str -> exn + list num.
Variable generate_content : str -> Q -> exn + str.

#[local] Abbreviation scan := (scan cosine_similarity).
#[local] Abbreviation get_relevant_documents :=
  (get_relevant_documents cosine_similarity lt).
#[local] Abbreviation analyze :=
  (analyze_coverage_with_context percent generate_content).
#[local] Abbreviation handle :=
  (handle_analyze_coverage cosine_similarity lt percent embed_content
                           generate_content).
#[local] Abbreviation prompt_of := (prompt_of percent).
#[local] Abbreviation info_of := (@info_of num score percent).

(** The scan only logs, also when it raises. *)
Lemma scan_logs :
  forall docs q sims tr,
    exists evs,
      snd (scan q sims docs tr) = tr ++ evs
      /\ Forall (fun e => is_log e = true) evs.
Proof.
  induction docs as [|d docs IH]; intros q sims tr.
  - exists []. rewrite app_nil_r. split; [reflexivity|constructor].
  - cbn [App.scan]. unfold bind at 1.
    rewrite (@AppFacts.scan_body_result num score cosine_similarity q sims
               d tr).
    destruct (stop_exn cosine_similarity q d) as [e|].
    + exists []. rewrite app_nil_r. split; [reflexivity|constructor].
    + destruct (IH q (sims ++ candidate cosine_similarity q d)
                  (tr ++ warning cosine_similarity q d)) as (evs & Hs & Hl).
      rewrite Hs. exists (warning cosine_similarity q d ++ evs).
      split; [rewrite app_assoc; reflexivity|].
      apply Forall_app. split; [|exact Hl].
      unfold warning.
      destruct (embedding d) as [v|]; [|constructor].
      destruct (usable q d);
        [destruct (cosine_similarity q v) as [e|s];
         [destruct (is_value_error e)|]|];
        repeat constructor.
Qed.

Lemma search_logs :
  forall docs q top_k tr,
    exists evs,
      snd (get_relevant_documents docs q top_k tr) = tr ++ evs
      /\ Forall (fun e => is_log e = true) evs.
Proof.
  intros docs q top_k tr. unfold App.get_relevant_documents, bind.
  destruct (scan_logs docs q [] tr) as (evs & Hs & Hl).
  destruct (scan q [] docs tr) as [[e|sims] tr']; cbn [snd] in *;
    exists evs; auto.
Qed.

(** The analyzer returns a dictionary in every case, after at most one
    call of the model and no call of the embedding service. *)
Lemma analyze_returns :
  forall docs query (matches : list (ranked num score)) tr,
    exists r evs,
      analyze docs query matches tr = (inr r, tr ++ evs)
      /\ embed_calls evs = 0 /\ generate_calls evs <= 1.
Proof.
  intros [|d ds] query matches tr.
  - exists (CoverageResult NOT_LOADED []), [].
    rewrite app_nil_r. repeat split; auto.
  - destruct (generate_content (prompt_of query matches)
                (temperature_of matches)) as [e|text] eqn:G.
    + rewrite (HandlerFacts.analyze_model_failure percent generate_content
                 d ds query matches tr G).
      do 2 eexists. rewrite <- !app_assoc. split; [reflexivity|].
      destruct matches; split; cbv; lia.
    + rewrite (HandlerFacts.analyze_model_answer percent generate_content
                 d ds query matches tr G).
      do 2 eexists. rewrite <- !app_assoc. split; [reflexivity|].
      destruct matches; split; cbv; lia.
Qed.

(** A request with a usable query: the trimmed query goes to the embedding
    service, once; the rest of the request makes at most one call of the
    model; the handler answers with status 200 or 500 and lets no exception
    out. *)
Lemma handle_query :
  forall docs data query tr,
    query_of data = inr query -> truthy query = true ->
    exists r evs,
      handle docs (inr data) tr
      = (inr r, tr ++ request_logged query :: EmbedCalled query :: evs)
      /\ embed_calls evs = 0 /\ generate_calls evs <= 1
      /\ (status r = 200 \/ status r = 500).
Proof.
  intros docs data query tr Hq Ht.
  unfold App.handle_analyze_coverage, App.generate_embedding,
    call_embed_content.
  cbv [lift bind ret log try_except].
  rewrite Hq, Ht. cbn [negb]. fold (request_logged query).
  destruct (embed_content query) as [e|qe].
  - do 2 eexists. rewrite <- !app_assoc. cbn [app].
    split; [reflexivity|]. cbv [embed_calls generate_calls filter length
                                is_embed_call is_generate_call status].
    repeat split; auto.
  - destruct (search_logs docs qe (Some 5%Z)
                ((tr ++ [request_logged query]) ++ [EmbedCalled query]))
      as (evs1 & Hs & Hl).
    destruct (logs_no_calls Hl) as [He1 Hg1].
    destruct (get_relevant_documents docs qe (Some 5%Z) _)
      as [[e|matches] tr1]; cbn [snd] in Hs; subst tr1.
    + exists (Response
                (JObj [(ERROR_KEY, JStr (MSG_INTERNAL ++ exn_msg e));
                       (RESPONSE_TEXT_KEY, JStr []);
                       (RELEVANT_DOCS_INFO_KEY, JArr [])]) 500).
      exists (evs1 ++ [Logged ERROR (LOG_ROUTE ++ exn_msg e)]).
      rewrite <- !app_assoc. cbn [app]. split; [reflexivity|].
      rewrite embed_calls_app, generate_calls_app, He1, Hg1.
      repeat split; auto.
    + destruct (analyze_returns docs query matches
                  (((tr ++ [request_logged query]) ++ [EmbedCalled query])
                     ++ evs1)) as (r & evs2 & Ha & He2 & Hg2).
      rewrite Ha.
      exists (Response (json_of_result r) 200), (evs1 ++ evs2).
      rewrite <- !app_assoc. cbn [app]. split; [reflexivity|].
      rewrite embed_calls_app, generate_calls_app, He1, Hg1, He2.
      repeat split; auto.
Qed.

(** For a body that is a JSON object whose query is a string or is absent,
    the handler always answers, with status 200, 400 or 500: no exception
    of the services, of the search or of the analyzer leaves it. *)
Theorem object_body_answered :
  forall docs d tr,
    dict_get QUERY_KEY d = None
    \/ (exists s, dict_get QUERY_KEY d = Some (JStr s)) ->
    exists r tr',
      handle docs (inr (JObj d)) tr = (inr r, tr')
      /\ (status r = 200 \/ status r = 400 \/ status r = 500).
Proof.
  intros docs d tr H.
  assert (Hq : exists query, query_of (JObj d) = inr query).
  { unfold query_of. destruct H as [-> | [s ->]]; eauto. }
  destruct Hq as [query Hq].
  destruct (truthy query) eqn:Ht.
  - destruct (handle_query docs (JObj d) tr Hq Ht)
      as (r & evs & Hh & _ & _ & Hs).
    rewrite Hh. do 2 eexists. split; [reflexivity|]. tauto.
  - unfold App.handle_analyze_coverage. cbv [lift bind ret].
    rewrite Hq, Ht. cbn [negb]. do 2 eexists. split; [reflexivity|].
    right. left. reflexivity.
Qed.

(** Whatever the request, the corpus and the answers of the services, one
    request calls the embedding service at most once and the generative
    model at most once, and the model only after the embedding service:
    nothing is retried. *)
Theorem request_calls :
  forall docs request tr,
    exists evs,
      snd (handle docs request tr) = tr ++ evs
      /\ embed_calls evs <= 1
      /\ generate_calls evs <= embed_calls evs.
Proof.
  intros docs request tr.
  assert (Quiet : forall out,
             handle docs request tr = (out, tr) ->
             exists evs,
               snd (handle docs request tr) = tr ++ evs
               /\ embed_calls evs <= 1
               /\ generate_calls evs <= embed_calls evs).
  { intros out H. rewrite H. exists []. rewrite app_nil_r.
    repeat split; cbv; lia. }
  destruct request as [e|data]; [eapply Quiet; reflexivity|].
  destruct (query_of data) as [e|query] eqn:Hq.
  - eapply Quiet. unfold App.handle_analyze_coverage. cbv [lift bind ret].
    rewrite Hq. reflexivity.
  - destruct (truthy query) eqn:Ht.
    + destruct (handle_query docs data tr Hq Ht)
        as (r & evs & Hh & He & Hg & _).
      rewrite Hh. cbn [snd].
      exists (request_logged query :: EmbedCalled query :: evs).
      split; [reflexivity|].
      change (request_logged query :: EmbedCalled query :: evs)
        with ([request_logged query; EmbedCalled query] ++ evs).
      rewrite embed_calls_app, generate_calls_app, He.
      change (embed_calls [request_logged query; EmbedCalled query]) with 1.
      change (generate_calls [request_logged query; EmbedCalled query])
        with 0.
      lia.
    + eapply Quiet. unfold App.handle_analyze_coverage. cbv [lift bind ret].
      rewrite Hq, Ht. reflexivity.
Qed.

(** What reaches the embedding service is the query of the body with the
    white space at both ends removed, not the query as sent; the request
    is logged first, with at most 70 characters of that trimmed query, and
    no other text is embedded. *)
Theorem trimmed_query_embedded :
  forall docs d s tr,
    dict_get QUERY_KEY d = Some (JStr s) ->
    truthy (strip s) = true ->
    exists r evs,
      handle docs (inr (JObj d)) tr
      = (inr r,
         tr ++ Logged INFO (LOG_REQUEST_1 ++ firstn 70 (strip s)
                              ++ LOG_REQUEST_2)
            :: EmbedCalled (strip s) :: evs)
      /\ embed_calls evs = 0.
Proof.
  intros docs d s tr Hd Ht.
  assert (Hq : query_of (JObj d) = inr (strip s))
    by (unfold query_of; rewrite Hd; reflexivity).
  destruct (handle_query docs (JObj d) tr Hq Ht)
    as (r & evs & Hh & He & _ & _).
  exists r, evs. split; [exact Hh|exact He].
Qed.



Lemma build_context_grows :
  forall (matches : list (ranked num score)) ctx infos,
    build_context percent ctx infos matches
    = (ctx ++ flat_map (fun m => context_entry (snd m)) matches,
       infos ++ map info_of matches).
Proof.
  induction matches as [|[s d] ms IH]; intros ctx infos.
  - simpl. rewrite !app_nil_r. reflexivity.
  - cbn [build_context]. rewrite IH. cbn [flat_map map snd fst].
    rewrite <- !app_assoc. reflexivity.
Qed.

Lemma entry_occurs :
  forall (matches : list (ranked num score)) m,
    In m matches ->
    exists pre post,
      flat_map (fun m => context_entry (snd m)) matches
      = pre ++ context_entry (snd m) ++ post.
Proof.
  intros matches m Hin. apply in_split in Hin as (l1 & l2 & ->).
  exists (flat_map (fun m => context_entry (snd m)) l1).
  exists (flat_map (fun m => context_entry (snd m)) l2).
  rewrite flat_map_app. reflexivity.
Qed.

(** In the match mode, when the model answers: relevant_docs_info
    describes the ranked matches one for one and in their order (title,
    slug, relevance of each), and the prompt sent to the model contains,
    for every ranked document, its labelled entry, hence its title and its
    whole content. *)
Theorem match_mode_answer :
  forall (d : doc num) ds query (m : ranked num score) ms text tr,
    generate_content (prompt_of query (m :: ms)) (4 # 10) = inr text ->
    analyze (d :: ds) query (m :: ms) tr
    = (inr (CoverageResult (PARTIAL ++ query ++ PARTIAL_IMPROVE ++ text)
              (map info_of (m :: ms))),
       (tr ++ [mode_logged query (m :: ms)])
         ++ [GenerateCalled (prompt_of query (m :: ms)) (4 # 10)])
    /\ forall r,
         In r (m :: ms) ->
         occurs (context_entry (snd r)) (prompt_of query (m :: ms))
         /\ occurs (title (snd r)) (prompt_of query (m :: ms))
         /\ occurs (content (snd r)) (prompt_of query (m :: ms)).
Proof.
  intros d ds query m ms text tr G. split.
  - rewrite (HandlerFacts.analyze_model_answer percent generate_content
               d ds query (m :: ms) tr G).
    rewrite build_context_grows. reflexivity.
  - intros r Hr. unfold AppSpec.prompt_of.
    rewrite build_context_grows. cbn [fst app].
    destruct (entry_occurs (m :: ms) r Hr) as (pre & post & ->).
    unfold prompt_for_refinement, occurs.
    split; [|split].
    + exists (([NL] ++ INDENT ++ REFINE_1 ++ [DQUOTE] ++ query
                 ++ [DQUOTE; 46%N; NL] ++ INDENT ++ REFINE_2 ++ [NL]
                 ++ INDENT ++ REFINE_3 ++ [NL] ++ INDENT ++ REFINE_4
                 ++ [NL; NL] ++ INDENT ++ REFINE_5 ++ [NL] ++ INDENT)
                ++ pre).
      eexists. repeat rewrite <- app_assoc. reflexivity.
    + exists (([NL] ++ INDENT ++ REFINE_1 ++ [DQUOTE] ++ query
                 ++ [DQUOTE; 46%N; NL] ++ INDENT ++ REFINE_2 ++ [NL]
                 ++ INDENT ++ REFINE_3 ++ [NL] ++ INDENT ++ REFINE_4
                 ++ [NL; NL] ++ INDENT ++ REFINE_5 ++ [NL] ++ INDENT)
                ++ pre ++ CTX_TITLE).
      eexists. unfold context_entry. repeat rewrite <- app_assoc.
      reflexivity.
    + exists (([NL] ++ INDENT ++ REFINE_1 ++ [DQUOTE] ++ query
                 ++ [DQUOTE; 46%N; NL] ++ INDENT ++ REFINE_2 ++ [NL]
                 ++ INDENT ++ REFINE_3 ++ [NL] ++ INDENT ++ REFINE_4
                 ++ [NL; NL] ++ INDENT ++ REFINE_5 ++ [NL] ++ INDENT)
                ++ pre ++ CTX_TITLE ++ title (snd r) ++ CTX_SLUG
                ++ slug (snd r) ++ CTX_PATH ++ filepath (snd r)
                ++ CTX_CONTENT).
      eexists. unfold context_entry. repeat rewrite <- app_assoc.
      reflexivity.
Qed.

End WithServices.

Lemma object_body_answered_witness :
  exists r tr',
    handle_analyze_coverage Samples.dot_product Z.ltb Samples.no_percent
      Samples.embed_ok Samples.generate_ok
      [Samples.doc_a; Samples.doc_null] (inr Samples.query_x) []
    = (inr r, tr')
    /\ (status r = 200 \/ status r = 400 \/ status r = 500).
Proof.
  apply (@object_body_answered Z Z Samples.dot_product Z.ltb
           Samples.no_percent Samples.embed_ok Samples.generate_ok
           [Samples.doc_a; Samples.doc_null]
           [(QUERY_KEY, JStr (lit "x"))] []).
  right. exists (lit "x"). reflexivity.
Defined.

Lemma trimmed_query_embedded_witness :
  exists r evs,
    handle_analyze_coverage Samples.dot_product Z.ltb Samples.no_percent
      Samples.embed_ok Samples.generate_ok [Samples.doc_a]
      (inr (JObj [(QUERY_KEY, JStr (lit "  x "))])) []
    = (inr r,
       [] ++ Logged INFO (LOG_REQUEST_1 ++ firstn 70 (strip (lit "  x "))
                            ++ LOG_REQUEST_2)
          :: EmbedCalled (strip (lit "  x ")) :: evs)
    /\ embed_calls evs = 0.
Proof.
  apply (@trimmed_query_embedded Z Z Samples.dot_product Z.ltb
           Samples.no_percent Samples.embed_ok Samples.generate_ok
           [Samples.doc_a] [(QUERY_KEY, JStr (lit "  x "))] (lit "  x ") []).
  - reflexivity.
  - reflexivity.
Defined.


Lemma match_mode_answer_witness :
  occurs (content Samples.doc_a)
    (prompt_of Samples.no_percent (lit "x") [(1%Z, Samples.doc_a)]).
Proof.
  refine (proj2 (proj2 (proj2
            (@match_mode_answer Z Z Samples.no_percent Samples.generate_ok
               Samples.doc_a [] (lit "x") (1%Z, Samples.doc_a) []
               (lit "1. x") [] _)
            (1%Z, Samples.doc_a) _))).
  - reflexivity.
  - left. reflexivity.
Defined.

End HandlerMore.

(** ** The matcher reports only what the pattern allows *)

Module ReFacts.
Import PyStr Re Text.

Lemma eat_reach :
  forall l st st',
    eat l st = Some st' -> reach (Lit l) st st'.
Proof.
  induction l as [|a l IH]; intros st st' H; cbn [eat] in H.
  - injection H as <-. cbn. auto.
  - destruct (rest st) as [|c s'] eqn:R; [discriminate|].
    destruct (eqb_char a c) eqn:E; [|discriminate].
    apply N.eqb_eq in E. subst c.
    apply IH in H. cbn [reach] in *. cbn [rest acc caps prev] in H.
    destruct H as (H1 & H2 & H3 & H4).
    rewrite R, H2, H3, H4. subst s'. cbn [rev prev_after app].
    rewrite <- app_assoc. auto.
Qed.

Section Repetition.
Context {A : Type} (p : char -> bool) (k : mstate -> option A)
        (cs : list (nat * str)).

Lemma rep_greedy_sound :
  forall s min pv ac x,
    rep_greedy p k cs min pv ac s = Some x ->
    exists run s',
      s = run ++ s' /\ forallb p run = true /\ min <= length run
      /\ k (MState (prev_after pv run) (rev run ++ ac) s' cs) = Some x.
Proof.
  induction s as [|c s IH]; intros min pv ac x H; cbn [rep_greedy] in H.
  - destruct min; [|discriminate].
    exists [], []. repeat split; auto.
  - assert (Stop : match min with
                   | O => k (MState pv ac (c :: s) cs)
                   | S _ => None
                   end = Some x ->
                   exists run s',
                     c :: s = run ++ s' /\ forallb p run = true
                     /\ min <= length run
                     /\ k (MState (prev_after pv run) (rev run ++ ac) s' cs)
                        = Some x).
    { destruct min; [|discriminate]. intro K.
      exists [], (c :: s). repeat split; auto. }
    destruct (p c) eqn:E; [|exact (Stop H)].
    destruct (rep_greedy p k cs (pred min) (Some c) (c :: ac) s)
      as [y|] eqn:R; cbn [orelse] in H; [|exact (Stop H)].
    injection H as ->.
    destruct (IH _ _ _ _ R) as (run & s' & -> & Hp & Hm & Hk).
    exists (c :: run), s'. cbn [forallb length prev_after rev app].
    rewrite E, Hp. rewrite <- app_assoc. cbn [app].
    repeat split; auto. lia.
Qed.

Lemma rep_lazy_sound :
  forall s min pv ac x,
    rep_lazy p k cs min pv ac s = Some x ->
    exists run s',
      s = run ++ s' /\ forallb p run = true /\ min <= length run
      /\ k (MState (prev_after pv run) (rev run ++ ac) s' cs) = Some x.
Proof.
  induction s as [|c s IH]; intros min pv ac x H.
  - cbn [rep_lazy] in H. destruct min; [|discriminate].
    destruct (k (MState pv ac [] cs)) eqn:K; cbn [orelse] in H;
      [|discriminate].
    injection H as ->. exists [], []. repeat split; auto.
  - cbn [rep_lazy] in H.
    assert (More : (if p c
                    then rep_lazy p k cs (pred min) (Some c) (c :: ac) s
                    else None) = Some x ->
                   exists run s',
                     c :: s = run ++ s' /\ forallb p run = true
                     /\ min <= length run
                     /\ k (MState (prev_after pv run) (rev run ++ ac) s' cs)
                        = Some x).
    { destruct (p c) eqn:E; [|discriminate]. intro R.
      destruct (IH _ _ _ _ R) as (run & s' & -> & Hp & Hm & Hk).
      exists (c :: run), s'. cbn [forallb length prev_after rev app].
      rewrite E, Hp. rewrite <- app_assoc. cbn [app].
      repeat split; auto. lia. }
    destruct min as [|min]; [|exact (More H)].
    destruct (k (MState pv ac (c :: s) cs)) eqn:K; cbn [orelse] in H;
      [|exact (More H)].
    injection H as ->. exists [], (c :: s). repeat split; auto.
Qed.
End Repetition.

(** Whenever the matcher succeeds, it has taken the state where the
    pattern allows and handed that state to what follows. *)
Lemma exec_sound :
  forall r (A : Type) st (k : mstate -> option A) x,
    exec r st k = Some x ->
    exists st', reach r st st' /\ k st' = Some x.
Proof.
  induction r as [l|p|p min greedy|r1 IH1 r2 IH2|r1 IH1 r2 IH2|n r IH
                  |r IH| |]; intros A st k x H; cbn [exec] in H.
  - destruct (eat l st) as [st'|] eqn:E; [|discriminate].
    exists st'. split; [apply eat_reach; exact E|exact H].
  - destruct (rest st) as [|c s'] eqn:R; [discriminate|].
    destruct (p c) eqn:E; [|discriminate].
    eexists. split; [|exact H]. cbn [reach rest acc caps prev].
    exists c. repeat split; auto.
  - assert (G : exists run s',
               rest st = run ++ s' /\ forallb p run = true
               /\ min <= length run
               /\ k (MState (prev_after (prev st) run) (rev run ++ acc st)
                            s' (caps st)) = Some x).
    { destruct greedy;
        [apply rep_greedy_sound in H|apply rep_lazy_sound in H]; exact H. }
    destruct G as (run & s' & Hr & Hp & Hm & Hk).
    eexists. split; [|exact Hk]. cbn [reach rest acc caps prev].
    exists run. repeat split; auto.
  - apply IH1 in H as (mid & R1 & H). apply IH2 in H as (st' & R2 & H).
    exists st'. split; [|exact H]. cbn [reach]. eauto.
  - destruct (exec r1 st k) as [y|] eqn:E; cbn [orelse] in H.
    + injection H as ->. apply IH1 in E as (st' & R1 & E).
      exists st'. split; [left; exact R1|exact E].
    + apply IH2 in H as (st' & R2 & H).
      exists st'. split; [right; exact R2|exact H].
  - apply IH in H as (inner & R & H).
    eexists. split; [|exact H]. cbn [reach]. eauto.
  - destruct (exec r st (fun _ => Some tt)) as [u|] eqn:E; [|discriminate].
    apply IH in E as (ahead & R & _).
    exists st. split; [|exact H]. cbn [reach]. eauto.
  - destruct (at_bol (prev st)) eqn:E; [|discriminate].
    exists st. split; [|exact H]. cbn [reach]. auto.
  - destruct (rest st) eqn:E; [|discriminate].
    exists st. split; [|exact H]. cbn [reach]. auto.
Qed.

Lemma match_at_sound :
  forall r pv s st,
    match_at r pv s = Some st -> reach r (MState pv [] s []) st.
Proof.
  intros r pv s st H. unfold match_at in H.
  apply exec_sound in H as (st' & R & [= <-]). exact R.
Qed.

(** A match found by a search is a match at some position of the text. *)
Lemma search_from_sound :
  forall r s pv sk st,
    search_from r pv s = Some (sk, st) ->
    exists pv' s', s = sk ++ s' /\ match_at r pv' s' = Some st.
Proof.
  induction s as [|c s IH]; intros pv sk st H; cbn [search_from] in H.
  - destruct (match_at r pv []) eqn:M; [|discriminate].
    injection H as <- <-. exists pv, []. auto.
  - destruct (match_at r pv (c :: s)) eqn:M.
    + injection H as <- <-. exists pv, (c :: s). auto.
    + destruct (search_from r (Some c) s) as [[sk' st']|] eqn:S;
        [|discriminate].
      injection H as <- <-.
      destruct (IH _ _ _ S) as (pv' & s' & -> & M').
      exists pv', s'. auto.
Qed.

Lemma finditer_sound :
  forall r fuel pv s m,
    In m (finditer_fuel fuel r pv s) ->
    exists pv' s', match_at r pv' s' = Some m.
Proof.
  intros r. induction fuel as [|fuel IH]; intros pv s m H;
    cbn [finditer_fuel] in H; [destruct H|].
  destruct (search_from r pv s) as [[sk st]|] eqn:S; [|destruct H].
  destruct H as [<-|H].
  - destruct (search_from_sound _ _ _ S) as (pv' & s' & _ & M). eauto.
  - destruct (acc st); [destruct (rest st); [destruct H|]|];
      eapply IH; exact H.
Qed.

End ReFacts.

(** ** More on the splitter *)

Module ExtractMore.
Import PyStr Re Extract ExtractSpec Text.

Ltac break :=
  repeat match goal with
         | H : exists _, _ |- _ => destruct H as [? H]
         | H : _ /\ _ |- _ => destruct H as [? ?]
         end.

Ltac chase :=
  repeat match goal with
         | H : caps ?x = _ |- context [caps ?x] => rewrite H
         | H : acc ?x = _ |- context [acc ?x] => rewrite H
         end.

Lemma doc_match_groups :
  forall pv s m,
    match_at doc_pattern pv s = Some m ->
    startswith ARQUIVO s = true
    /\ exists x g2, caps m = [(2, g2); (1, x ++ DOT_MD)].
Proof.
  intros pv s m H. apply ReFacts.match_at_sound in H.
  unfold doc_pattern in H. cbn [reach] in H. break.
  subst. cbn [prev acc rest caps] in *.
  split.
  - match goal with H : s = ARQUIVO ++ _ |- _ => rewrite H end.
    apply StripFacts.startswith_self_app.
  - chase. cbn [caps acc].
    rewrite app_nil_r, rev_app_distr, !rev_involutive.
    eauto.
Qed.

Lemma title_match_line :
  forall key pv s m,
    match_at (Seq (Lit HASHES)
               (Seq (Rep isspace 0 true)
               (Seq (Lit key)
               (Seq (Rep isspace 0 true)
                    (Group 1 (Rep dot 0 true)))))) pv s = Some m ->
    forallb dot (group 1 m) = true.
Proof.
  intros key pv s m H. apply ReFacts.match_at_sound in H.
  cbn [reach] in H. break. subst. cbn [prev acc rest caps] in *.
  unfold group. cbn [caps group_in Nat.eqb]. chase.
  rewrite app_nil_r, rev_involutive. assumption.
Qed.

Lemma strip_by_keeps :
  forall (P : char -> Prop) p s, Forall P s -> Forall P (strip_by p s).
Proof.
  intros P p s F.
  destruct (SlugFacts.strip_by_infix p s) as (pre & post & Hs).
  rewrite Hs in F. apply Forall_app in F as [_ F].
  apply Forall_app in F as [F _]. exact F.
Qed.

Lemma strip_trimmed : forall s, trimmed (strip s).
Proof. intro s. apply SlugFacts.strip_by_clean. Qed.

Lemma found_value_line :
  forall re block sk m,
    re = title_re \/ re = slug_re ->
    search re block = Some (sk, m) ->
    trimmed (strip (group 1 m)) /\ ~ In NL (strip (group 1 m)).
Proof.
  intros re block sk m Hre H. split; [apply strip_trimmed|].
  apply ReFacts.search_from_sound in H as (pv & s' & _ & M).
  assert (L : forallb dot (group 1 m) = true).
  { destruct Hre as [-> | ->];
      [apply (title_match_line TITLE_KEY pv s')
      |apply (title_match_line SLUG_KEY pv s')]; exact M. }
  rewrite forallb_forall in L. intro Hin.
  assert (Hn : Forall (fun c => dot c = true) (strip (group 1 m))).
  { apply strip_by_keeps. apply Forall_forall. exact L. }
  rewrite Forall_forall in Hn. specialize (Hn NL Hin). discriminate Hn.
Qed.

(** A title or a slug read from a metadata block is one line without
    white space at either end: it never contains a line feed.  Without a
    metadata block neither is set. *)
Theorem metadata_values_single_line :
  forall full,
    (has_metadata full = false ->
     fst (extract_metadata_and_clean_content full) = Metadata None None)
    /\ (forall t,
           md_title (fst (extract_metadata_and_clean_content full)) = Some t
           \/ md_slug (fst (extract_metadata_and_clean_content full)) = Some t
           -> trimmed t /\ ~ In NL t).
Proof.
  intro full. unfold has_metadata, extract_metadata_and_clean_content.
  destruct (search metadata_block_re full) as [[sk m]|].
  - split; [discriminate|]. cbn [fst md_title md_slug]. intros t [H|H].
    + destruct (search title_re (group 1 m)) as [[sk' t']|] eqn:S;
        [|discriminate].
      injection H as <-. eapply found_value_line; [left; reflexivity|].
      exact S.
    + destruct (search slug_re (group 1 m)) as [[sk' t']|] eqn:S;
        [|discriminate].
      injection H as <-. eapply found_value_line; [right; reflexivity|].
      exact S.
  - split; [reflexivity|]. cbn. intros t [H|H]; discriminate.
Qed.

(** *** The records *)

Lemma cleaned_trimmed :
  forall full, trimmed full -> trimmed (cleaned full).
Proof.
  intros full T. unfold cleaned, extract_metadata_and_clean_content.
  destruct (search metadata_block_re full) as [[sk m]|]; [|exact T].
  cbn [snd].
  destruct (startswith MARKER _); [|apply strip_trimmed].
  destruct (split_once MARKER _) as [|p0 [|p1 ps]];
    try apply strip_trimmed.
  destruct (_ || _); apply strip_trimmed.
Qed.

Lemma collect_origin :
  forall tbl ms d,
    In d (collect tbl ms) ->
    exists m, In m ms /\ process_match tbl m = Some d.
Proof.
  intros tbl. induction ms as [|m ms IH]; intros d H; [destruct H|].
  cbn [collect] in H.
  destruct (process_match tbl m) as [d0|] eqn:P.
  - destruct H as [<-|H]; [exists m; split; [left; reflexivity|exact P]|].
    destruct (IH d H) as (m' & Hm & Hp). exists m'. split; [right|]; auto.
  - destruct (IH d H) as (m' & Hm & Hp). exists m'. split; [right|]; auto.
Qed.

Lemma process_match_fields :
  forall tbl m d,
    process_match tbl m = Some d ->
    filepath d = strip (group 1 m)
    /\ content d = cleaned (strip (group 2 m))
    /\ truthy (content d) = true.
Proof.
  intros tbl m d H. unfold process_match in H.
  destruct (negb (truthy (strip (group 2 m)))); [discriminate|].
  unfold cleaned.
  destruct (extract_metadata_and_clean_content (strip (group 2 m)))
    as [metadata cleaned_content].
  destruct (truthy cleaned_content) eqn:T; cbn [negb] in H; [|discriminate].
  injection H as <-. cbn [filepath content snd]. auto.
Qed.

Lemma strip_keeps_md :
  forall x, strip (x ++ DOT_MD) = dropwhile isspace x ++ DOT_MD.
Proof.
  intro x. unfold strip, strip_by.
  assert (D : dropwhile isspace (x ++ DOT_MD)
              = dropwhile isspace x ++ DOT_MD).
  { induction x as [|c x IH]; [reflexivity|].
    cbn [app dropwhile]. destruct (isspace c); [exact IH|reflexivity]. }
  rewrite D, rev_app_distr. cbn [DOT_MD rev app dropwhile].
  change (isspace 100%N) with false. cbn iota.
  change (100%N :: 109%N :: 46%N :: rev (dropwhile isspace x))
    with (rev DOT_MD ++ rev (dropwhile isspace x)).
  rewrite <- rev_app_distr, rev_involutive. reflexivity.
Qed.

Lemma records_origin :
  forall tbl full d,
    In d (extracted_docs tbl full) ->
    exists pv s m,
      match_at doc_pattern pv s = Some m /\ process_match tbl m = Some d.
Proof.
  intros tbl full d H. unfold extracted_docs in H.
  apply collect_origin in H as (m & Hm & Hp).
  unfold finditer in Hm.
  apply ReFacts.finditer_sound in Hm as (pv & s & M). eauto.
Qed.

(** Every record that the splitter emits has a file path that ends in
    [.md] and has no white space at either end. *)
Theorem records_filepath :
  forall tbl full d,
    In d (extracted_docs tbl full) ->
    (exists x, filepath d = x ++ DOT_MD) /\ trimmed (filepath d).
Proof.
  intros tbl full d H.
  apply records_origin in H as (pv & s & m & M & P).
  apply process_match_fields in P as (Hf & _ & _).
  apply doc_match_groups in M as (_ & x & g2 & Hc).
  assert (G : group 1 m = x ++ DOT_MD)
    by (unfold group; rewrite Hc; reflexivity).
  rewrite Hf. split; [|apply strip_trimmed].
  rewrite G, strip_keeps_md. eauto.
Qed.

(** Every record that the splitter emits has a content that is not empty
    and has no white space at either end: documents that are empty, or
    empty once the metadata and the annotation are removed, are left
    out. *)
Theorem records_content :
  forall tbl full d,
    In d (extracted_docs tbl full) ->
    content d <> [] /\ trimmed (content d).
Proof.
  intros tbl full d H.
  apply records_origin in H as (pv & s & m & _ & P).
  apply process_match_fields in P as (_ & Hc & Ht).
  split.
  - intro E. rewrite E in Ht. discriminate Ht.
  - rewrite Hc. apply cleaned_trimmed, strip_trimmed.
Qed.

Lemma search_doc_occurs :
  forall s pv sk m,
    search_from doc_pattern pv s = Some (sk, m) -> occurs ARQUIVO s.
Proof.
  intros s pv sk m H.
  apply ReFacts.search_from_sound in H as (pv' & s' & -> & M).
  apply doc_match_groups in M as [Hs _].
  apply StripFacts.startswith_app in Hs.
  exists sk, (skipn (length ARQUIVO) s'). rewrite <- Hs. reflexivity.
Qed.

(** A text in which the heading [## Arquivo: ] does not occur, the empty
    text for one, yields no record, and the function returns False without
    writing a file. *)
Theorem no_heading_no_record :
  forall tbl full,
    ~ occurs ARQUIVO full ->
    extracted_docs tbl full = []
    /\ extract_data_from_markdown tbl full = None.
Proof.
  intros tbl full H.
  assert (E : extracted_docs tbl full = []).
  { unfold extracted_docs, finditer. cbn [finditer_fuel].
    destruct (search_from doc_pattern None full) as [[sk m]|] eqn:S;
      [|reflexivity].
    destruct H. eapply search_doc_occurs. exact S. }
  split; [exact E|]. unfold extract_data_from_markdown. rewrite E.
  reflexivity.
Qed.

(** *** The generated slug *)

Lemma tidy_no_double :
  forall l1 b a c l2,
    tidy b (l1 ++ a :: c :: l2) = true ->
    is_junk a = true -> is_junk c = true -> False.
Proof.
  intros l1 b a c l2 T Ha Hc.
  apply SlugFacts.tidy_app in T as [_ T].
  cbn [tidy] in T. rewrite Ha, Hc in T. cbn in T. discriminate T.
Qed.

(** A slug made by the splitter holds only the letters a to z, the digits
    and the hyphen; it neither begins nor ends with a hyphen and never has
    two hyphens in a row.  It may be empty. *)
Theorem generated_slug_shape :
  forall tbl s,
    Forall (fun c => slug_char c = true) (slugify tbl s)
    /\ starts_clean is_hyphen (slugify tbl s)
    /\ starts_clean is_hyphen (rev (slugify tbl s))
    /\ (forall l1 l2, slugify tbl s <> l1 ++ HYPHEN :: HYPHEN :: l2).
Proof.
  intros tbl s. rewrite SlugFacts.slugify_by_words.
  destruct (SlugFacts.slug_shape tbl s) as [T F].
  split; [exact F|]. split; [|split].
  - apply SlugFacts.strip_by_clean.
  - apply SlugFacts.strip_by_clean.
  - intros l1 l2 E. rewrite E in T.
    eapply tidy_no_double; [exact T| |]; reflexivity.
Qed.

Lemma metadata_values_single_line_witness :
  trimmed (lit "A") /\ ~ In NL (lit "A").
Proof.
  apply (proj2 (metadata_values_single_line
                  (lit "## Metadata_Start" ++ [NL] ++ lit "## title: A "
                     ++ [NL] ++ lit "## Metadata_End"))).
  left. vm_compute. reflexivity.
Defined.

Lemma records_filepath_witness :
  (exists x, filepath Samples.scenario_record = x ++ DOT_MD)
  /\ trimmed (filepath Samples.scenario_record).
Proof.
  apply (records_filepath (fun _ c _ => [c]) Samples.scenario_markdown).
  vm_compute. left. reflexivity.
Defined.

Lemma records_content_witness :
  content Samples.scenario_record <> []
  /\ trimmed (content Samples.scenario_record).
Proof.
  apply (records_content (fun _ c _ => [c]) Samples.scenario_markdown).
  vm_compute. left. reflexivity.
Defined.

Lemma no_heading_no_record_witness :
  extracted_docs (fun _ c _ => [c]) [] = []
  /\ extract_data_from_markdown (fun _ c _ => [c]) [] = None.
Proof.
  apply no_heading_no_record.
  intros (pre & post & H). destruct pre; discriminate H.
Defined.

End ExtractMore.

(** ** The size of an answer *)

Module AnswerSize.
Import PyStr Py App AppSpec AppMore.

Section WithServices.
Variables num score : Type.
Variable cosine_similarity : list num -> list num -> exn + score.
Variable lt : score -> score -> bool.
Variable percent : score -> str.
Variable embed_content : str -> exn + list num.
Variable generate_content : str -> Q -> exn + str.

#[local] Abbreviation get_relevant_documents :=
  (get_relevant_documents cosine_similarity lt).
#[local] Abbreviation analyze :=
  (analyze_coverage_with_context percent generate_content).
#[local] Abbreviation handle :=
  (handle_analyze_coverage cosine_similarity lt percent embed_content
                           generate_content).

Lemma search_five :
  forall docs q tr matches tr',
    get_relevant_documents docs q (Some 5%Z) tr = (inr matches, tr') ->
    length matches <= 5.
Proof.
  intros docs q tr matches tr' H.
  pose proof (@SearchMore.search_returned_through num score
                cosine_similarity lt docs q (Some 5%Z) tr matches tr' H)
    as Hl.
  rewrite (@SearchMore.search_through num score cosine_similarity lt docs q
             (Some 5%Z) tr Hl) in H.
  injection H as <- _. apply (firstn_le_length 5).
Qed.

Lemma analyze_infos :
  forall docs query (matches : list (ranked num score)) tr r tr',
    analyze docs query matches tr = (inr r, tr') ->
    length (relevant_docs_info r) <= length matches.
Proof.
  intros [|d ds] query matches tr r tr' H.
  - injection H as <- _. simpl. lia.
  - destruct (generate_content (prompt_of percent query matches)
                (temperature_of matches)) as [e|text] eqn:G.
    + rewrite (HandlerFacts.analyze_model_failure percent generate_content
                 d ds query matches tr G) in H.
      injection H as <- _. simpl. lia.
    + rewrite (HandlerFacts.analyze_model_answer percent generate_content
                 d ds query matches tr G) in H.
      injection H as <- _. cbn [relevant_docs_info].
      destruct matches as [|m ms]; [simpl; lia|].
      rewrite HandlerMore.build_context_grows. cbn [snd app].
      rewrite length_map. lia.
Qed.

(** An answer with status 200 always carries a response text and a list
    of at most five document descriptions, however large the corpus. *)
Theorem answer_lists_at_most_five :
  forall docs request tr r tr',
    handle docs request tr = (inr r, tr') ->
    status r = 200 ->
    exists text infos,
      body r = json_of_result (CoverageResult text infos)
      /\ length infos <= 5.
Proof.
  intros docs request tr r tr' H Hs.
  unfold App.handle_analyze_coverage, App.generate_embedding,
    call_embed_content in H.
  cbv [lift bind ret log try_except raise] in H.
  destruct request as [e|data]; [discriminate|].
  destruct (query_of data) as [e|query]; [discriminate|].
  destruct (negb (truthy query)).
  { injection H as <- _. discriminate Hs. }
  destruct (embed_content query) as [e|qe].
  { injection H as <- _. discriminate Hs. }
  destruct (get_relevant_documents docs qe (Some 5%Z) _)
    as [[e|matches] tr1] eqn:S.
  { injection H as <- _. discriminate Hs. }
  destruct (analyze docs query matches tr1) as [[e|res] tr2] eqn:A.
  { injection H as <- _. discriminate Hs. }
  injection H as <- _. cbn [body].
  exists (response_text res), (relevant_docs_info res).
  split; [destruct res; reflexivity|].
  pose proof (search_five _ _ _ S). pose proof (analyze_infos _ _ _ _ A).
  lia.
Qed.

End WithServices.

Lemma answer_lists_at_most_five_witness :
  exists text infos,
    json_of_result
      (CoverageResult
         (PARTIAL ++ lit "x" ++ PARTIAL_IMPROVE ++ lit "1. x")
         [DocInfo (lit "a") (lit "a") []])
    = json_of_result (CoverageResult text infos)
    /\ length infos <= 5.
Proof.
  refine (@answer_lists_at_most_five Z Z Samples.dot_product Z.ltb
            Samples.no_percent Samples.embed_ok Samples.generate_ok
            [Samples.doc_a] (inr Samples.query_x) []
            (Response
               (json_of_result
                  (CoverageResult
                     (PARTIAL ++ lit "x" ++ PARTIAL_IMPROVE ++ lit "1. x")
                     [DocInfo (lit "a") (lit "a") []])) 200)
            _ _ _).
  - vm_compute. reflexivity.
  - reflexivity.
Defined.

End AnswerSize.

(** ** The order of the metadata lines *)

Module OrderFacts.
Import PyStr Re Extract ExtractSpec Text MetadataSpec.

Lemma search_skip :
  forall r seg X pv,
    no_match_in r pv seg X ->
    search_from r pv (seg ++ X)
    = match search_from r (prev_after pv seg) X with
      | Some (sk, st) => Some (seg ++ sk, st)
      | None => None
      end.
Proof.
  intros r. induction seg as [|c seg IH]; intros X pv H.
  - cbn [app prev_after]. destruct (search_from r pv X) as [[sk st]|];
      reflexivity.
  - destruct H as [H0 H]. cbn [prev_after].
    change ((c :: seg) ++ X) with (c :: seg ++ X) in *.
    cbn [search_from]. rewrite H0, (IH X (Some c) H).
    destruct (search_from r (prev_after (Some c) seg) X) as [[sk st]|];
      reflexivity.
Qed.

Lemma lazy_skip :
  forall (A : Type) p (k : mstate -> option A) cs seg X pv ac,
    forallb p seg = true ->
    fails_in k cs pv ac seg X ->
    rep_lazy p k cs 0 pv ac (seg ++ X)
    = rep_lazy p k cs 0 (prev_after pv seg) (rev seg ++ ac) X.
Proof.
  intros A p k cs. induction seg as [|c seg IH]; intros X pv ac Hp H.
  - reflexivity.
  - destruct H as [H0 H]. cbn [forallb] in Hp.
    apply andb_true_iff in Hp as [Hc Hp].
    change ((c :: seg) ++ X) with (c :: seg ++ X) in *.
    cbn [rep_lazy]. rewrite H0, Hc. cbn [orelse pred prev_after rev].
    rewrite (IH X (Some c) (c :: ac) Hp H), <- app_assoc. reflexivity.
Qed.

Lemma greedy_exact :
  forall (A : Type) p (k : mstate -> option A) cs run X pv ac x,
    starts_clean p X ->
    forallb p run = true ->
    k (MState (prev_after pv run) (rev run ++ ac) X cs) = Some x ->
    rep_greedy p k cs 0 pv ac (run ++ X) = Some x.
Proof.
  intros A p k cs. induction run as [|c run IH]; intros X pv ac x HX Hp Hk.
  - cbn [app prev_after rev] in *.
    destruct X as [|c X]; cbn [rep_greedy]; [exact Hk|].
    cbn [starts_clean] in HX. rewrite HX. exact Hk.
  - cbn [forallb] in Hp. apply andb_true_iff in Hp as [Hc Hp].
    cbn [app rep_greedy]. rewrite Hc. cbn [pred].
    rewrite (IH X (Some c) (c :: ac) x HX Hp); [reflexivity|].
    cbn [prev_after rev] in Hk. rewrite <- app_assoc in Hk. exact Hk.
Qed.

(** *** The line patterns on concrete text *)

Lemma value_head :
  forall v, is_value v = true -> starts_clean isspace v /\ v <> [].
Proof.
  intros [|c v] H; [discriminate|].
  unfold is_value in H. apply andb_true_iff in H as [H _].
  apply negb_true_iff in H. split; [exact H|discriminate].
Qed.

Lemma value_plain :
  forall v, is_value v = true -> forallb plain_char v = true.
Proof.
  intros v H. unfold is_value in H. apply andb_true_iff in H as [_ H].
  exact H.
Qed.

Lemma plain_is_dot :
  forall v, forallb plain_char v = true -> forallb dot v = true.
Proof.
  induction v as [|c v IH]; [reflexivity|]. cbn [forallb]. intro H.
  apply andb_true_iff in H as [Hc Hv]. rewrite (IH Hv), andb_true_r.
  unfold plain_char in Hc. apply andb_true_iff in Hc as [_ Hc].
  exact Hc.
Qed.

Lemma eat_prefix :
  forall l pv ac X cs,
    eat l (MState pv ac (l ++ X) cs)
    = Some (MState (prev_after pv l) (rev l ++ ac) X cs).
Proof.
  induction l as [|a l IH]; intros pv ac X cs; [reflexivity|].
  cbn [eat rest app acc caps]. unfold eqb_char at 1. rewrite N.eqb_refl.
  rewrite IH. cbn [prev_after rev]. rewrite <- app_assoc. reflexivity.
Qed.

Lemma search_hit :
  forall r pv s st,
    match_at r pv s = Some st -> search_from r pv s = Some ([], st).
Proof.
  intros r pv [|c s] st H; cbn [search_from]; rewrite H; reflexivity.
Qed.

Lemma no_match_app :
  forall r seg1 seg2 X pv,
    no_match_in r pv seg1 (seg2 ++ X) ->
    no_match_in r (prev_after pv seg1) seg2 X ->
    no_match_in r pv (seg1 ++ seg2) X.
Proof.
  intros r. induction seg1 as [|c seg1 IH]; intros seg2 X pv H1 H2.
  - exact H2.
  - destruct H1 as [H0 H1]. cbn [app no_match_in]. split.
    + rewrite <- app_assoc. exact H0.
    + apply IH; assumption.
Qed.

Lemma fails_app :
  forall (A : Type) (k : mstate -> option A) cs seg1 seg2 X pv ac,
    fails_in k cs pv ac seg1 (seg2 ++ X) ->
    fails_in k cs (prev_after pv seg1) (rev seg1 ++ ac) seg2 X ->
    fails_in k cs pv ac (seg1 ++ seg2) X.
Proof.
  intros A k cs. induction seg1 as [|c seg1 IH]; intros seg2 X pv ac H1 H2.
  - exact H2.
  - destruct H1 as [H0 H1]. cbn [app fails_in]. split.
    + rewrite <- app_assoc. exact H0.
    + apply IH; [exact H1|].
      cbn [prev_after rev] in H2. rewrite <- app_assoc in H2. exact H2.
Qed.

(** The pattern of a line with the key [key]. *)
Lemma line_match :
  forall key v Y pv,
    starts_clean isspace key -> key <> [] ->
    is_value v = true ->
    exists st,
      match_at (Seq (Lit HASHES)
                 (Seq (Rep isspace 0 true)
                 (Seq (Lit key)
                 (Seq (Rep isspace 0 true)
                      (Group 1 (Rep dot 0 true))))))
        pv (HASHES ++ 32%N :: key ++ 32%N :: v ++ NL :: Y) = Some st
      /\ group 1 st = v.
Proof.
  intros key v Y pv Hk Hkne Hv. unfold match_at.
  destruct (value_head v Hv) as [Hh Hne].
  pose proof (plain_is_dot v (value_plain v Hv)) as Hd.
  cbn [exec]. rewrite eat_prefix. cbn [caps prev acc rest].
  eexists. split.
  - apply (greedy_exact isspace _ _ [32%N]); [|reflexivity|].
    { destruct key; [congruence|exact Hk]. }
    rewrite eat_prefix. cbn [caps prev acc rest].
    apply (greedy_exact isspace _ _ [32%N]); [|reflexivity|].
    { destruct v; [congruence|exact Hh]. }
    cbn [caps prev acc rest].
    apply (greedy_exact dot _ _ v); [reflexivity|exact Hd|].
    reflexivity.
  - unfold group. cbn [caps group_in Nat.eqb acc].
    rewrite app_nil_r, rev_involutive. reflexivity.
Qed.

(** A line pattern never matches inside a text without number sign. *)
Lemma no_match_plain :
  forall key rest_re v X pv,
    forallb plain_char v = true ->
    no_match_in (Seq (Lit HASHES) (Seq (Rep isspace 0 true) (Seq (Lit key)
                   rest_re))) pv v X.
Proof.
  intros key rest_re. induction v as [|c v IH]; intros X pv H; [exact I|].
  cbn [forallb] in H. apply andb_true_iff in H as [Hc Hv].
  split; [|apply IH; exact Hv].
  unfold match_at. cbn [exec HASHES eat rest app].
  unfold plain_char in Hc. apply andb_true_iff in Hc as [Hc _].
  apply negb_true_iff in Hc. unfold eqb_char.
  rewrite N.eqb_sym, Hc. reflexivity.
Qed.

Ltac concrete_no_match :=
  intros; cbv [no_match_in START_LINE TITLE_LINE SLUG_LINE app];
  repeat split; vm_compute; reflexivity.

Lemma title_not_in_start :
  forall X pv, no_match_in title_re pv (START_LINE ++ [NL]) X.
Proof. concrete_no_match. Qed.

Lemma slug_not_in_start :
  forall X pv, no_match_in slug_re pv (START_LINE ++ [NL]) X.
Proof. concrete_no_match. Qed.

Lemma title_not_in_slug_line :
  forall X pv, no_match_in title_re pv SLUG_LINE X.
Proof. concrete_no_match. Qed.

Lemma slug_not_in_title_line :
  forall X pv, no_match_in slug_re pv TITLE_LINE X.
Proof. concrete_no_match. Qed.

Lemma title_not_at_newline :
  forall X pv, no_match_in title_re pv [NL] X.
Proof. concrete_no_match. Qed.

Lemma slug_not_at_newline :
  forall X pv, no_match_in slug_re pv [NL] X.
Proof. concrete_no_match. Qed.

(** *** The two line patterns on a block *)

Lemma title_line_found :
  forall seg T Y,
    no_match_in title_re None seg (TITLE_LINE ++ T ++ NL :: Y) ->
    is_value T = true ->
    exists sk st,
      search title_re (seg ++ TITLE_LINE ++ T ++ NL :: Y) = Some (sk, st)
      /\ group 1 st = T.
Proof.
  intros seg T Y Hno HT. unfold search. rewrite (@search_skip _ _ _ _ Hno).
  destruct (@line_match TITLE_KEY T Y (prev_after None seg))
    as (st & M & G); [reflexivity|discriminate|exact HT|].
  change (HASHES ++ 32%N :: TITLE_KEY ++ 32%N :: T ++ NL :: Y)
    with (TITLE_LINE ++ T ++ NL :: Y) in M.
  rewrite (@search_hit title_re _ _ _ M). eauto.
Qed.

Lemma slug_line_found :
  forall seg S Y,
    no_match_in slug_re None seg (SLUG_LINE ++ S ++ NL :: Y) ->
    is_value S = true ->
    exists sk st,
      search slug_re (seg ++ SLUG_LINE ++ S ++ NL :: Y) = Some (sk, st)
      /\ group 1 st = S.
Proof.
  intros seg S Y Hno HS. unfold search. rewrite (@search_skip _ _ _ _ Hno).
  destruct (@line_match SLUG_KEY S Y (prev_after None seg))
    as (st & M & G); [reflexivity|discriminate|exact HS|].
  change (HASHES ++ 32%N :: SLUG_KEY ++ 32%N :: S ++ NL :: Y)
    with (SLUG_LINE ++ S ++ NL :: Y) in M.
  rewrite (@search_hit slug_re _ _ _ M). eauto.
Qed.

Lemma block_title_first :
  forall T S,
    block (TITLE_LINE ++ T) (SLUG_LINE ++ S)
    = (START_LINE ++ [NL]) ++ TITLE_LINE ++ T
        ++ NL :: (SLUG_LINE ++ S ++ NL :: END_LINE).
Proof.
  intros. unfold block. repeat rewrite <- app_assoc. reflexivity.
Qed.

Lemma block_title_first_slug :
  forall T S,
    block (TITLE_LINE ++ T) (SLUG_LINE ++ S)
    = ((START_LINE ++ [NL]) ++ TITLE_LINE ++ T ++ [NL])
        ++ SLUG_LINE ++ S ++ NL :: END_LINE.
Proof.
  intros. unfold block. repeat rewrite <- app_assoc. reflexivity.
Qed.

Lemma block_slug_first :
  forall T S,
    block (SLUG_LINE ++ S) (TITLE_LINE ++ T)
    = (START_LINE ++ [NL]) ++ SLUG_LINE ++ S
        ++ NL :: (TITLE_LINE ++ T ++ NL :: END_LINE).
Proof.
  intros. unfold block. repeat rewrite <- app_assoc. reflexivity.
Qed.

Lemma block_slug_first_title :
  forall T S,
    block (SLUG_LINE ++ S) (TITLE_LINE ++ T)
    = ((START_LINE ++ [NL]) ++ SLUG_LINE ++ S ++ [NL])
        ++ TITLE_LINE ++ T ++ NL :: END_LINE.
Proof.
  intros. unfold block. repeat rewrite <- app_assoc. reflexivity.
Qed.

(** In a block with a title line and a slug line, in either order, each
    pattern finds its own line. *)
Lemma lines_found :
  forall T S,
    is_value T = true -> is_value S = true ->
    (exists sk st,
        search title_re (block (TITLE_LINE ++ T) (SLUG_LINE ++ S))
        = Some (sk, st) /\ group 1 st = T)
    /\ (exists sk st,
           search slug_re (block (TITLE_LINE ++ T) (SLUG_LINE ++ S))
           = Some (sk, st) /\ group 1 st = S)
    /\ (exists sk st,
           search title_re (block (SLUG_LINE ++ S) (TITLE_LINE ++ T))
           = Some (sk, st) /\ group 1 st = T)
    /\ (exists sk st,
           search slug_re (block (SLUG_LINE ++ S) (TITLE_LINE ++ T))
           = Some (sk, st) /\ group 1 st = S).
Proof.
  intros T S HT HS.
  pose proof (@value_plain T HT) as PT. pose proof (@value_plain S HS) as PS.
  split; [|split; [|split]].
  - rewrite block_title_first.
    apply title_line_found; [apply title_not_in_start|exact HT].
  - rewrite block_title_first_slug. apply slug_line_found; [|exact HS].
    apply no_match_app; [apply slug_not_in_start|].
    apply no_match_app; [apply slug_not_in_title_line|].
    apply no_match_app; [apply no_match_plain; exact PT|].
    apply slug_not_at_newline.
  - rewrite block_slug_first_title. apply title_line_found; [|exact HT].
    apply no_match_app; [apply title_not_in_start|].
    apply no_match_app; [apply title_not_in_slug_line|].
    apply no_match_app; [apply no_match_plain; exact PS|].
    apply title_not_at_newline.
  - rewrite block_slug_first.
    apply slug_line_found; [apply slug_not_in_start|exact HS].
Qed.

(** *** The block pattern on a block *)

Lemma exec_lit :
  forall (A : Type) l r (k : mstate -> option A) pv ac X cs,
    exec (Seq (Lit l) r) (MState pv ac (l ++ X) cs) k
    = exec r (MState (prev_after pv l) (rev l ++ ac) X cs) k.
Proof.
  intros. cbn [exec]. rewrite eat_prefix. reflexivity.
Qed.

Lemma exec_last_lit :
  forall (A : Type) l (k : mstate -> option A) pv ac X cs,
    exec (Lit l) (MState pv ac (l ++ X) cs) k
    = k (MState (prev_after pv l) (rev l ++ ac) X cs).
Proof.
  intros. cbn [exec]. rewrite eat_prefix. reflexivity.
Qed.

Lemma exec_spaces :
  forall (A : Type) r (k : mstate -> option A) run X pv ac cs x,
    starts_clean isspace X ->
    forallb isspace run = true ->
    exec r (MState (prev_after pv run) (rev run ++ ac) X cs) k = Some x ->
    exec (Seq (Rep isspace 0 true) r) (MState pv ac (run ++ X) cs) k
    = Some x.
Proof.
  intros A r k run X pv ac cs x HX Hrun H.
  cbn [exec prev acc rest caps]. apply greedy_exact; assumption.
Qed.

Lemma lazy_hit :
  forall (A : Type) p (k : mstate -> option A) cs pv ac s x,
    k (MState pv ac s cs) = Some x ->
    rep_lazy p k cs 0 pv ac s = Some x.
Proof.
  intros A p k cs pv ac [|c s] x H; cbn [rep_lazy]; rewrite H; reflexivity.
Qed.

Lemma all_dot_all : forall s, forallb dot_all s = true.
Proof. induction s as [|c s IH]; [reflexivity|exact IH]. Qed.

Lemma exec_lazy :
  forall (A : Type) r (k : mstate -> option A) seg X pv ac cs x,
    fails_in (fun st => exec r st k) cs pv ac seg X ->
    exec r (MState (prev_after pv seg) (rev seg ++ ac) X cs) k = Some x ->
    exec (Seq (Rep dot_all 0 false) r) (MState pv ac (seg ++ X) cs) k
    = Some x.
Proof.
  intros A r k seg X pv ac cs x Hf H.
  cbn [exec prev acc rest caps].
  rewrite (@lazy_skip A dot_all _ cs seg X pv ac (all_dot_all seg) Hf).
  apply lazy_hit. exact H.
Qed.

(** The end of the block pattern cannot start inside a value, inside one
    of the two keys, or at a line break. *)
Lemma end_fails_plain :
  forall (A : Type) (k : mstate -> option A) v cs pv ac X,
    forallb plain_char v = true ->
    fails_in (fun st => exec end_re st k) cs pv ac v X.
Proof.
  intros A k. induction v as [|c v IH]; intros cs pv ac X H; [exact I|].
  cbn [forallb] in H. apply andb_true_iff in H as [Hc Hv].
  split; [|apply IH; exact Hv].
  cbn [end_re exec HASHES eat rest app].
  unfold plain_char in Hc. apply andb_true_iff in Hc as [Hc _].
  apply negb_true_iff in Hc. unfold eqb_char.
  rewrite N.eqb_sym, Hc. reflexivity.
Qed.

Ltac concrete_fails :=
  intros; cbv [fails_in TITLE_LINE SLUG_LINE app];
  repeat split; vm_compute; reflexivity.

Lemma end_fails_newline :
  forall (A : Type) (k : mstate -> option A) cs pv ac X,
    fails_in (fun st => exec end_re st k) cs pv ac [NL] X.
Proof. concrete_fails. Qed.

Lemma end_fails_title_line :
  forall (A : Type) (k : mstate -> option A) cs pv ac X,
    fails_in (fun st => exec end_re st k) cs pv ac TITLE_LINE X.
Proof. concrete_fails. Qed.

Lemma end_fails_slug_line :
  forall (A : Type) (k : mstate -> option A) cs pv ac X,
    fails_in (fun st => exec end_re st k) cs pv ac SLUG_LINE X.
Proof. concrete_fails. Qed.

(** The lines between the two delimiters, with their line breaks. *)
Lemma end_fails_lines :
  forall (A : Type) (k : mstate -> option A) K1 v1 K2 v2 cs pv ac X,
    (forall cs pv ac X, fails_in (fun st => exec end_re st k) cs pv ac K1 X) ->
    (forall cs pv ac X, fails_in (fun st => exec end_re st k) cs pv ac K2 X) ->
    forallb plain_char v1 = true -> forallb plain_char v2 = true ->
    fails_in (fun st => exec end_re st k) cs pv ac
      ([NL] ++ K1 ++ v1 ++ [NL] ++ K2 ++ v2 ++ [NL]) X.
Proof.
  intros A k K1 v1 K2 v2 cs pv ac X H1 H2 P1 P2.
  apply fails_app; [apply end_fails_newline|].
  apply fails_app; [apply H1|].
  apply fails_app; [apply end_fails_plain; exact P1|].
  apply fails_app; [apply end_fails_newline|].
  apply fails_app; [apply H2|].
  apply fails_app; [apply end_fails_plain; exact P2|].
  apply end_fails_newline.
Qed.

Lemma block_lines :
  forall K1 v1 K2 v2 tail,
    block (K1 ++ v1) (K2 ++ v2) ++ tail
    = HASHES ++ [32%N] ++ METADATA_START
        ++ ([NL] ++ K1 ++ v1 ++ [NL] ++ K2 ++ v2 ++ [NL])
        ++ HASHES ++ [32%N] ++ METADATA_END ++ tail.
Proof.
  intros. unfold block.
  change START_LINE with (HASHES ++ [32%N] ++ METADATA_START).
  change END_LINE with (HASHES ++ [32%N] ++ METADATA_END).
  repeat (rewrite <- ?app_assoc; cbn [app]). reflexivity.
Qed.

Lemma exec_group :
  forall (A : Type) n r (k : mstate -> option A) pv ac s cs,
    exec (Group n r) (MState pv ac s cs) k
    = exec r (MState pv [] s cs)
        (fun st' =>
           k (MState (prev st') (acc st' ++ ac) (rest st')
                ((n, rev (acc st')) :: caps st'))).
Proof. reflexivity. Qed.

(** The block pattern matches a block of two key lines from its first
    character to its last, whatever follows the block. *)
Lemma block_match :
  forall K1 v1 K2 v2 tail pv,
    (forall (k : mstate -> option mstate) cs pv ac X,
        fails_in (fun st => exec end_re st k) cs pv ac K1 X) ->
    (forall (k : mstate -> option mstate) cs pv ac X,
        fails_in (fun st => exec end_re st k) cs pv ac K2 X) ->
    forallb plain_char v1 = true -> forallb plain_char v2 = true ->
    exists m,
      match_at metadata_block_re pv (block (K1 ++ v1) (K2 ++ v2) ++ tail)
      = Some m
      /\ group 1 m = block (K1 ++ v1) (K2 ++ v2).
Proof.
  intros K1 v1 K2 v2 tail pv H1 H2 P1 P2.
  eexists. split.
  - rewrite block_lines. unfold match_at, metadata_block_re.
    rewrite exec_group, exec_lit.
    apply exec_spaces; [reflexivity|reflexivity|].
    rewrite exec_lit.
    apply exec_lazy; [apply end_fails_lines; auto|].
    rewrite exec_lit.
    apply exec_spaces; [reflexivity|reflexivity|].
    rewrite exec_last_lit. reflexivity.
  - unfold group. cbn [caps group_in Nat.eqb acc prev_after].
    rewrite <- (app_nil_r (block (K1 ++ v1) (K2 ++ v2))).
    rewrite (block_lines K1 v1 K2 v2 []).
    rewrite !rev_app_distr, !rev_involutive.
    repeat (rewrite <- ?app_assoc; cbn [app rev]). reflexivity.
Qed.

Lemma replace_first_prefix :
  forall old new t, replace_first old new (old ++ t) = new ++ t.
Proof.
  intros old new t.
  assert (E : forall s, startswith old s = true ->
                        replace_first old new s = new ++ skipn (length old) s).
  { intros [|c s] Hs; cbn [replace_first]; rewrite Hs; reflexivity. }
  rewrite E by apply StripFacts.startswith_self_app.
  rewrite skipn_app, skipn_all, Nat.sub_diag. reflexivity.
Qed.

Lemma search_at_start :
  forall r s m, match_at r None s = Some m -> search r s = Some ([], m).
Proof. intros r s m H. unfold search. apply search_hit. exact H. Qed.

(** X20.  A document that starts with a metadata block of a title line
    and a slug line yields the same result whichever of the two lines
    comes first: the title and the slug are the two values, stripped, and
    the text that remains is the stripped text after the block. *)
Theorem metadata_order_independent :
  forall T S tail,
    is_value T = true -> is_value S = true ->
    fst (extract_metadata_and_clean_content
           (block (TITLE_LINE ++ T) (SLUG_LINE ++ S) ++ tail))
    = Metadata (Some (strip T)) (Some (strip S))
    /\ extract_metadata_and_clean_content
         (block (SLUG_LINE ++ S) (TITLE_LINE ++ T) ++ tail)
       = extract_metadata_and_clean_content
           (block (TITLE_LINE ++ T) (SLUG_LINE ++ S) ++ tail)
    /\ without_metadata (block (TITLE_LINE ++ T) (SLUG_LINE ++ S) ++ tail)
       = strip tail
    /\ without_metadata (block (SLUG_LINE ++ S) (TITLE_LINE ++ T) ++ tail)
       = strip tail.
Proof.
  intros T S tail HT HS.
  pose proof (@value_plain T HT) as PT. pose proof (@value_plain S HS) as PS.
  destruct (@lines_found T S HT HS)
    as ((sa & ta & Ea & Ga) & (sb & tb & Eb & Gb)
        & (sc & tc & Ec & Gc) & (sd & td & Ed & Gd)).
  destruct (@block_match TITLE_LINE T SLUG_LINE S tail None)
    as (m1 & M1 & B1);
    [intros; apply end_fails_title_line|intros; apply end_fails_slug_line
    |exact PT|exact PS|].
  destruct (@block_match SLUG_LINE S TITLE_LINE T tail None)
    as (m2 & M2 & B2);
    [intros; apply end_fails_slug_line|intros; apply end_fails_title_line
    |exact PS|exact PT|].
  apply search_at_start in M1. apply search_at_start in M2.
  unfold without_metadata, extract_metadata_and_clean_content.
  rewrite M1, M2. cbv beta iota zeta.
  rewrite B1, B2, Ea, Eb, Ec, Ed, Ga, Gb, Gc, Gd.
  rewrite !replace_first_prefix. cbn [fst app].
  repeat split; reflexivity.
Qed.

Lemma metadata_order_independent_witness :
  is_value (lit "Guia de Uso") = true
  /\ is_value (lit "guia-de-uso") = true
  /\ fst (extract_metadata_and_clean_content
            (block (TITLE_LINE ++ lit "Guia de Uso")
                   (SLUG_LINE ++ lit "guia-de-uso") ++ lit " texto"))
     = Metadata (Some (strip (lit "Guia de Uso")))
                (Some (strip (lit "guia-de-uso"))).
Proof.
  split; [vm_compute; reflexivity|].
  split; [vm_compute; reflexivity|].
  refine (proj1 (@metadata_order_independent
                   (lit "Guia de Uso") (lit "guia-de-uso") (lit " texto")
                   _ _)); vm_compute; reflexivity.
Defined.

End OrderFacts.
